(** * Liveness engine: detector, challenge state machine and best-frame scoring

    A shallow embedding of [src/services/livenessEngine.ts] and of the
    quality-score bookkeeping, the evidence buffers, the crops and the
    image scorers of [src/components/FaceLiveness.tsx].

    Numbers.  A JavaScript number is modelled by [Num.num]: a rational for
    every finite value (arithmetic is exact, rounding of binary64 and of
    [Float32Array] storage is not modelled), and explicit constructors for
    [Infinity], [-Infinity] and [NaN], which the source produces and tests
    ([Number.isFinite], [height === 0 ? Infinity : ...], the [-Infinity]
    seed of the best-frame score, reads past the end of a typed array).
    Negative zero is identified with zero.

    External collaborators (ONNX inference, canvas reads, Math.sqrt/exp/PI)
    are functions stored in the objects that own them, so every statement
    quantifies over their behaviour. *)

From Stdlib Require Import String Ascii.
From Stdlib Require Import QArith Qround Qabs Qminmax Lqa.
From Stdlib Require Import List Bool Arith ZArith Lia.
From Stdlib Require Import Morphisms Setoid Permutation Sorted.
From Equations Require Import Equations.
Import ListNotations.

Set Implicit Arguments.

(** ** JavaScript numbers *)

Module Num.

Inductive num : Type :=
| Fin (q : Q)
| PInf
| NInf
| NaN.

Definition zero : num := Fin 0.
Definition one : num := Fin 1.
Definition of_nat (n : nat) : num := Fin (inject_Z (Z.of_nat n)).

(** [Number.isFinite] *)
Definition isFinite (x : num) : bool :=
  match x with Fin _ => true | _ => false end.

(** Ordering of two numbers; [None] when either is [NaN], in which case
    every relational operator of the language answers [false]. *)
Definition cmp (x y : num) : option comparison :=
  match x, y with
  | NaN, _ | _, NaN => None
  | Fin a, Fin b => Some (a ?= b)%Q
  | PInf, PInf | NInf, NInf => Some Eq
  | NInf, _ | _, PInf => Some Lt
  | PInf, _ | _, NInf => Some Gt
  end.

Definition ltb (x y : num) : bool :=
  match cmp x y with Some Lt => true | _ => false end.
Definition gtb (x y : num) : bool := ltb y x.
Definition leb (x y : num) : bool :=
  match cmp x y with Some Lt | Some Eq => true | _ => false end.
Definition geb (x y : num) : bool := leb y x.
(** [x === y] on numbers *)
Definition eqb (x y : num) : bool :=
  match cmp x y with Some Eq => true | _ => false end.

Definition neg (x : num) : num :=
  match x with
  | Fin a => Fin (- a)
  | PInf => NInf
  | NInf => PInf
  | NaN => NaN
  end.

Definition add (x y : num) : num :=
  match x, y with
  | NaN, _ | _, NaN => NaN
  | Fin a, Fin b => Fin (a + b)
  | PInf, NInf | NInf, PInf => NaN
  | PInf, _ | _, PInf => PInf
  | NInf, _ | _, NInf => NInf
  end.

Definition sub (x y : num) : num := add x (neg y).

(** Infinity scaled by a finite factor *)
Definition scale_inf (positive : bool) (a : Q) : num :=
  match (a ?= 0)%Q with
  | Eq => NaN
  | Gt => if positive then PInf else NInf
  | Lt => if positive then NInf else PInf
  end.

Definition mul (x y : num) : num :=
  match x, y with
  | NaN, _ | _, NaN => NaN
  | Fin a, Fin b => Fin (a * b)
  | Fin a, PInf | PInf, Fin a => scale_inf true a
  | Fin a, NInf | NInf, Fin a => scale_inf false a
  | PInf, PInf | NInf, NInf => PInf
  | PInf, NInf | NInf, PInf => NInf
  end.

Definition div (x y : num) : num :=
  match x, y with
  | NaN, _ | _, NaN => NaN
  | Fin a, Fin b =>
      match (b ?= 0)%Q with
      | Eq => scale_inf true a
      | _ => Fin (a / b)
      end
  | Fin _, _ => Fin 0
  | PInf, Fin b => if Qle_bool 0 b then PInf else NInf
  | NInf, Fin b => if Qle_bool 0 b then NInf else PInf
  | _, _ => NaN
  end.

(** [Math.abs] *)
Definition abs (x : num) : num :=
  match x with
  | Fin a => Fin (Qabs a)
  | PInf | NInf => PInf
  | NaN => NaN
  end.

(** [Math.min] and [Math.max]: [NaN] as soon as one argument is [NaN]. *)
Definition min (x y : num) : num :=
  match cmp x y with
  | None => NaN
  | Some Gt => y
  | Some _ => x
  end.

Definition max (x y : num) : num :=
  match cmp x y with
  | None => NaN
  | Some Lt => y
  | Some _ => x
  end.

(** [Math.floor] and [Math.round] (round half up) *)
Definition floor (x : num) : num :=
  match x with
  | Fin a => Fin (inject_Z (Qfloor a))
  | _ => x
  end.

Definition round (x : num) : num :=
  match x with
  | Fin a => Fin (inject_Z (Qfloor (a + (1 # 2))))
  | _ => x
  end.

(** Numeric equality of the modelled values (rationals up to [Qeq]). *)
Definition eqv (x y : num) : Prop :=
  match x, y with
  | Fin a, Fin b => (a == b)%Q
  | PInf, PInf | NInf, NInf | NaN, NaN => True
  | _, _ => False
  end.

(** Typed-array and array reads used in arithmetic: an index past the end
    yields [undefined], which every numeric operator turns into [NaN]. *)
Definition get (a : list num) (i : nat) : num := nth i a NaN.

End Num.

Abbreviation num := Num.num.
Abbreviation Fin := Num.Fin.
Abbreviation PInf := Num.PInf.
Abbreviation NInf := Num.NInf.
Abbreviation NaN := Num.NaN.

Declare Scope num_scope.
Delimit Scope num_scope with num.
Bind Scope num_scope with num.
Infix "+" := Num.add : num_scope.
Infix "-" := Num.sub : num_scope.
Infix "*" := Num.mul : num_scope.
Infix "/" := Num.div : num_scope.
Infix "<?" := Num.ltb : num_scope.
Infix "<=?" := Num.leb : num_scope.
Infix ">?" := Num.gtb : num_scope.
Infix ">=?" := Num.geb : num_scope.
Infix "===" := Num.eqb (at level 70) : num_scope.
Coercion Fin : Q >-> num.

Local Open Scope num_scope.

(** ** Errors and fallible computations

    The source signals failure by throwing [Error] objects; the three it
    creates itself are told apart from the range error of a typed-array
    copy and from whatever a collaborator raises (a rejected inference
    call, a failed model download), which is [External]. *)

Inductive error : Type :=
| DetectorModelNotLoaded     (* thrown by SCRFDDetector.detectFromElement *)
| LandmarkModelNotLoaded     (* thrown by LandmarkEstimator.estimate *)
| InvalidInputSize           (* thrown by LandmarkEstimator.prepareInput *)
| RangeError
| External (msg : string).

Inductive result (A : Type) : Type :=
| Ok (a : A)
| Err (e : error).
Arguments Ok {A} a.
Arguments Err {A} e.

Definition bind {A B : Type} (c : result A) (k : A -> result B) : result B :=
  match c with
  | Ok a => k a
  | Err e => Err e
  end.

(** The outcome of a call into a collaborator *)
Inductive external (A : Type) : Type :=
| Resolved (a : A)
| Rejected (msg : string).
Arguments Resolved {A} a.
Arguments Rejected {A} msg.

Definition await {A : Type} (x : external A) : result A :=
  match x with
  | Resolved a => Ok a
  | Rejected msg => Err (External msg)
  end.

Notation "x <- c ;; k" := (bind c (fun x => k))
  (at level 61, c at next level, right associativity).
Notation "' p <- c ;; k" := (bind c (fun x => let p := x in k))
  (at level 61, p pattern, c at next level, right associativity).

(** ** Data model *)

Record Point : Type := { pt_x : num; pt_y : num }.

(** [bbox: [number, number, number, number]], that is [x1, y1, x2, y2] *)
Record BBox : Type := { b_x1 : num; b_y1 : num; b_x2 : num; b_y2 : num }.

Record Detection : Type := {
  bbox : BBox;
  score : num;
  kps : option (list Point)
}.

Record Pose : Type := { yaw : num; pitch : num; roll : num }.

(** The frame handed to the engine.  Only its pixel size is read by the
    embedded code; its content reaches the code through the inference
    functions below. *)
Record InputElement : Type := {
  el_width : nat;      (* videoWidth || width *)
  el_height : nat;     (* videoHeight || height *)
  el_content : nat     (* stands for the pixels *)
}.

Definition Tensor : Type := list num.

(** [result[name]] of an inference call *)
Definition OnnxValueMap : Type := string -> option Tensor.

(** An [ort.InferenceSession] of the detector, as far as the code uses it. *)
Record InferenceSession : Type := {
  inputNames : list string;
  sessOutputNames : list string;
  (** [inputMetadata[inputNames[0]]?.dimensions]; a symbolic dimension is
      [None] *)
  inputDimensions : option (list (option nat));
  (** number of dimensions of the first output *)
  firstOutputRank : nat;
  (** [run] on the tensor that [prepareInput] draws from the element *)
  run : InputElement -> external OnnxValueMap
}.

(** ** The face detector ([class SCRFDDetector]) *)

Module SCRFD.

Record Detector : Type := {
  session : option InferenceSession;
  inputName : option string;
  outputNames : list string;
  inputSize : nat * nat;           (* [targetW, targetH] *)
  useKps : bool;
  numAnchors : nat;
  featStrideFpn : list nat;
  fmc : nat;
  batched : bool;
  nmsThresh : num;
  kpsPerAnchor : nat
}.

(** Field initialisers of the class *)
Definition create : Detector := {|
  session := None;
  inputName := None;
  outputNames := [];
  inputSize := (640, 640)%nat;
  useKps := false;
  numAnchors := 1;
  featStrideFpn := [8; 16; 32]%nat;
  fmc := 3;
  batched := false;
  nmsThresh := Fin 0.4;
  kpsPerAnchor := 0
|}.

Definition isReady (d : Detector) : bool :=
  match session d with Some _ => true | None => false end.

(** [initFromOutputs]: anchor layout inferred from the number of outputs.
    [useKps] is only ever switched on. *)
Definition initFromOutputs (d : Detector) : Detector :=
  match session d with
  | None => d
  | Some s =>
      let outCount := length (outputNames d) in
      let b := Nat.eqb (firstOutputRank s) 3 in
      let mk (f : nat) (strides : list nat) (na : nat) (k : bool) := {|
        session := session d; inputName := inputName d;
        outputNames := outputNames d; inputSize := inputSize d;
        useKps := k; numAnchors := na; featStrideFpn := strides; fmc := f;
        batched := b; nmsThresh := nmsThresh d;
        kpsPerAnchor := kpsPerAnchor d |} in
      if Nat.eqb outCount 6 then mk 3%nat [8; 16; 32]%nat 2%nat (useKps d)
      else if Nat.eqb outCount 9 then mk 3%nat [8; 16; 32]%nat 2%nat true
      else if Nat.eqb outCount 10 then
        mk 5%nat [8; 16; 32; 64; 128]%nat 1%nat (useKps d)
      else if Nat.eqb outCount 15 then
        mk 5%nat [8; 16; 32; 64; 128]%nat 1%nat true
      else mk (fmc d) (featStrideFpn d) (numAnchors d) (useKps d)
  end.

(** [loadModel], given the session that [createOrtSession] produced from
    the downloaded bytes.  [inputSize] becomes [[shape[3], shape[2]]] when
    both entries of the input shape are numbers. *)
Definition loadModel (d : Detector) (s : InferenceSession) : Detector :=
  let shape :=
    match inputDimensions s with
    | Some dims => dims
    | None => [Some 1; Some 3; Some 640; Some 640]%nat
    end in
  let size :=
    match nth_error shape 2, nth_error shape 3 with
    | Some (Some h), Some (Some w) => (w, h)
    | _, _ => inputSize d
    end in
  initFromOutputs {|
    session := Some s;
    inputName := hd_error (inputNames s);
    outputNames := sessOutputNames s;
    inputSize := size;
    useKps := useKps d; numAnchors := numAnchors d;
    featStrideFpn := featStrideFpn d; fmc := fmc d;
    batched := batched d; nmsThresh := nmsThresh d;
    kpsPerAnchor := kpsPerAnchor d |}.

(** Truthiness of [this.inputName]: a string other than the empty one. *)
Definition truthy_name (n : option string) : bool :=
  match n with
  | Some EmptyString | None => false
  | Some _ => true
  end.

(** The letterbox scale computed by [prepareInput] (the tensor itself is
    drawn by the canvas and consumed by [run]). *)
Definition detScale (d : Detector) (element : InputElement) : num :=
  let width := Num.of_nat (el_width element) in
  let height := Num.of_nat (el_height element) in
  let targetW := Num.of_nat (fst (inputSize d)) in
  let targetH := Num.of_nat (snd (inputSize d)) in
  let imRatio := height / width in
  let modelRatio := targetH / targetW in
  let newHeight :=
    if imRatio >? modelRatio then targetH
    else Num.round (targetW * imRatio) in
  newHeight / height.

(** [getAnchorCenters]: [x * stride, y * stride] for every cell and anchor,
    row by row.  The [centerCache] memoises this table per
    (height, width, stride); it is recomputed here. *)
Definition getAnchorCenters (height width stride na : nat) : list num :=
  flat_map (fun y =>
    flat_map (fun x =>
      flat_map (fun _ => [Num.of_nat (x * stride); Num.of_nat (y * stride)])
               (seq 0 na))
      (seq 0 width))
    (seq 0 height).

(** [distance2bbox].  The source writes the four values of each anchor
    into a [Float32Array]; the rounding of that store is left out, as the
    header says. *)
Definition distance2bbox (points distance : list num) : list num :=
  let anchorCount := (length points / 2)%nat in
  flat_map (fun i =>
    let px := Num.get points (i * 2) in
    let py := Num.get points (i * 2 + 1) in
    let base := (i * 4)%nat in
    let left := Num.get distance base in
    let top := Num.get distance (base + 1) in
    let right := Num.get distance (base + 2) in
    let bottom := Num.get distance (base + 3) in
    [px - left; py - top; px + right; py + bottom])
    (seq 0 anchorCount).

(** [toFloat32 (tensor, expectedLength)]; a missing [expectedLength] is 0 *)
Definition toFloat32 (tensor : option Tensor) (expectedLength : nat) : list num :=
  match tensor with
  | None => []
  | Some data =>
      if Nat.eqb expectedLength 0 then data
      else if Nat.eqb (length data) expectedLength then data
      else if Nat.ltb expectedLength (length data) then firstn expectedLength data
      else data
  end.

Definition extractScores (data : list num) (K : nat) : list num :=
  if Nat.eqb (length data) K then data
  else if Nat.eqb (length data) (K * 2) then
    map (fun i => Num.get data (i * 2 + 1)) (seq 0 K)
  else firstn K data.

Definition concatFloat32 (l : list (list num)) : option (list num) :=
  match l with
  | [] => None
  | _ => Some (concat l)
  end.

(** [iou], with the +1 inclusive width and height *)
Definition iou (boxA boxB : BBox) : num :=
  let x1 := Num.max (b_x1 boxA) (b_x1 boxB) in
  let y1 := Num.max (b_y1 boxA) (b_y1 boxB) in
  let x2 := Num.min (b_x2 boxA) (b_x2 boxB) in
  let y2 := Num.min (b_y2 boxA) (b_y2 boxB) in
  let w := Num.max (Fin 0) (x2 - x1 + Fin 1) in
  let h := Num.max (Fin 0) (y2 - y1 + Fin 1) in
  let inter := w * h in
  let areaA := (b_x2 boxA - b_x1 boxA + Fin 1) * (b_y2 boxA - b_y1 boxA + Fin 1) in
  let areaB := (b_x2 boxB - b_x1 boxB + Fin 1) * (b_y2 boxB - b_y1 boxB + Fin 1) in
  let union := areaA + areaB - inter in
  if union <=? Fin 0 then Fin 0 else inter / union.

(** [objects.sort((a, b) => b.score - a.score)].  The comparator's value
    for [(a, b)]; [a] is placed before [b] when it is negative.  The sort
    of the language is stable, so for this comparator its result is the
    one of a stable insertion. *)
Definition comparefn (a b : Detection) : num := score b - score a.

Fixpoint insert_sorted (x : Detection) (l : list Detection) : list Detection :=
  match l with
  | [] => [x]
  | y :: l' =>
      if comparefn y x <? Fin 0 then y :: insert_sorted x l'
      else x :: y :: l'
  end.

Definition sort (l : list Detection) : list Detection :=
  fold_right insert_sorted [] l.

(** The inner [for] loop of [nms]: every remaining candidate whose IoU with
    [current] exceeds the threshold is spliced out. *)
Definition suppress (thresh : num) (current : Detection)
    (objects : list Detection) : list Detection :=
  filter (fun candidate => negb (iou (bbox current) (bbox candidate) >? thresh))
         objects.

(** The [while (objects.length)] loop: shift the head, keep it, suppress. *)
Equations? nms_loop (thresh : num) (objects : list Detection) : list Detection
  by wf (length objects) lt :=
  nms_loop thresh [] := [];
  nms_loop thresh (current :: rest) :=
    current :: nms_loop thresh (suppress thresh current rest).
Proof.
  unfold suppress.
  pose proof (filter_length_le
    (fun candidate => negb (iou (bbox current) (bbox candidate) >? thresh)) rest).
  simpl. lia.
Qed.

(** [nms].  The [index] attached to each object is never read and the
    final [map] rebuilds [{bbox, score, kps}], so it is left out. *)
Definition nms (thresh : num) (detections : list Detection) : list Detection :=
  match detections with
  | [] => detections
  | _ => nms_loop thresh (sort detections)
  end.

(** [a] does not suppress [b] *)
Definition compatible (thresh : num) (a b : Detection) : Prop :=
  (iou (bbox a) (bbox b) >? thresh) = false.

(** [y] is not placed before [x] by the comparator *)
Definition notBefore (x y : Detection) : Prop :=
  (comparefn y x <? Fin 0) = false.

(** The score is a number other than [NaN], as is every score that
    [postprocess] lets through *)
Definition scored (c : Detection) : Prop := score c <> NaN.

(** What [postprocess] returns *)
Record Decoded : Type := {
  dec_scores : option (list num);
  dec_boxes : option (list num);
  dec_kps : option (list num)
}.

(** The keypoint branch of [postprocess] for one stride ([distance2kps]
    and the copy of the selected rows): from the anchor centres, the
    stride-scaled keypoint tensor and the selected indices to the selected
    keypoint coordinates and [numKeypoints].  Its typed-array offsets are
    quotients that need not be integers and the copy can raise a range
    error ([None]); it feeds nothing back into boxes, scores or the
    selection, so it is kept as a function of the detector's environment. *)
Definition KpsStage : Type :=
  list num -> list num -> list nat -> option (list num * nat).

Definition kpsOutcome (o : option (list num * nat)) : result (list num * nat) :=
  match o with
  | Some v => Ok v
  | None => Err RangeError
  end.

Record Accum : Type := {
  scoresList : list (list num);
  bboxList : list (list num);
  kpsList : list (list num);
  acc_kpsPerAnchor : nat
}.

(** The values that one iteration of the loop over the feature-pyramid
    strides computes before it selects: the stride, the anchor count [K],
    the anchor centres, the scores and the decoded boxes. *)
Definition strideOf (d : Detector) (idx : nat) : nat :=
  nth idx (featStrideFpn d) 0%nat.

Definition strideCenters (d : Detector) (idx : nat) : list num :=
  let stride := strideOf d idx in
  let height := (snd (inputSize d) / stride)%nat in
  let width := (fst (inputSize d) / stride)%nat in
  getAnchorCenters height width stride (numAnchors d).

Definition strideK (d : Detector) (idx : nat) : nat :=
  let stride := strideOf d idx in
  let height := (snd (inputSize d) / stride)%nat in
  let width := (fst (inputSize d) / stride)%nat in
  (height * width * numAnchors d)%nat.

Definition strideScores (d : Detector) (netOuts : list (option Tensor))
    (idx : nat) : list num :=
  let scoresTensor := nth idx netOuts None in
  extractScores (toFloat32 scoresTensor 0) (strideK d idx).

(** [bboxPreds[i] *= stride], again without the rounding (and the
    overflow to an infinity) of the [Float32Array] that holds the values *)
Definition strideBboxPreds (d : Detector) (netOuts : list (option Tensor))
    (idx : nat) : list num :=
  let bboxTensor := nth (idx + fmc d) netOuts None in
  map (fun v => v * Num.of_nat (strideOf d idx))
      (toFloat32 bboxTensor (strideK d idx * 4)).

Definition strideDecodedBboxes (d : Detector) (netOuts : list (option Tensor))
    (idx : nat) : list num :=
  distance2bbox (strideCenters d idx) (strideBboxPreds d netOuts idx).

(** The indices [pos] whose score reaches the threshold *)
Definition stridePos (d : Detector) (netOuts : list (option Tensor))
    (threshold : num) (idx : nat) : list nat :=
  filter (fun i => Num.get (strideScores d netOuts idx) i >=? threshold)
         (seq 0 (strideK d idx)).

Definition boxRow (decodedBboxes : list num) (pi : nat) : list num :=
  let boxBase := (pi * 4)%nat in
  [Num.get decodedBboxes boxBase; Num.get decodedBboxes (boxBase + 1);
   Num.get decodedBboxes (boxBase + 2); Num.get decodedBboxes (boxBase + 3)].

(** One iteration of the loop over the feature-pyramid strides *)
Definition postprocess_stride (d : Detector) (kpsStage : KpsStage)
    (netOuts : list (option Tensor)) (threshold : num)
    (acc : Accum) (idx : nat) : result Accum :=
  let stride := strideOf d idx in
  let anchorCenters := strideCenters d idx in
  let scores := strideScores d netOuts idx in
  let decodedBboxes := strideDecodedBboxes d netOuts idx in
  let pos := stridePos d netOuts threshold idx in
  match pos with
  | [] => Ok acc
  | _ =>
      let posScores := map (fun pi => Num.get scores pi) pos in
      let posBoxes := flat_map (boxRow decodedBboxes) pos in
      if useKps d then
        let kpsTensor := nth (idx + fmc d * 2) netOuts None in
        let kpsPreds :=
          map (fun v => v * Num.of_nat stride) (toFloat32 kpsTensor 0) in
        '(posKps, numKeypoints) <- kpsOutcome (kpsStage anchorCenters kpsPreds pos) ;;
        Ok {| scoresList := scoresList acc ++ [posScores];
              bboxList := bboxList acc ++ [posBoxes];
              kpsList := kpsList acc ++ [posKps];
              acc_kpsPerAnchor := numKeypoints |}
      else
        Ok {| scoresList := scoresList acc ++ [posScores];
              bboxList := bboxList acc ++ [posBoxes];
              kpsList := kpsList acc;
              acc_kpsPerAnchor := acc_kpsPerAnchor acc |}
  end.

Fixpoint postprocess_loop (d : Detector) (kpsStage : KpsStage)
    (netOuts : list (option Tensor)) (threshold : num)
    (acc : Accum) (idxs : list nat) : result Accum :=
  match idxs with
  | [] => Ok acc
  | idx :: rest =>
      acc' <- postprocess_stride d kpsStage netOuts threshold acc idx ;;
      postprocess_loop d kpsStage netOuts threshold acc' rest
  end.

(** [postprocess]; also yields the value left in [this.kpsPerAnchor]. *)
Definition postprocess (d : Detector) (kpsStage : KpsStage)
    (outputs : OnnxValueMap) (threshold : num) : result (nat * Decoded) :=
  let netOuts := map outputs (outputNames d) in
  acc <- postprocess_loop d kpsStage netOuts threshold
           {| scoresList := []; bboxList := []; kpsList := [];
              acc_kpsPerAnchor := kpsPerAnchor d |}
           (seq 0 (fmc d)) ;;
  Ok (acc_kpsPerAnchor acc,
      {| dec_scores := concatFloat32 (scoresList acc);
         dec_boxes := concatFloat32 (bboxList acc);
         dec_kps := if useKps d then concatFloat32 (kpsList acc) else None |}).

(** The detection built for candidate [i] in [buildDetections] *)
Definition candidate (useKps_ : bool) (kpsPerAnchor_ : nat)
    (scores boxes : list num) (kps_ : option (list num)) (scale : num)
    (i : nat) : Detection :=
  let base := (i * 4)%nat in
  let coordsPerAnchor := (kpsPerAnchor_ * 2)%nat in
  {| bbox := {| b_x1 := Num.get boxes base / scale;
                b_y1 := Num.get boxes (base + 1) / scale;
                b_x2 := Num.get boxes (base + 2) / scale;
                b_y2 := Num.get boxes (base + 3) / scale |};
     score := Num.get scores i;
     kps :=
       match kps_ with
       | Some k =>
           if useKps_ && negb (Nat.eqb coordsPerAnchor 0) then
             let kpsStart := (i * coordsPerAnchor)%nat in
             Some (map (fun m =>
                     let j := (m * 2)%nat in
                     {| pt_x := Num.get k (kpsStart + j) / scale;
                        pt_y := Num.get k (kpsStart + j + 1) / scale |})
                     (seq 0 kpsPerAnchor_))
           else None
       | None => None
       end |}.

Definition buildDetections (d : Detector) (decoded : Decoded) (scale : num)
    : list Detection :=
  match dec_scores decoded, dec_boxes decoded with
  | Some scores, Some boxes =>
      match scores with
      | [] => []
      | _ =>
          nms (nmsThresh d)
            (map (candidate (useKps d) (kpsPerAnchor d) scores boxes
                            (dec_kps decoded) scale)
                 (seq 0 (length scores)))
      end
  | _, _ => []
  end.

Definition set_kpsPerAnchor (d : Detector) (n : nat) : Detector := {|
  session := session d; inputName := inputName d;
  outputNames := outputNames d; inputSize := inputSize d;
  useKps := useKps d; numAnchors := numAnchors d;
  featStrideFpn := featStrideFpn d; fmc := fmc d;
  batched := batched d; nmsThresh := nmsThresh d;
  kpsPerAnchor := n |}.

(** [detectFromElement]; the detector is returned with the
    [kpsPerAnchor] that [postprocess] assigned. *)
Definition detectFromElement (d : Detector) (kpsStage : KpsStage)
    (element : InputElement) (threshold : num)
    : result (Detector * list Detection) :=
  match session d with
  | Some s =>
      if truthy_name (inputName d) then
        outputs <- await (run s element) ;;
        '(kpa, decoded) <- postprocess d kpsStage outputs threshold ;;
        let d' := set_kpsPerAnchor d kpa in
        Ok (d', buildDetections d' decoded (detScale d element))
      else Err DetectorModelNotLoaded
  | None => Err DetectorModelNotLoaded
  end.

End SCRFD.

(** ** Geometric signals and the challenge state machine *)

Module Liveness.

(** [LIVENESS_CONFIG] and the blink constants *)
Definition nodPitch : num := Fin 0.05.
Definition shakeYaw : num := Fin 0.06.
Definition mouthThreshold : num := Fin 0.5.
Definition INITIAL_BLINK_AVG : num := Fin 10.
Definition BLINK_THRESHOLD_LOW : num := Fin 5.
Definition BLINK_THRESHOLD_HIGH : num := Fin 20.
Definition BLINK_AVG_CURRENT : num := Fin 0.1.
Definition BLINK_AVG_PREVIOUS : num := Fin 0.9.
Definition POSE_SCORE_SIGMA : num := Fin 20.
Definition POSE_WEIGHT_YAW : num := Fin 1.
Definition POSE_WEIGHT_PITCH : num := Fin 1.
Definition POSE_WEIGHT_ROLL : num := Fin 0.8.

(** The parts of [Math] that are not rational functions *)
Record JsMath : Type := {
  Math_PI : num;
  Math_sqrt : num -> num;
  Math_exp : num -> num
}.

Inductive LivenessStageKey : Type := nod | shake | blink | mouth.

Record DetectionWithLandmarks : Type := {
  det : Detection;
  landmarks : list Point;
  pose : option Pose
}.

(** [ReturnType<typeof computeBlinkRatios>], when not null *)
Record BlinkRatios : Type := {
  leftHeight : num;
  rightHeight : num;
  leftRatio : num;
  rightRatio : num;
  ratio : num
}.

Record LivenessMetrics : Type := {
  nodRatio : option num;
  nodSpread : option num;
  shakeRatio : option num;
  shakeSpread : option num;
  blinkMetrics : option BlinkRatios;
  mouthRatio : option num;
  m_pose : option Pose;
  poseDegrees : option Pose;
  frontalScore : option num
}.

Record BlinkState : Type := {
  blinkClosedDetected : bool;
  blinkOpenDetected : bool;
  eyeAvg : option num
}.

Record MouthState : Type := {
  mouthOpenDetected : bool;
  mouthClosedDetected : bool
}.

Record RangeState : Type := {
  rmin : option num;
  rmax : option num
}.

Record LivenessComputationState : Type := {
  active : bool;
  stageIndex : nat;
  progress : num;
  completed : bool;
  lastMetrics : option LivenessMetrics;
  nodRange : RangeState;
  shakeRange : RangeState;
  blinkState : BlinkState;
  mouthState : MouthState
}.

Definition emptyRange : RangeState := {| rmin := None; rmax := None |}.

Definition createLivenessComputationState : LivenessComputationState := {|
  active := false;
  stageIndex := 0;
  progress := Fin 0;
  completed := false;
  lastMetrics := None;
  nodRange := emptyRange;
  shakeRange := emptyRange;
  blinkState := {| blinkClosedDetected := false; blinkOpenDetected := false;
                   eyeAvg := Some INITIAL_BLINK_AVG |};
  mouthState := {| mouthOpenDetected := false; mouthClosedDetected := false |}
|}.

(** Field updates of the session state (the source assigns in place) *)
Definition set_active (st : LivenessComputationState) (v : bool) :=
  {| active := v; stageIndex := stageIndex st; progress := progress st;
     completed := completed st; lastMetrics := lastMetrics st;
     nodRange := nodRange st; shakeRange := shakeRange st;
     blinkState := blinkState st; mouthState := mouthState st |}.
Definition set_stageIndex (st : LivenessComputationState) (v : nat) :=
  {| active := active st; stageIndex := v; progress := progress st;
     completed := completed st; lastMetrics := lastMetrics st;
     nodRange := nodRange st; shakeRange := shakeRange st;
     blinkState := blinkState st; mouthState := mouthState st |}.
Definition set_progress (st : LivenessComputationState) (v : num) :=
  {| active := active st; stageIndex := stageIndex st; progress := v;
     completed := completed st; lastMetrics := lastMetrics st;
     nodRange := nodRange st; shakeRange := shakeRange st;
     blinkState := blinkState st; mouthState := mouthState st |}.
Definition set_completed (st : LivenessComputationState) (v : bool) :=
  {| active := active st; stageIndex := stageIndex st; progress := progress st;
     completed := v; lastMetrics := lastMetrics st;
     nodRange := nodRange st; shakeRange := shakeRange st;
     blinkState := blinkState st; mouthState := mouthState st |}.
Definition set_lastMetrics (st : LivenessComputationState)
    (v : option LivenessMetrics) :=
  {| active := active st; stageIndex := stageIndex st; progress := progress st;
     completed := completed st; lastMetrics := v;
     nodRange := nodRange st; shakeRange := shakeRange st;
     blinkState := blinkState st; mouthState := mouthState st |}.
Definition set_nodRange (st : LivenessComputationState) (v : RangeState) :=
  {| active := active st; stageIndex := stageIndex st; progress := progress st;
     completed := completed st; lastMetrics := lastMetrics st;
     nodRange := v; shakeRange := shakeRange st;
     blinkState := blinkState st; mouthState := mouthState st |}.
Definition set_shakeRange (st : LivenessComputationState) (v : RangeState) :=
  {| active := active st; stageIndex := stageIndex st; progress := progress st;
     completed := completed st; lastMetrics := lastMetrics st;
     nodRange := nodRange st; shakeRange := v;
     blinkState := blinkState st; mouthState := mouthState st |}.
Definition set_blinkState (st : LivenessComputationState) (v : BlinkState) :=
  {| active := active st; stageIndex := stageIndex st; progress := progress st;
     completed := completed st; lastMetrics := lastMetrics st;
     nodRange := nodRange st; shakeRange := shakeRange st;
     blinkState := v; mouthState := mouthState st |}.
Definition set_mouthState (st : LivenessComputationState) (v : MouthState) :=
  {| active := active st; stageIndex := stageIndex st; progress := progress st;
     completed := completed st; lastMetrics := lastMetrics st;
     nodRange := nodRange st; shakeRange := shakeRange st;
     blinkState := blinkState st; mouthState := v |}.

(** [toCanvasPoint (landmarks[i])]: the point, or null past the end *)
Definition toCanvasPoint (point : option Point) : option Point := point.

Record FaceFrame : Type := {
  centerX : num; centerY : num; noseX : num; noseY : num;
  faceWidth : num; faceHeight : num
}.

Definition getFaceCenterAndNose (d : option DetectionWithLandmarks)
    : option FaceFrame :=
  match d with
  | None => None
  | Some d =>
      if Nat.ltb (length (landmarks d)) 98 then None
      else
        match toCanvasPoint (nth_error (landmarks d) 96),
              toCanvasPoint (nth_error (landmarks d) 97),
              toCanvasPoint (nth_error (landmarks d) 76),
              toCanvasPoint (nth_error (landmarks d) 82),
              toCanvasPoint (nth_error (landmarks d) 54) with
        | Some tl, Some tr, Some bl, Some br, Some nose =>
            let b := bbox (det d) in
            Some {| centerX := (pt_x tl + pt_x tr + pt_x bl + pt_x br) / Fin 4;
                    centerY := (pt_y tl + pt_y tr + pt_y bl + pt_y br) / Fin 4;
                    noseX := pt_x nose;
                    noseY := pt_y nose;
                    faceWidth := Num.max (Fin 1) (b_x2 b - b_x1 b);
                    faceHeight := Num.max (Fin 1) (b_y2 b - b_y1 b) |}
        | _, _, _, _, _ => None
        end
  end.

Definition computeNodRatio (d : option DetectionWithLandmarks) : option num :=
  match getFaceCenterAndNose d with
  | None => None
  | Some info => Some ((centerY info - noseY info) / faceHeight info)
  end.

Definition computeShakeRatio (d : option DetectionWithLandmarks) : option num :=
  match getFaceCenterAndNose d with
  | None => None
  | Some info => Some ((centerX info - noseX info) / faceWidth info)
  end.

Definition updateRangeState (range : RangeState) (r : option num) : RangeState :=
  match r with
  | None => range
  | Some v =>
      if negb (Num.isFinite v) then range
      else
        match rmin range, rmax range with
        | Some lo, Some hi =>
            {| rmin := Some (Num.min lo v); rmax := Some (Num.max hi v) |}
        | _, _ => {| rmin := Some v; rmax := Some v |}
        end
  end.

Definition getSpread (range : RangeState) : option num :=
  match rmin range, rmax range with
  | Some lo, Some hi => Some (hi - lo)
  | _, _ => None
  end.

Definition resetRange (range : RangeState) : RangeState := emptyRange.

Definition computeBlinkRatios (d : option DetectionWithLandmarks)
    : option BlinkRatios :=
  match d with
  | None => None
  | Some d =>
      match toCanvasPoint (nth_error (landmarks d) 66),
            toCanvasPoint (nth_error (landmarks d) 62),
            toCanvasPoint (nth_error (landmarks d) 64),
            toCanvasPoint (nth_error (landmarks d) 60),
            toCanvasPoint (nth_error (landmarks d) 74),
            toCanvasPoint (nth_error (landmarks d) 70),
            toCanvasPoint (nth_error (landmarks d) 72),
            toCanvasPoint (nth_error (landmarks d) 68) with
      | Some upperLeft, Some lowerLeft, Some outerLeft, Some innerLeft,
        Some upperRight, Some lowerRight, Some outerRight, Some innerRight =>
          let lh := Num.abs (pt_y upperLeft - pt_y lowerLeft) in
          let rh := Num.abs (pt_y upperRight - pt_y lowerRight) in
          let lw := Num.abs (pt_x outerLeft - pt_x innerLeft) in
          let rw := Num.abs (pt_x outerRight - pt_x innerRight) in
          let lr := if lh === Fin 0 then PInf else lw / lh in
          let rr := if rh === Fin 0 then PInf else rw / rh in
          Some {| leftHeight := lh; rightHeight := rh;
                  leftRatio := lr; rightRatio := rr;
                  ratio := Num.min lr rr |}
      | _, _, _, _, _, _, _, _ => None
      end
  end.

(** [Number.isFinite (x ?? NaN)] *)
Definition finite_or_null (x : option num) : bool :=
  match x with
  | Some v => Num.isFinite v
  | None => false
  end.

Definition updateBlinkAverage (r : option num) (st : LivenessComputationState)
    : LivenessComputationState :=
  match r with
  | None => st
  | Some r =>
      if negb (Num.isFinite r) then st
      else
        let b := blinkState st in
        if negb (finite_or_null (eyeAvg b)) then
          set_blinkState st
            {| blinkClosedDetected := blinkClosedDetected b;
               blinkOpenDetected := blinkOpenDetected b;
               eyeAvg := Some r |}
        else if (r <? BLINK_THRESHOLD_LOW) || (r >? BLINK_THRESHOLD_HIGH) then st
        else
          match eyeAvg b with
          | Some avg =>
              set_blinkState st
                {| blinkClosedDetected := blinkClosedDetected b;
                   blinkOpenDetected := blinkOpenDetected b;
                   eyeAvg := Some (r * BLINK_AVG_CURRENT + avg * BLINK_AVG_PREVIOUS) |}
          | None => st
          end
  end.

(** The two observations of [updateBlinkState] for one frame
    ([typeof metrics.ratio === 'number'] holds of every ratio) *)
Definition blinkClosedNow (m : BlinkRatios) (threshold : num) : bool :=
  (leftHeight m === Fin 0) || (rightHeight m === Fin 0) ||
  ((leftRatio m >? threshold) && (rightRatio m >? threshold)).

Definition blinkOpenNow (m : BlinkRatios) (threshold : num) : bool :=
  (leftHeight m >? Fin 0) && (rightHeight m >? Fin 0) &&
  (leftRatio m <? threshold) && (rightRatio m <? threshold).

Definition updateBlinkState (metrics : option BlinkRatios)
    (st : LivenessComputationState) : LivenessComputationState :=
  match metrics with
  | None => st
  | Some m =>
      let b := blinkState st in
      let avg :=
        if negb (finite_or_null (eyeAvg b)) then Some INITIAL_BLINK_AVG
        else eyeAvg b in
      let threshold := match avg with Some t => t | None => NaN end in
      let closedDetected := blinkClosedNow m threshold in
      let openDetected := blinkOpenNow m threshold in
      let st1 :=
        set_blinkState st
          {| blinkClosedDetected :=
               if closedDetected then true else blinkClosedDetected b;
             blinkOpenDetected :=
               if openDetected then true else blinkOpenDetected b;
             eyeAvg := avg |} in
      updateBlinkAverage (Some (ratio m)) st1
  end.

Definition resetBlinkDetections (st : LivenessComputationState)
    (resetAverage : bool) : LivenessComputationState :=
  set_blinkState st
    {| blinkClosedDetected := false;
       blinkOpenDetected := false;
       eyeAvg := if resetAverage then Some INITIAL_BLINK_AVG
                 else eyeAvg (blinkState st) |}.

Definition computeMouthRatio (d : option DetectionWithLandmarks) : option num :=
  match d with
  | None => None
  | Some d =>
      match toCanvasPoint (nth_error (landmarks d) 90),
            toCanvasPoint (nth_error (landmarks d) 94),
            toCanvasPoint (nth_error (landmarks d) 88),
            toCanvasPoint (nth_error (landmarks d) 92) with
      | Some upper, Some lower, Some mleft, Some mright =>
          let width := Num.abs (pt_x mright - pt_x mleft) in
          if width === Fin 0 then None
          else
            let height := Num.abs (pt_y lower - pt_y upper) in
            Some (height / width)
      | _, _, _, _ => None
      end
  end.

Definition updateMouthState (r : option num) (st : LivenessComputationState)
    : LivenessComputationState :=
  match r with
  | None => st
  | Some r =>
      if negb (Num.isFinite r) then st
      else if r >? mouthThreshold then
        set_mouthState st
          {| mouthOpenDetected := true;
             mouthClosedDetected := mouthClosedDetected (mouthState st) |}
      else
        set_mouthState st
          {| mouthOpenDetected := mouthOpenDetected (mouthState st);
             mouthClosedDetected := true |}
  end.

Definition resetMouthState (st : LivenessComputationState)
    : LivenessComputationState :=
  set_mouthState st {| mouthOpenDetected := false; mouthClosedDetected := false |}.

Definition toPoseDegrees (M : JsMath) (p : option Pose) : option Pose :=
  match p with
  | None => None
  | Some p =>
      let radToDeg := Fin 180 / Math_PI M in
      Some {| yaw := yaw p * radToDeg;
              pitch := pitch p * radToDeg;
              roll := roll p * radToDeg |}
  end.

Definition sq (x : num) : num := x * x.

Definition computePoseScore (M : JsMath) (p : option Pose) : option num :=
  match p with
  | None => None
  | Some p =>
      let dist :=
        Math_sqrt M (sq (yaw p * POSE_WEIGHT_YAW) +
                     sq (pitch p * POSE_WEIGHT_PITCH) +
                     sq (roll p * POSE_WEIGHT_ROLL)) in
      let s :=
        Fin 100 * Math_exp M (Num.neg (sq dist) / (Fin 2 * sq POSE_SCORE_SIGMA)) in
      let rounded := Num.round (s * Fin 100) / Fin 100 in
      Some (Num.max (Fin 0) (Num.min (Fin 100) rounded))
  end.

(** [LivenessStageDefinition]; label and prompt are display text. *)
Record LivenessStageDefinition : Type := {
  key : LivenessStageKey;
  check : LivenessMetrics -> LivenessComputationState -> bool
}.

Definition LIVENESS_STAGES : list LivenessStageDefinition := [
  {| key := nod;
     check := fun metrics _ =>
       match nodSpread metrics with
       | Some v => v >=? nodPitch
       | None => false
       end |};
  {| key := shake;
     check := fun metrics _ =>
       match shakeSpread metrics with
       | Some v => v >=? shakeYaw
       | None => false
       end |};
  {| key := blink;
     check := fun _ st =>
       blinkClosedDetected (blinkState st) && blinkOpenDetected (blinkState st) |};
  {| key := mouth;
     check := fun _ st =>
       mouthClosedDetected (mouthState st) && mouthOpenDetected (mouthState st) |}
].

Record StageStatus : Type := {
  total : nat;
  statusStageIndex : nat;
  currentStage : option LivenessStageKey;
  statusCompleted : bool;
  justCompletedStage : option LivenessStageKey;
  justCompletedIndex : option nat
}.

Record ProcessFrameResult : Type := {
  detection : option DetectionWithLandmarks;
  metrics : option LivenessMetrics;
  stage : StageStatus;
  multiFaceDetected : bool
}.

Definition getCurrentStage (st : LivenessComputationState)
    : option LivenessStageDefinition :=
  nth_error LIVENESS_STAGES (stageIndex st).

Definition buildStageStatus (st : LivenessComputationState)
    (extra : option (LivenessStageDefinition * nat)) : StageStatus :=
  {| total := length LIVENESS_STAGES;
     statusStageIndex := Nat.min (stageIndex st) (length LIVENESS_STAGES - 1);
     currentStage := option_map key (getCurrentStage st);
     statusCompleted := completed st;
     justCompletedStage := option_map (fun e => key (fst e)) extra;
     justCompletedIndex := option_map snd extra |}.

Definition evaluateStage (st : LivenessComputationState)
    (m : LivenessMetrics) : LivenessComputationState * StageStatus :=
  match nth_error LIVENESS_STAGES (stageIndex st) with
  | None =>
      let st := set_active (set_completed st true) false in
      (st, buildStageStatus st None)
  | Some stg =>
      if negb (check stg m st) then (st, buildStageStatus st None)
      else
        let completedIndex := stageIndex st in
        let st := set_stageIndex st (stageIndex st + 1) in
        let st :=
          set_progress st
            (Num.of_nat (stageIndex st) / Num.of_nat (length LIVENESS_STAGES)) in
        let st :=
          match key stg with
          | blink => resetBlinkDetections st false
          | mouth => resetMouthState st
          | nod => set_nodRange st (resetRange (nodRange st))
          | shake => set_shakeRange st (resetRange (shakeRange st))
          end in
        let st :=
          if Nat.leb (length LIVENESS_STAGES) (stageIndex st)
          then set_active (set_completed st true) false
          else st in
        (st, buildStageStatus st (Some (stg, completedIndex)))
  end.

(** The part of [processFrame] that follows the two inference calls, for
    the single detection [d] with its landmarks.  First the running state
    is updated from this frame and the metrics are derived ... *)
Definition observeFrame (M : JsMath) (st : LivenessComputationState)
    (d : DetectionWithLandmarks)
    : LivenessComputationState * LivenessMetrics :=
  let nodRatio_ := computeNodRatio (Some d) in
  let shakeRatio_ := computeShakeRatio (Some d) in
  let st := set_nodRange st (updateRangeState (nodRange st) nodRatio_) in
  let st := set_shakeRange st (updateRangeState (shakeRange st) shakeRatio_) in
  let nodSpread_ := getSpread (nodRange st) in
  let shakeSpread_ := getSpread (shakeRange st) in
  let blinkMetrics_ := computeBlinkRatios (Some d) in
  let st := updateBlinkState blinkMetrics_ st in
  let mouthRatio_ := computeMouthRatio (Some d) in
  let st := updateMouthState mouthRatio_ st in
  let poseDegrees_ := toPoseDegrees M (pose d) in
  let frontalScore_ :=
    match poseDegrees_ with
    | Some _ => computePoseScore M poseDegrees_
    | None => None
    end in
  let m := {| nodRatio := nodRatio_; nodSpread := nodSpread_;
              shakeRatio := shakeRatio_; shakeSpread := shakeSpread_;
              blinkMetrics := blinkMetrics_; mouthRatio := mouthRatio_;
              m_pose := pose d; poseDegrees := poseDegrees_;
              frontalScore := frontalScore_ |} in
  (set_lastMetrics st (Some m), m).

(** ... then the current stage is evaluated on them. *)
Definition acceptFrame (M : JsMath) (st : LivenessComputationState)
    (d : DetectionWithLandmarks)
    : LivenessComputationState * ProcessFrameResult :=
  let '(st, m) := observeFrame M st d in
  let '(st, stageStatus) := evaluateStage st m in
  (st, {| detection := Some d; metrics := Some m; stage := stageStatus;
          multiFaceDetected := false |}).

(** What [LandmarkEstimator.estimate] returns when it does not return null *)
Record Estimate : Type := {
  est_landmarks : list Point;
  est_pose : option Pose
}.

(** [class LandmarkEstimator]: its session stands for the crop, the
    inference call, the choice of output tensors and the reprojection. *)
Record LandmarkSession : Type := {
  lmInputNames : list string;
  lmRun : InputElement -> BBox -> external (option Estimate)
}.

Record LandmarkEstimator : Type := {
  lmSession : option LandmarkSession;
  lmInputName : option string
}.

Definition lmLoadModel (s : LandmarkSession) : LandmarkEstimator :=
  {| lmSession := Some s; lmInputName := hd_error (lmInputNames s) |}.

Definition lmIsReady (l : LandmarkEstimator) : bool :=
  match lmSession l with Some _ => true | None => false end.

Definition estimate (l : LandmarkEstimator) (element : InputElement)
    (b : BBox) : result (option Estimate) :=
  match lmSession l with
  | Some s =>
      if SCRFD.truthy_name (lmInputName l) then
        if Nat.eqb (el_width element) 0 || Nat.eqb (el_height element) 0
        then Err InvalidInputSize
        else await (lmRun s element b)
      else Err LandmarkModelNotLoaded
  | None => Err LandmarkModelNotLoaded
  end.

(** What the engine is constructed over: the outcome of fetching and
    creating each model session, the keypoint stage of the detector and the
    transcendental functions. *)
Record Environment : Type := {
  detectorModel : external InferenceSession;
  landmarkModel : external LandmarkSession;
  kpsStage : SCRFD.KpsStage;
  jsMath : JsMath
}.

(** [class LivenessEngine] *)
Record Engine : Type := {
  detector : SCRFD.Detector;
  landmarkEstimator : LandmarkEstimator;
  state : LivenessComputationState;
  detectionThreshold : num;
  modelsLoaded : bool
}.

Definition createEngine (threshold : option num) : Engine := {|
  detector := SCRFD.create;
  landmarkEstimator := {| lmSession := None; lmInputName := None |};
  state := createLivenessComputationState;
  detectionThreshold := match threshold with Some t => t | None => Fin 0.5 end;
  modelsLoaded := false
|}.

Definition set_state (e : Engine) (st : LivenessComputationState) : Engine :=
  {| detector := detector e; landmarkEstimator := landmarkEstimator e;
     state := st; detectionThreshold := detectionThreshold e;
     modelsLoaded := modelsLoaded e |}.

Definition set_detector (e : Engine) (d : SCRFD.Detector) : Engine :=
  {| detector := d; landmarkEstimator := landmarkEstimator e;
     state := state e; detectionThreshold := detectionThreshold e;
     modelsLoaded := modelsLoaded e |}.

(** A call of an engine method: the engine it leaves behind, and either
    the value returned or the error thrown. *)
Definition Call (A : Type) : Type := Engine * result A.

(** [warmup]: a no-op once both models are loaded; a failed load throws
    and leaves [modelsLoaded] false. *)
Definition warmup (env : Environment) (e : Engine) : Call unit :=
  if modelsLoaded e then (e, Ok tt)
  else
    match await (detectorModel env) with
    | Err err => (e, Err err)
    | Ok s =>
        let e := set_detector e (SCRFD.loadModel (detector e) s) in
        match await (landmarkModel env) with
        | Err err => (e, Err err)
        | Ok ls =>
            ({| detector := detector e;
                landmarkEstimator := lmLoadModel ls;
                state := state e;
                detectionThreshold := detectionThreshold e;
                modelsLoaded := true |}, Ok tt)
        end
    end.

Definition startSession (e : Engine) : Engine :=
  let st := set_active createLivenessComputationState true in
  let st := resetBlinkDetections st true in
  let st := resetMouthState st in
  let st := set_nodRange st (resetRange (nodRange st)) in
  let st := set_shakeRange st (resetRange (shakeRange st)) in
  set_state e st.

Definition stopSession (e : Engine) : Engine :=
  set_state e (set_active (state e) false).

Definition isReady (e : Engine) : bool :=
  modelsLoaded e && SCRFD.isReady (detector e) && lmIsReady (landmarkEstimator e).

Definition noFaceResult (st : LivenessComputationState) (multi : bool)
    : ProcessFrameResult :=
  {| detection := None; metrics := None;
     stage := buildStageStatus st None; multiFaceDetected := multi |}.

Definition processFrame (env : Environment) (e : Engine)
    (element : InputElement) : Call ProcessFrameResult :=
  if negb (active (state e)) then (e, Ok (noFaceResult (state e) false))
  else
    match warmup env e with
    | (e, Err err) => (e, Err err)
    | (e, Ok _) =>
        match SCRFD.detectFromElement (detector e) (kpsStage env) element
                (detectionThreshold e) with
        | Err err => (e, Err err)
        | Ok (d', detections) =>
            let e := set_detector e d' in
            match detections with
            | [] =>
                let e := set_state e (set_lastMetrics (state e) None) in
                (e, Ok (noFaceResult (state e) false))
            | primary :: [] =>
                match estimate (landmarkEstimator e) element (bbox primary) with
                | Err err => (e, Err err)
                | Ok None =>
                    let e := set_state e (set_lastMetrics (state e) None) in
                    (e, Ok (noFaceResult (state e) false))
                | Ok (Some est) =>
                    let d := {| det := primary;
                                landmarks := est_landmarks est;
                                pose := est_pose est |} in
                    let '(st, r) := acceptFrame (jsMath env) (state e) d in
                    (set_state e st, Ok r)
                end
            | _ :: _ :: _ =>
                let e := set_state e (set_lastMetrics (state e) None) in
                (e, Ok (noFaceResult (state e) true))
            end
        end
    end.

End Liveness.

(** ** Best-frame selection and quality score ([FaceLiveness.tsx]) *)

Module FaceLiveness.

Import Liveness.

(** The component's state and refs that hold the best frame and its
    scores. *)
Record QualityState : Type := {
  multiFaceWarning : bool;
  keyFrameImage : option string;
  qualityScore : option num;
  brightnessScore : option num;
  brightnessStatus : option string;
  frontalFaceScore : option num;
  clarityScore : option num;
  uniformLightingScore : option num;
  backgroundUniformityScore : option num;
  pixelResolutionScore : option num;
  keyFrameScoreRef : num;
  keyFrameOriginalRef : option string;
  keyFrameFullRef : option string
}.

(** Initial values of [useState] and [useRef] *)
Definition initialQuality : QualityState := {|
  multiFaceWarning := false;
  keyFrameImage := None;
  qualityScore := None;
  brightnessScore := None;
  brightnessStatus := None;
  frontalFaceScore := None;
  clarityScore := None;
  uniformLightingScore := None;
  backgroundUniformityScore := None;
  pixelResolutionScore := None;
  keyFrameScoreRef := NInf;
  keyFrameOriginalRef := None;
  keyFrameFullRef := None
|}.

(** The canvas-backed captures and scorers, evaluated on the video frame
    that is current when [handleLivenessResult] runs. *)
Record Camera : Type := {
  captureKeyFrame : BBox -> option string;       (* [{ preview }], or null *)
  captureUploadFrame : BBox -> option string;
  captureFullFrame : option string;
  computeBrightnessScore : BBox -> option (num * string);
  estimateBlurScore : BBox -> option num;
  detectUniformLighting : BBox -> option num;
  analyzeBackgroundUniformity : BBox -> option num;
  evaluatePixelResolution : option (list Point) -> option num
}.

(** Truthiness of a captured data URL *)
Definition truthy (s : option string) : bool :=
  match s with
  | Some EmptyString | None => false
  | Some _ => true
  end.

Definition or_else {A : Type} (new old : option A) : option A :=
  match new with Some _ => new | None => old end.

(** [handleLivenessResult], up to the point where it turns to stage timers
    and evidence capture: the bookkeeping of the best frame. *)
Definition handleLivenessResult (cam : Camera) (isMobileHandoff : bool)
    (q : QualityState) (r : ProcessFrameResult) : QualityState :=
  let frontal := match metrics r with Some m => frontalScore m | None => None end in
  let q1 := {|
    multiFaceWarning := multiFaceDetected r;
    keyFrameImage := keyFrameImage q;
    qualityScore := qualityScore q;
    brightnessScore := brightnessScore q;
    brightnessStatus := brightnessStatus q;
    frontalFaceScore := or_else frontal (frontalFaceScore q);
    clarityScore := clarityScore q;
    uniformLightingScore := uniformLightingScore q;
    backgroundUniformityScore := backgroundUniformityScore q;
    pixelResolutionScore := pixelResolutionScore q;
    keyFrameScoreRef := keyFrameScoreRef q;
    keyFrameOriginalRef := keyFrameOriginalRef q;
    keyFrameFullRef := keyFrameFullRef q |} in
  match isMobileHandoff, detection r, frontal with
  | false, Some d, Some poseScore =>
      if poseScore >? keyFrameScoreRef q1 then
        let b := bbox (det d) in
        let frame := captureKeyFrame cam b in
        let uploadFrame := captureUploadFrame cam b in
        let fullFrame := captureFullFrame cam in
        let brightness := computeBrightnessScore cam b in
        let clarity := estimateBlurScore cam b in
        let uniformLighting := detectUniformLighting cam b in
        let backgroundUniformity := analyzeBackgroundUniformity cam b in
        let pixelResolution := evaluatePixelResolution cam (kps (det d)) in
        let stored :=
          match frame with Some _ => true | None => false end
          && truthy uploadFrame && truthy fullFrame in
        {| multiFaceWarning := multiFaceWarning q1;
           keyFrameImage := if stored then fullFrame else keyFrameImage q1;
           qualityScore := qualityScore q1;
           brightnessScore := or_else (option_map fst brightness) (brightnessScore q1);
           brightnessStatus := or_else (option_map snd brightness) (brightnessStatus q1);
           frontalFaceScore := frontalFaceScore q1;
           clarityScore := or_else clarity (clarityScore q1);
           uniformLightingScore := or_else uniformLighting (uniformLightingScore q1);
           backgroundUniformityScore :=
             or_else backgroundUniformity (backgroundUniformityScore q1);
           pixelResolutionScore := or_else pixelResolution (pixelResolutionScore q1);
           keyFrameScoreRef := if stored then poseScore else keyFrameScoreRef q1;
           keyFrameOriginalRef := if stored then uploadFrame else keyFrameOriginalRef q1;
           keyFrameFullRef := if stored then fullFrame else keyFrameFullRef q1 |}
      else q1
  | _, _, _ => q1
  end.

(** The values averaged by the quality effect, in the order of its array *)
Definition qualityValues (q : QualityState) : list (option num) :=
  [ brightnessScore q; frontalFaceScore q; clarityScore q;
    uniformLightingScore q; backgroundUniformityScore q;
    pixelResolutionScore q ].

Definition all_numbers (l : list (option num)) : option (list num) :=
  fold_right (fun o acc =>
    match o, acc with
    | Some v, Some vs => Some (v :: vs)
    | _, _ => None
    end) (Some []) l.

Definition sum (l : list num) : num :=
  fold_left Num.add l (Fin 0).

(** The effect that maintains [qualityScore]: it returns without setting
    anything while one of the values is not a number.  Sum, division and
    [Math.round] are exact here; the source adds and divides in binary64,
    which can move a mean that lies at a rounding tie to the neighbouring
    hundredth, so the statements about the aggregate bound it rather than
    fix its last digit. *)
Definition qualityEffect (q : QualityState) : QualityState :=
  match all_numbers (qualityValues q) with
  | None => q
  | Some values =>
      let avg := sum values / Num.of_nat (length (qualityValues q)) in
      {| multiFaceWarning := multiFaceWarning q;
         keyFrameImage := keyFrameImage q;
         qualityScore := Some (Num.round (avg * Fin 100) / Fin 100);
         brightnessScore := brightnessScore q;
         brightnessStatus := brightnessStatus q;
         frontalFaceScore := frontalFaceScore q;
         clarityScore := clarityScore q;
         uniformLightingScore := uniformLightingScore q;
         backgroundUniformityScore := backgroundUniformityScore q;
         pixelResolutionScore := pixelResolutionScore q;
         keyFrameScoreRef := keyFrameScoreRef q;
         keyFrameOriginalRef := keyFrameOriginalRef q;
         keyFrameFullRef := keyFrameFullRef q |}
  end.

End FaceLiveness.

(** ** The detector: what the statements speak of *)

Module DetectorDefs.
Import SCRFD.

(** The model declares an input: [inputNames[0]] is a non-empty string. *)
Definition namedInput (s : InferenceSession) : Prop :=
  truthy_name (hd_error (inputNames s)) = true.

(** No decoded score of this inference result reaches the threshold. *)
Definition belowThreshold (d : Detector) (outputs : OnnxValueMap)
    (threshold : num) : Prop :=
  forall idx i, (idx < fmc d)%nat -> (i < strideK d idx)%nat ->
    (Num.get (strideScores d (map outputs (outputNames d)) idx) i >=? threshold)
    = false.

(** The anchors that [postprocess] selects, in the order in which their
    scores and boxes are concatenated: pairs of a stride index and an
    anchor index *)
Definition selectedAmong (d : Detector) (netOuts : list (option Tensor))
    (threshold : num) (idxs : list nat) : list (nat * nat) :=
  flat_map (fun idx => map (pair idx) (stridePos d netOuts threshold idx)) idxs.

Definition selectedAnchors (d : Detector) (netOuts : list (option Tensor))
    (threshold : num) : list (nat * nat) :=
  selectedAmong d netOuts threshold (seq 0 (fmc d)).

(** The four decoded coordinates that [postprocess] copies for an anchor *)
Definition anchorRow (d : Detector) (netOuts : list (option Tensor))
    (p : nat * nat) : list num :=
  boxRow (strideDecodedBboxes d netOuts (fst p)) (snd p).

Definition anchorScore (d : Detector) (netOuts : list (option Tensor))
    (p : nat * nat) : num :=
  Num.get (strideScores d netOuts (fst p)) (snd p).

(** The box of an anchor: its centre moved by the four stride-scaled
    distances of the network, divided by the letterbox scale *)
Definition anchorBox (d : Detector) (netOuts : list (option Tensor))
    (scale : num) (p : nat * nat) : BBox :=
  let centers := strideCenters d (fst p) in
  let distance := strideBboxPreds d netOuts (fst p) in
  let px := Num.get centers (snd p * 2) in
  let py := Num.get centers (snd p * 2 + 1) in
  let left := Num.get distance (snd p * 4) in
  let top := Num.get distance (snd p * 4 + 1) in
  let right := Num.get distance (snd p * 4 + 2) in
  let bottom := Num.get distance (snd p * 4 + 3) in
  {| b_x1 := (px - left) / scale; b_y1 := (py - top) / scale;
     b_x2 := (px + right) / scale; b_y2 := (py + bottom) / scale |}.

Definition boxAndScore (c : Detection) : BBox * num := (bbox c, score c).

End DetectorDefs.

(** ** Sessions as sequences of calls *)

Module Session.

Import Liveness.

Definition frameStep (env : Environment) (e : Engine) (element : InputElement)
    : Engine := fst (processFrame env e element).

Definition frameResult (env : Environment) (e : Engine)
    (element : InputElement) : result ProcessFrameResult :=
  snd (processFrame env e element).

(** The engine after a sequence of [processFrame] calls, each issued once
    the previous one has settled (returned or thrown). *)
Definition runFrames (env : Environment) (e : Engine)
    (elements : list InputElement) : Engine :=
  fold_left (frameStep env) elements e.

(** A frame is accepted when its result carries a detection. *)
Definition acceptedDetection (res : result ProcessFrameResult)
    : option DetectionWithLandmarks :=
  match res with
  | Ok r => detection r
  | Err _ => None
  end.

(** The accepted frames of a run, each with the session state it met. *)
Fixpoint acceptedTrace (env : Environment) (e : Engine)
    (elements : list InputElement)
    : list (LivenessComputationState * DetectionWithLandmarks) :=
  match elements with
  | [] => []
  | element :: rest =>
      let tail := acceptedTrace env (frameStep env e element) rest in
      match acceptedDetection (frameResult env e element) with
      | Some d => (state e, d) :: tail
      | None => tail
      end
  end.

Definition acceptedFrames (env : Environment) (e : Engine)
    (elements : list InputElement) : list DetectionWithLandmarks :=
  map snd (acceptedTrace env e elements).

(** The predicate of the stage that is current in [st] *)
Definition currentPredicate (st : LivenessComputationState)
    (m : LivenessMetrics) : bool :=
  match nth_error LIVENESS_STAGES (stageIndex st) with
  | Some stg => check stg m st
  | None => false
  end.

(** The predicate of the stage with a given key *)
Definition stagePredicate (k : LivenessStageKey)
    : LivenessMetrics -> LivenessComputationState -> bool :=
  match k with
  | nod => check (nth 0 LIVENESS_STAGES (Build_LivenessStageDefinition nod (fun _ _ => false)))
  | shake => check (nth 1 LIVENESS_STAGES (Build_LivenessStageDefinition nod (fun _ _ => false)))
  | blink => check (nth 2 LIVENESS_STAGES (Build_LivenessStageDefinition nod (fun _ _ => false)))
  | mouth => check (nth 3 LIVENESS_STAGES (Build_LivenessStageDefinition nod (fun _ _ => false)))
  end.

(** The state of the stage machine proper: everything but the
    diagnostic [lastMetrics]. *)
Record Machine : Type := {
  mActive : bool;
  mStageIndex : nat;
  mProgress : num;
  mCompleted : bool;
  mNodRange : RangeState;
  mShakeRange : RangeState;
  mBlink : BlinkState;
  mMouth : MouthState
}.

Definition machine (st : LivenessComputationState) : Machine := {|
  mActive := active st;
  mStageIndex := stageIndex st;
  mProgress := progress st;
  mCompleted := completed st;
  mNodRange := nodRange st;
  mShakeRange := shakeRange st;
  mBlink := blinkState st;
  mMouth := mouthState st
|}.

(** The blink threshold that [updateBlinkState] uses in state [st] *)
Definition blinkThreshold (st : LivenessComputationState) : num :=
  match eyeAvg (blinkState st) with
  | Some t => if Num.isFinite t then t else INITIAL_BLINK_AVG
  | None => INITIAL_BLINK_AVG
  end.

(** A frame is a closed-eye observation when [updateBlinkState] computes
    [closedDetected] for it, and a closed-mouth observation when
    [updateMouthState] takes its else branch. *)
Definition blinkClosedObserved (st : LivenessComputationState)
    (d : DetectionWithLandmarks) : bool :=
  match computeBlinkRatios (Some d) with
  | Some m => blinkClosedNow m (blinkThreshold st)
  | None => false
  end.

Definition mouthClosedObserved (d : DetectionWithLandmarks) : bool :=
  match computeMouthRatio (Some d) with
  | Some r => Num.isFinite r && negb (Num.gtb r mouthThreshold)
  | None => false
  end.

(** Likewise a frame is an open-eye observation when [updateBlinkState]
    computes [openDetected] for it, and an open-mouth observation when
    [updateMouthState] takes its [ratio > threshold] branch. *)
Definition blinkOpenObserved (st : LivenessComputationState)
    (d : DetectionWithLandmarks) : bool :=
  match computeBlinkRatios (Some d) with
  | Some m => blinkOpenNow m (blinkThreshold st)
  | None => false
  end.

Definition mouthOpenObserved (d : DetectionWithLandmarks) : bool :=
  match computeMouthRatio (Some d) with
  | Some r => Num.isFinite r && Num.gtb r mouthThreshold
  | None => false
  end.

(** The blink and mouth updates read and write their own record only:
    the update as a function of that record. *)
Definition blinkNext (bm : option BlinkRatios) (b : BlinkState) : BlinkState :=
  blinkState (updateBlinkState bm (set_blinkState createLivenessComputationState b)).

Definition mouthNext (r : option num) (ms : MouthState) : MouthState :=
  mouthState (updateMouthState r (set_mouthState createLivenessComputationState ms)).

(** The evidence of each stage as a function of the frames alone *)
Definition nodEvidence (ds : list DetectionWithLandmarks) : RangeState :=
  fold_left (fun rg d => updateRangeState rg (computeNodRatio (Some d)))
            ds emptyRange.

Definition shakeEvidence (ds : list DetectionWithLandmarks) : RangeState :=
  fold_left (fun rg d => updateRangeState rg (computeShakeRatio (Some d)))
            ds emptyRange.

Definition blinkEvidence (ds : list DetectionWithLandmarks) : BlinkState :=
  fold_left (fun b d => blinkNext (computeBlinkRatios (Some d)) b)
            ds (blinkState createLivenessComputationState).

Definition mouthEvidence (ds : list DetectionWithLandmarks) : MouthState :=
  fold_left (fun ms d => mouthNext (computeMouthRatio (Some d)) ms)
            ds (mouthState createLivenessComputationState).

(** What the four evidence records hold, in terms of the frames accepted
    since the session started: each one is the fold of its update over all
    of them, for as long as its stage has not completed. *)
Definition stagePosition (k : LivenessStageKey) : nat :=
  match k with nod => 0 | shake => 1 | blink => 2 | mouth => 3 end.

Definition tracks (st : LivenessComputationState)
    (ds : list DetectionWithLandmarks) : Prop :=
  (stageIndex st = 0%nat -> nodRange st = nodEvidence ds) /\
  ((stageIndex st <= 1)%nat -> shakeRange st = shakeEvidence ds) /\
  ((stageIndex st <= 2)%nat -> blinkState st = blinkEvidence ds) /\
  ((stageIndex st <= 3)%nat -> mouthState st = mouthEvidence ds).

(** [evaluateStage st m] completes the stage with key [k] *)
Definition completes (st : LivenessComputationState) (m : LivenessMetrics)
    (k : LivenessStageKey) : bool :=
  currentPredicate st m &&
  match nth_error LIVENESS_STAGES (stageIndex st) with
  | Some stg =>
      match key stg, k with
      | nod, nod | shake, shake | blink, blink | mouth, mouth => true
      | _, _ => false
      end
  | None => false
  end.

(** The stage predicate as [processFrame] evaluates it on an accepted
    frame: on the state and metrics that [observeFrame] produces. *)
Definition predicateAt (M : JsMath) (k : LivenessStageKey)
    (p : LivenessComputationState * DetectionWithLandmarks) : bool :=
  stagePredicate k (snd (observeFrame M (fst p) (snd p)))
                   (fst (observeFrame M (fst p) (snd p))).

(** The running state that the current stage's predicate consults is in
    its freshly-reset condition (nod is current from the start of the
    session, and nothing is consulted once the session is complete). *)
Definition freshEvidence (st : LivenessComputationState) : Prop :=
  match stageIndex st with
  | 1%nat => shakeRange st = emptyRange
  | 2%nat => blinkClosedDetected (blinkState st) = false /\
             blinkOpenDetected (blinkState st) = false
  | 3%nat => mouthOpenDetected (mouthState st) = false /\
             mouthClosedDetected (mouthState st) = false
  | _ => True
  end.

(** The band of the adaptive blink threshold *)
Definition inBand (o : option num) : Prop :=
  exists q : Q, o = Some (Fin q) /\ (5 <= q <= 20)%Q.

(** What a call of [processFrame] does to the session state: either the
    frame is not accepted and the machine is untouched, or it is accepted
    with detection [d] and the state is the one [acceptFrame] computes. *)
Inductive FrameCase (env : Environment) (e : Engine) (element : InputElement) : Prop :=
| FrameSkipped :
    acceptedDetection (frameResult env e element) = None ->
    (forall r, frameResult env e element = Ok r ->
       exists multi, r = noFaceResult (state (frameStep env e element)) multi) ->
    machine (state (frameStep env e element)) = machine (state e) ->
    FrameCase env e element
| FrameAccepted (d : DetectionWithLandmarks) :
    active (state e) = true ->
    frameResult env e element = Ok (snd (acceptFrame (jsMath env) (state e) d)) ->
    acceptedDetection (frameResult env e element) = Some d ->
    state (frameStep env e element) = fst (acceptFrame (jsMath env) (state e) d) ->
    FrameCase env e element.

(** Calls of the engine's methods, in any order *)
Inductive ApiCall : Type :=
| CallProcessFrame (element : InputElement)
| CallStartSession
| CallStopSession.

Definition call (env : Environment) (e : Engine) (c : ApiCall) : Engine :=
  match c with
  | CallProcessFrame element => frameStep env e element
  | CallStartSession => startSession e
  | CallStopSession => stopSession e
  end.

Definition runCalls (env : Environment) (e : Engine) (cs : list ApiCall)
    : Engine :=
  fold_left (call env) cs e.

End Session.

(** ** A small concrete installation

    A detector model with an 8 x 8 input and six outputs (two anchors on
    the single stride-8 cell, no keypoints), a landmark model, and frames
    of 16 x 16 pixels whose content number selects what the two models
    answer.  All coordinates are dyadic. *)

Module Scenario.

Import Liveness.

Definition outputNames6 : list string :=
  ["score8"; "score16"; "score32"; "bbox8"; "bbox16"; "bbox32"]%string.

(** Scores and box distances of the two anchors for each frame content:
    0: nothing above the threshold; 1 to 5: one face whose box decodes to
    (-4, -4, 4, 4); 6: two faces far apart; 7: one candidate whose four
    distances are zero; 8: one candidate whose four distances are
    negative. *)
Definition detectorOutputs (content : nat) : OnnxValueMap :=
  fun name =>
    let scores : list num :=
      match content with
      | 0%nat => [Fin 0.25; Fin 0.125]
      | 6%nat => [Fin 0.875; Fin 0.75]
      | _ => [Fin 0.875; Fin 0.125]
      end in
    let far : list num := [Fin (-5); Fin (-5); Fin 6; Fin 6] in
    let near : list num := [Fin 0.5; Fin 0.5; Fin 0.5; Fin 0.5] in
    let none : list num := [Fin 0; Fin 0; Fin 0; Fin 0] in
    let inward : list num :=
      [Fin (-0.25); Fin (-0.25); Fin (-0.25); Fin (-0.25)] in
    let boxes : list num :=
      match content with
      | 6%nat => near ++ far
      | 7%nat => none ++ none
      | 8%nat => inward ++ none
      | _ => near ++ none
      end in
    if String.eqb name "score8" then Some scores
    else if String.eqb name "bbox8" then Some boxes
    else if String.eqb name "score16" then Some []
    else if String.eqb name "bbox16" then Some []
    else if String.eqb name "score32" then Some []
    else if String.eqb name "bbox32" then Some []
    else None.

Definition detectorSession : InferenceSession := {|
  inputNames := ["input"%string];
  sessOutputNames := outputNames6;
  inputDimensions := Some [Some 1; Some 3; Some 8; Some 8]%nat;
  firstOutputRank := 2;
  run := fun element => Resolved (detectorOutputs (el_content element))
|}.

(** The landmark layout: the face quadrilateral is centred on the origin,
    the eyes are 4 wide and the mouth 4 wide; the nose, the eyelid gap and
    the lip gap vary. *)
Definition pointAt (nose : Point) (eyeGap lipGap : num) (i : nat) : Point :=
  let P (x y : num) := {| pt_x := x; pt_y := y |} in
  match i with
  | 96%nat => P (Fin (-4)) (Fin 4)
  | 97%nat => P (Fin 4) (Fin 4)
  | 76%nat => P (Fin (-4)) (Fin (-4))
  | 82%nat => P (Fin 4) (Fin (-4))
  | 54%nat => nose
  | 66%nat | 74%nat => P (Fin 0) eyeGap        (* upper lids *)
  | 62%nat | 70%nat => P (Fin 0) (Fin 0)       (* lower lids *)
  | 64%nat | 72%nat => P (Fin 4) (Fin 0)       (* outer corners *)
  | 60%nat | 68%nat => P (Fin 0) (Fin 0)       (* inner corners *)
  | 90%nat => P (Fin 0) (Fin 0)                (* upper lip *)
  | 94%nat => P (Fin 0) lipGap                 (* lower lip *)
  | 88%nat => P (Fin 0) (Fin 0)                (* left mouth corner *)
  | 92%nat => P (Fin 4) (Fin 0)                (* right mouth corner *)
  | _ => P (Fin 0) (Fin 0)
  end.

Definition face (nose : Point) (eyeGap lipGap : num) : Estimate := {|
  est_landmarks := map (pointAt nose eyeGap lipGap) (seq 0 98);
  est_pose := None
|}.

(** Frame contents:
    1: looking straight, eyes open, mouth closed;
    2: nose moved by (-2, -2), eyes shut, mouth open;
    3: as 1 but mouth open;  4: no landmarks;
    5: as 3 but nose moved by (-2, -2);
    9: looking straight, eyes shut, mouth open;
    10: nose moved by (-2, -2), eyes shut, mouth closed. *)
Definition landmarkAnswer (content : nat) : option Estimate :=
  let centre := {| pt_x := Fin 0; pt_y := Fin 0 |} in
  let moved := {| pt_x := Fin (-2); pt_y := Fin (-2) |} in
  match content with
  | 2%nat => Some (face moved (Fin 0) (Fin 4))
  | 3%nat => Some (face centre (Fin 1) (Fin 4))
  | 4%nat => None
  | 5%nat => Some (face moved (Fin 1) (Fin 4))
  | 9%nat => Some (face centre (Fin 0) (Fin 4))
  | 10%nat => Some (face moved (Fin 0) (Fin 1))
  | _ => Some (face centre (Fin 1) (Fin 1))
  end.

Definition landmarkSession : LandmarkSession := {|
  lmInputNames := ["input"%string];
  lmRun := fun element _ => Resolved (landmarkAnswer (el_content element))
|}.

Definition plainMath : JsMath := {|
  Math_PI := Fin 3.140625;
  Math_sqrt := fun x => x;
  Math_exp := fun x => x
|}.

Definition env : Environment := {|
  detectorModel := Resolved detectorSession;
  landmarkModel := Resolved landmarkSession;
  kpsStage := fun _ _ _ => Some ([], 0%nat);
  jsMath := plainMath
|}.

Definition frame (content : nat) : InputElement :=
  {| el_width := 16; el_height := 16; el_content := content |}.

Definition engine0 : Engine := startSession (createEngine None).

(** Three candidates: the second overlaps the first and scores higher, the
    third is apart. *)
Definition overlapping : list Detection :=
  let box (a b c d : Q) (s : Q) : Detection :=
    {| bbox := {| b_x1 := Fin a; b_y1 := Fin b; b_x2 := Fin c; b_y2 := Fin d |};
       score := Fin s; kps := None |} in
  [box 0 0 10 10 0.5; box 1 1 11 11 0.875; box 20 20 30 30 0.75].

Definition loadedDetector : SCRFD.Detector :=
  SCRFD.loadModel SCRFD.create detectorSession.


(** The session state after the frames with the given contents *)
Definition after (contents : list nat) : LivenessComputationState :=
  state (Session.runFrames env engine0 (map frame contents)).

(** Eyes and mouth open on every frame, the nose moving back and forth *)
Definition openStream : list InputElement :=
  map frame [3; 5; 3; 5; 3; 5]%nat.

(** Eyes shut on every frame, the nose moving once *)
Definition shutStream : list InputElement :=
  map frame [9; 2; 2; 2; 2; 2]%nat.

(** Mouth closed on every frame, the eyes open and then shut, the nose
    moving once *)
Definition closedMouthStream : list InputElement :=
  map frame [1; 10; 10; 10; 10; 10]%nat.

(** A detector model that declares no input, and so has no metadata for
    its first input either *)
Definition unnamedSession : InferenceSession := {|
  inputNames := [];
  sessOutputNames := outputNames6;
  inputDimensions := None;
  firstOutputRank := 2;
  run := fun element => Resolved (detectorOutputs (el_content element))
|}.

End Scenario.

(** ** Best-frame bookkeeping: what the statements speak of *)

Module QualityDefs.
Import Liveness FaceLiveness.



(** The frontal pose score of the frame a result reports *)
Definition candidateScore (r : ProcessFrameResult) : option num :=
  match metrics r with
  | Some m => frontalScore m
  | None => None
  end.

(** A camera whose five scorers all answer 100, and the result of a frame
    with one face and a given frontal score *)
Definition brightCamera : Camera := {|
  captureKeyFrame := fun _ => Some "preview"%string;
  captureUploadFrame := fun _ => Some "upload"%string;
  captureFullFrame := Some "full"%string;
  computeBrightnessScore := fun _ => Some (Fin 100, "normal"%string);
  estimateBlurScore := fun _ => Some (Fin 100);
  detectUniformLighting := fun _ => Some (Fin 100);
  analyzeBackgroundUniformity := fun _ => Some (Fin 100);
  evaluatePixelResolution := fun _ => Some (Fin 100)
|}.

Definition frameWithScore (frontal : num) : ProcessFrameResult :=
  let st := state Scenario.engine0 in
  let d := {| det := {| bbox := {| b_x1 := Fin 0; b_y1 := Fin 0;
                                   b_x2 := Fin 8; b_y2 := Fin 8 |};
                        score := Fin 0.875; kps := None |};
              landmarks := []; pose := None |} in
  {| detection := Some d;
     metrics := Some {| nodRatio := None; nodSpread := None;
                        shakeRatio := None; shakeSpread := None;
                        blinkMetrics := None; mouthRatio := None;
                        m_pose := None; poseDegrees := None;
                        frontalScore := Some frontal |};
     stage := buildStageStatus st None;
     multiFaceDetected := false |}.

End QualityDefs.

(** ** The detector's input and layout *)

Module DetectorInput.
Import SCRFD.

(** The size [newWidth, newHeight] at which [prepareInput] draws the frame
    into the top-left corner of the black model-sized canvas *)
Definition letterbox (d : Detector) (element : InputElement) : num * num :=
  let width := Num.of_nat (el_width element) in
  let height := Num.of_nat (el_height element) in
  let targetW := Num.of_nat (fst (inputSize d)) in
  let targetH := Num.of_nat (snd (inputSize d)) in
  let imRatio := height / width in
  let modelRatio := targetH / targetW in
  if imRatio >? modelRatio then
    let newHeight := targetH in
    (Num.round (newHeight / imRatio), newHeight)
  else
    let newWidth := targetW in
    (newWidth, Num.round (newWidth * imRatio)).

(** The anchor layout that [initFromOutputs] maintains *)
Definition layoutOk (d : Detector) : Prop :=
  fmc d = List.length (featStrideFpn d) /\
  Forall (fun stride => (0 < stride)%nat) (featStrideFpn d) /\
  (numAnchors d = 1%nat \/ numAnchors d = 2%nat).

(** A box with finite corners in order: [x1 <= x2] and [y1 <= y2] *)
Definition properBox (b : BBox) : Prop :=
  exists x1 y1 x2 y2 : Q,
    b = {| b_x1 := Fin x1; b_y1 := Fin y1; b_x2 := Fin x2; b_y2 := Fin y2 |} /\
    (x1 <= x2)%Q /\ (y1 <= y2)%Q.

(** A finite number between two rationals *)
Definition within (lo hi : Q) (x : num) : Prop :=
  exists q : Q, x = Fin q /\ (lo <= q <= hi)%Q.

End DetectorInput.

(** ** Signals: what the statements speak of *)

Module SignalDefs.
Import Liveness.

(** The finite ratios among those offered to [updateRangeState] *)
Definition finiteRatios (rs : list (option num)) : list Q :=
  flat_map (fun r => match r with Some (Num.Fin q) => [q] | _ => [] end) rs.

(** The range after a run of updates, in terms of the finite ratios seen *)
Definition describes (rg : RangeState) (qs : list Q) : Prop :=
  match qs with
  | [] => rg = emptyRange
  | _ => exists lo hi,
           rg = {| rmin := Some (Fin lo); rmax := Some (Fin hi) |} /\
           In lo qs /\ In hi qs /\ Forall (fun q => lo <= q <= hi)%Q qs
  end.

Definition finitePoint (p : Point) : Prop :=
  exists x y : Q, p = {| pt_x := Fin x; pt_y := Fin y |}.

(** A detection all of whose coordinates are finite numbers *)
Definition finiteFace (d : DetectionWithLandmarks) : Prop :=
  Forall finitePoint (landmarks d) /\
  exists x1 y1 x2 y2 : Q,
    bbox (det d) =
    {| b_x1 := Fin x1; b_y1 := Fin y1; b_x2 := Fin x2; b_y2 := Fin y2 |}.

End SignalDefs.

(** ** The engine: what the statements speak of *)

Module EngineDefs.
Import Liveness.

(** The bookkeeping fields of the session state agree with each other *)
Definition consistent (st : LivenessComputationState) : Prop :=
  (stageIndex st <= List.length LIVENESS_STAGES)%nat /\
  Num.eqv (progress st)
          (Num.of_nat (stageIndex st) / Num.of_nat (List.length LIVENESS_STAGES)) /\
  (completed st = true <-> stageIndex st = List.length LIVENESS_STAGES) /\
  (completed st = true -> active st = false).

(** [detectImage]: detection alone, outside of any session *)
Definition detectImage (env : Environment) (e : Engine) (element : InputElement)
    : Call (list Detection * option Detection) :=
  match warmup env e with
  | (e, Err err) => (e, Err err)
  | (e, Ok _) =>
      match SCRFD.detectFromElement (detector e) (kpsStage env) element
              (detectionThreshold e) with
      | Err err => (e, Err err)
      | Ok (d', detections) =>
          (set_detector e d', Ok (detections, hd_error detections))
      end
  end.

(** The keys of [LIVENESS_STAGES], in order *)
Definition stageKeys : list LivenessStageKey := map key LIVENESS_STAGES.

End EngineDefs.

(** ** Model sources ([buildModelSourceCandidates], [asArrayBuffer]) *)

Module ModelSource.


(** [path.replace(/^(?:\.\.?\/)+/, '')]: the longest prefix made of
    segments [./] and [../] is removed. *)
Fixpoint stripDotSegments (path : string) : string :=
  match path with
  | String a (String b rest) =>
      if Ascii.eqb a "."%char && Ascii.eqb b "/"%char then stripDotSegments rest
      else
        match rest with
        | String c rest' =>
            if Ascii.eqb a "."%char && Ascii.eqb b "."%char && Ascii.eqb c "/"%char
            then stripDotSegments rest'
            else path
        | EmptyString => path
        end
  | _ => path
  end.

(** [path.replace(/^\/+/, '')] *)
Fixpoint stripSlashes (path : string) : string :=
  match path with
  | String a rest => if Ascii.eqb a "/"%char then stripSlashes rest else path
  | EmptyString => path
  end.

Definition normalizeRelativePath (path : string) : string :=
  stripSlashes (stripDotSegments path).

(** [Array.from(new Set(items))]: each item is added unless it is already
    there, so the first occurrence of each is kept, in order. *)
Definition setAdd (seen : list string) (item : string) : list string :=
  if existsb (String.eqb item) seen then seen else seen ++ [item].

Definition arrayFromSet (items : list string) : list string :=
  fold_left setAdd items [].

Definition buildModelSourceCandidates (primary relativePath : string)
    : list string :=
  let normalized := normalizeRelativePath relativePath in
  let candidates :=
    [ primary; relativePath;
      String.append "./"%string normalized;
      String.append "/"%string normalized ] in
  arrayFromSet
    (filter (fun item => negb (Nat.eqb (String.length item) 0)) candidates).

(** The bytes of a model file *)
Definition Buffer : Type := list Byte.byte.

(** An entry of a [ModelSource]: bytes, a [Blob] with the outcome of its
    [arrayBuffer()], or a URL *)
Inductive ModelEntry : Type :=
| EntryBuffer (buffer : Buffer)
| EntryBlob (arrayBuffer : external Buffer)
| EntryUrl (url : string).

(** The loop of [asArrayBuffer] over the candidates, with the messages
    collected so far.  [fetchModelFromUrl] is awaited inside the [try], so
    its failure is recorded and the next candidate is tried; the promise of
    a blob is returned as it is, so its failure is the failure of the
    whole call. *)
Fixpoint asArrayBuffer_loop (fetchModelFromUrl : string -> external Buffer)
    (candidates : list ModelEntry) (errors : list string) : result Buffer :=
  match candidates with
  | [] =>
      Err (External
             match errors with
             | [] => "不支持的模型来源"%string
             | _ => String.concat "; "%string errors
             end)
  | EntryBuffer buffer :: _ => Ok buffer
  | EntryBlob arrayBuffer :: _ => await arrayBuffer
  | EntryUrl url :: rest =>
      match fetchModelFromUrl url with
      | Resolved buffer => Ok buffer
      | Rejected msg =>
          asArrayBuffer_loop fetchModelFromUrl rest (errors ++ [msg])
      end
  end.

Definition asArrayBuffer (fetchModelFromUrl : string -> external Buffer)
    (candidates : list ModelEntry) : result Buffer :=
  asArrayBuffer_loop fetchModelFromUrl candidates [].

(** The message with which candidate [url] fails *)
Definition failsWith (fetchModelFromUrl : string -> external Buffer)
    (url msg : string) : Prop :=
  fetchModelFromUrl url = Rejected msg.

End ModelSource.

(** ** The landmark estimator ([class LandmarkEstimator]) in detail *)

Module Landmark.

Record Selected : Type := {
  landmarkTensor : option Tensor;
  poseTensor : option Tensor
}.

Definition isNull {A : Type} (o : option A) : bool :=
  match o with Some _ => false | None => true end.

(** The callback of [this.outputNames.forEach] in [selectOutputs] *)
Definition selectStep (result : OnnxValueMap) (acc : Selected) (name : string)
    : Selected :=
  match result name with
  | None => acc
  | Some tensor =>
      let length := List.length tensor in
      if Nat.leb length 6 && isNull (poseTensor acc) then
        {| landmarkTensor := landmarkTensor acc; poseTensor := Some tensor |}
      else if Nat.ltb 6 length && isNull (landmarkTensor acc) then
        {| landmarkTensor := Some tensor; poseTensor := poseTensor acc |}
      else acc
  end.

Definition selectOutputs (outputNames : list string) (result : OnnxValueMap)
    : Selected :=
  let acc := fold_left (selectStep result) outputNames
               {| landmarkTensor := None; poseTensor := None |} in
  match landmarkTensor acc with
  | Some _ => acc
  | None =>
      {| landmarkTensor :=
           match outputNames with
           | name :: _ => result name
           | [] => None
           end;
         poseTensor := poseTensor acc |}
  end.

(** What [prepareInput] computes besides the tensor: the rectangle of the
    frame that is drawn, and the [meta] used to project the landmarks. *)
Record Crop : Type := {
  drawX1 : num; drawY1 : num; drawWidth : num; drawHeight : num;
  originX : num; originY : num; sizeW : num; sizeH : num;
  padLeft : num; padTop : num; padRight : num; padBottom : num
}.

Definition prepareInput (element : InputElement) (b : BBox) : result Crop :=
  if Nat.eqb (el_width element) 0 || Nat.eqb (el_height element) 0
  then Err InvalidInputSize
  else
    let width := Num.of_nat (el_width element) in
    let height := Num.of_nat (el_height element) in
    let x1 := b_x1 b in
    let y1 := b_y1 b in
    let x2 := b_x2 b in
    let y2 := b_y2 b in
    let w := x2 - x1 in
    let h := y2 - y1 in
    let maxSide := Num.max w h in
    let sizeW_ := Num.max (Fin 1) (Num.round (maxSide * Fin 0.9)) in
    let sizeH_ := Num.max (Fin 1) (Num.round (maxSide * Fin 0.9)) in
    let cx := x1 + w / Fin 2 in
    let cy := y1 + h / Fin 2 in
    let cropX1 := Num.round (cx - sizeW_ / Fin 2) in
    let cropY1 := Num.round (cy - sizeH_ * Fin 0.4) in
    let cropX2 := cropX1 + sizeW_ in
    let cropY2 := cropY1 + sizeH_ in
    let leftPad := Num.max (Fin 0) (Num.neg cropX1) in
    let topPad := Num.max (Fin 0) (Num.neg cropY1) in
    let rightPad := Num.max (Fin 0) (cropX2 - width) in
    let bottomPad := Num.max (Fin 0) (cropY2 - height) in
    let drawX1_ := Num.max (Fin 0) cropX1 in
    let drawY1_ := Num.max (Fin 0) cropY1 in
    let drawX2 := Num.min width cropX2 in
    let drawY2 := Num.min height cropY2 in
    let drawWidth_ := Num.max (Fin 0) (drawX2 - drawX1_) in
    let drawHeight_ := Num.max (Fin 0) (drawY2 - drawY1_) in
    Ok {| drawX1 := drawX1_; drawY1 := drawY1_;
          drawWidth := drawWidth_; drawHeight := drawHeight_;
          originX := drawX1_ - leftPad; originY := drawY1_ - topPad;
          sizeW := sizeW_; sizeH := sizeH_;
          padLeft := leftPad; padTop := topPad;
          padRight := rightPad; padBottom := bottomPad |}.

(** [projectLandmarks]: one point for every pair of values, the last one
    with an undefined ordinate when the number of values is odd *)
Definition projectLandmarks (values : list num) (meta : Crop) : list Point :=
  map (fun k =>
         let i := (k * 2)%nat in
         let px := Num.get values i * sizeW meta in
         let py := Num.get values (i + 1) * sizeH meta in
         {| pt_x := originX meta + px; pt_y := originY meta + py |})
      (seq 0 ((List.length values + 1) / 2)).

(** [x || 0] on numbers: [NaN], zero and a missing entry give 0 *)
Definition orZero (x : num) : num :=
  match x with
  | Num.NaN => Fin 0
  | _ => if x === Fin 0 then Fin 0 else x
  end.

Definition parsePose (values : option (list num)) : option Pose :=
  match values with
  | None | Some [] => None
  | Some v =>
      Some {| yaw := orZero (Num.get v 0);
              pitch := orZero (Num.get v 1);
              roll := orZero (Num.get v 2) |}
  end.

(** The tensors that the result holds for the output names, in order *)
Definition presentTensors (outputNames : list string) (result : OnnxValueMap)
    : list Tensor :=
  flat_map (fun name => match result name with Some t => [t] | None => [] end)
           outputNames.

(** The tensor already chosen, or else the first one that qualifies *)
Definition orFind (chosen : option Tensor) (f : Tensor -> bool)
    (l : list Tensor) : option Tensor :=
  match chosen with Some t => Some t | None => find f l end.

(** A box with finite corners *)
Definition finiteBox (b : BBox) : Prop :=
  exists x1 y1 x2 y2 : Q,
    b = {| b_x1 := Fin x1; b_y1 := Fin y1; b_x2 := Fin x2; b_y2 := Fin y2 |}.

End Landmark.

(** ** Evidence frames and captured crops ([FaceLiveness.tsx]) *)

Module Evidence.

Definition EVIDENCE_FRAME_COUNT : nat := 15.

(** [appendStageFrame] on the buffer of its stage, given what
    [captureFrame] returned: the frame is pushed and the buffer is cut
    down to its last [EVIDENCE_FRAME_COUNT] entries. *)
Definition appendStageFrame (frame : option string) (buffer : list string)
    : list string :=
  match frame with
  | Some f =>
      if FaceLiveness.truthy frame then
        let buffer := buffer ++ [f] in
        if Nat.ltb EVIDENCE_FRAME_COUNT (List.length buffer)
        then skipn (List.length buffer - EVIDENCE_FRAME_COUNT) buffer
        else buffer
      else buffer
  | None => buffer
  end.

(** The frames handed to the GIF encoder when a stage completes: the
    stage's buffer, or one freshly captured frame when the buffer is empty
    ([handleStageCompleted]); a single frame is tripled and no frame at all
    resolves to null ([createEvidenceGif]). *)
Definition gifFrames (captureFrame : option string) (buffer : list string)
    : option (list string) :=
  let buffer :=
    match buffer with
    | [] =>
        match captureFrame with
        | Some f => if FaceLiveness.truthy captureFrame then [f] else buffer
        | None => buffer
        end
    | _ => buffer
    end in
  match buffer with
  | [] => None
  | f0 :: _ =>
      Some (if Nat.leb 2 (List.length buffer) then buffer else [f0; f0; f0])
  end.

(** The frames that [appendStageFrame] does not ignore *)
Definition captured (frames : list (option string)) : list string :=
  flat_map (fun frame =>
              match frame with
              | Some f => if FaceLiveness.truthy frame then [f] else []
              | None => []
              end) frames.

End Evidence.

Module Capture.

(** [Math.ceil] *)
Definition ceil (x : num) : num := Num.neg (Num.floor (Num.neg x)).

Record KeyFrameCrop : Type := {
  cropX : num; cropY : num; cropW : num; cropH : num;
  targetW : num; targetH : num
}.

(** The source rectangle and the preview size of [captureKeyFrame] *)
Definition keyFrameCrop (videoWidth videoHeight : nat) (b : BBox)
    : option KeyFrameCrop :=
  if Nat.eqb videoWidth 0 || Nat.eqb videoHeight 0 then None
  else
    let x1 := b_x1 b in
    let y1 := b_y1 b in
    let x2 := b_x2 b in
    let y2 := b_y2 b in
    let padding := Fin 20 in
    let cropX_ := Num.max (Fin 0) (Num.floor (x1 - padding)) in
    let cropY_ := Num.max (Fin 0) (Num.floor (y1 - padding)) in
    let cropW_ :=
      Num.min (Num.of_nat videoWidth - cropX_) (ceil (x2 - x1 + padding * Fin 2)) in
    let cropH_ :=
      Num.min (Num.of_nat videoHeight - cropY_) (ceil (y2 - y1 + padding * Fin 2)) in
    if (cropW_ <=? Fin 0) || (cropH_ <=? Fin 0) then None
    else
      let scale := Fin 64 / Num.max cropW_ cropH_ in
      Some {| cropX := cropX_; cropY := cropY_; cropW := cropW_; cropH := cropH_;
              targetW := Num.max (Fin 1) (Num.round (cropW_ * scale));
              targetH := Num.max (Fin 1) (Num.round (cropH_ * scale)) |}.

(** The score that [evaluatePixelResolution] gives to an inter-ocular
    distance *)
Definition resolutionOfIod (iod : num) : num :=
  let minIod := Fin 80 in
  let highIod := Fin 300 in
  let score :=
    if iod <? minIod then (iod / minIod) * Fin 60
    else if iod >=? highIod then Fin 100
    else
      let ratio := (iod - minIod) / (highIod - minIod) in
      Fin 60 + ratio * Fin 40 in
  Num.round (score * Fin 100) / Fin 100.

(** [evaluatePixelResolution], over [Math.hypot] *)
Definition evaluatePixelResolution (hypot : num -> num -> num)
    (kps : option (list Point)) : option num :=
  match kps with
  | Some (left_ :: right_ :: _) =>
      let dx := pt_x left_ - pt_x right_ in
      let dy := pt_y left_ - pt_y right_ in
      Some (resolutionOfIod (hypot dx dy))
  | _ => None
  end.

End Capture.

(** ** The best frame over a session: what the statements speak of *)

Module BestDefs.
Import Liveness FaceLiveness.

(** A camera whose three captures always succeed *)
Definition reliable (cam : Camera) : Prop :=
  (forall b, captureKeyFrame cam b <> None) /\
  (forall b, truthy (captureUploadFrame cam b) = true) /\
  truthy (captureFullFrame cam) = true.

(** The component's state after handling a run of results *)
Definition handleResults (cam : Camera) (isMobileHandoff : bool)
    (q : QualityState) (rs : list ProcessFrameResult) : QualityState :=
  fold_left (handleLivenessResult cam isMobileHandoff) rs q.

(** The six scores lie between 0 and 100 *)
Definition scoresInRange (q : QualityState) : Prop :=
  Forall (fun o => exists v : Q, o = Some (Fin v) /\ (0 <= v <= 100)%Q)
         (qualityValues q).

End BestDefs.

(** ** Image statistics of the quality scorers ([FaceLiveness.tsx]) *)

Module ImageStats.

(** The running mean and sum of squared deviations kept by the loops of
    [estimateBlurScore], [computeLaplacianScore] and
    [analyzeBackgroundUniformity] *)
Record Running : Type := {
  mean : num;
  M2 : num;
  count : nat
}.

Definition start : Running := {| mean := Fin 0; M2 := Fin 0; count := 0 |}.

(** The body of the loop for one value [v] *)
Definition accumulate (acc : Running) (v : num) : Running :=
  let count_ := S (count acc) in
  let delta := v - mean acc in
  let mean_ := mean acc + delta / Num.of_nat count_ in
  let delta2 := v - mean_ in
  {| mean := mean_; M2 := M2 acc + delta * delta2; count := count_ |}.

Definition running (values : list num) : Running :=
  fold_left accumulate values start.

(** [clamp] *)
Definition clamp (v lo hi : Z) : Z :=
  if Z.ltb v lo then lo else if Z.gtb v hi then hi else v.

Definition k4 : list num :=
  [Fin 0; Fin 1; Fin 0; Fin 1; Fin (-4); Fin 1; Fin 0; Fin 1; Fin 0].

(** The response of the 3 x 3 kernel at pixel [(x, y)] of a [size] x [size]
    grey image, with the neighbours clamped to the image *)
Definition laplacianAt (gray : list num) (size : nat) (y x : nat) : num :=
  fold_left
    (fun acc idx =>
       let dy := (Z.of_nat (idx / 3) - 1)%Z in
       let dx := (Z.of_nat (idx mod 3) - 1)%Z in
       let yy := clamp (Z.of_nat y + dy) 0 (Z.of_nat size - 1) in
       let xx := clamp (Z.of_nat x + dx) 0 (Z.of_nat size - 1) in
       acc + Num.get gray (Z.to_nat (yy * Z.of_nat size + xx)) * Num.get k4 idx)
    (seq 0 9) (Fin 0).

Definition laplacian (gray : list num) (size : nat) : list num :=
  flat_map (fun y => map (fun x => laplacianAt gray size y x) (seq 0 size))
           (seq 0 size).

(** The score of [estimateBlurScore] from the grey image it has drawn *)
Definition blurScore (gray : list num) (size : nat) : num :=
  let r := running (laplacian gray size) in
  let variance :=
    if Nat.ltb 0 (count r) then M2 r / Num.of_nat (count r) else Fin 0 in
  let maxThreshold := Fin 500 in
  let score := Num.min (variance / maxThreshold * Fin 100) (Fin 100) in
  Num.round (score * Fin 100) / Fin 100.

(** Sum of a list of rationals *)
Definition total (qs : list Q) : Q := fold_right Qplus 0%Q qs.

End ImageStats.

(** ** The brightness score ([computeBrightnessScore]) *)

Module Brightness.

(** Storing a number into a [Uint8Array]: the integer part modulo 256,
    and 0 for [NaN] and the infinities *)
Definition toUint8 (x : num) : nat :=
  match x with
  | Num.Fin q =>
      let truncated := if Qle_bool 0 q then Qfloor q else Qceiling q in
      Z.to_nat (truncated mod 256)
  | _ => 0%nat
  end.

(** The grey image of [n] pixels computed from the canvas bytes [data]
    (four per pixel); a pixel whose bytes are missing stays 0.  The luma is
    rounded from its exact value; the binary64 sum of the source can round
    a luma at a tie to the neighbouring grey level. *)
Definition grayOfPixels (data : list num) (n : nat) : list nat :=
  map (fun j =>
         let i := (j * 4)%nat in
         toUint8 (Num.round (Fin 0.299 * Num.get data i +
                             Fin 0.587 * Num.get data (i + 1) +
                             Fin 0.114 * Num.get data (i + 2))))
      (seq 0 n).

(** [values.sort((a, b) => a - b)] *)
Fixpoint insertAscending (x : nat) (l : list nat) : list nat :=
  match l with
  | [] => [x]
  | y :: l' => if Nat.leb x y then x :: l else y :: insertAscending x l'
  end.

Definition sortAscending (l : list nat) : list nat :=
  fold_right insertAscending [] l.

(** The score and status computed from the grey image.  The two
    percentile indices are [Math.floor] of 5 % and 95 % of [total - 1]. *)
Definition brightnessOfGray (gray : list nat) : option (num * string) :=
  let values := sortAscending gray in
  let total := List.length values in
  if Nat.eqb total 0 then None
  else
    let lowIndex := (5 * (total - 1) / 100)%nat in
    let highIndex := ((100 - 5) * (total - 1) / 100)%nat in
    let pLow := nth lowIndex values 0%nat in
    let pHigh := nth highIndex values 0%nat in
    let kept := filter (fun v => Nat.leb pLow v && Nat.leb v pHigh) gray in
    let sum := list_sum kept in
    let count := List.length kept in
    let overexposedCount := List.length (filter (fun v => Nat.leb 240 v) gray) in
    if Nat.eqb count 0 then Some (Fin 0, "invalid"%string)
    else
      let meanGray := Num.of_nat sum / Num.of_nat count in
      let brightness := meanGray / Fin 255 * Fin 100 in
      let overexposedRatio :=
        Num.of_nat overexposedCount / Num.of_nat (List.length gray) in
      let status :=
        if brightness <? Fin 30 then "underexposed"%string
        else if (brightness >? Fin 70) && (overexposedRatio >? Fin 0.1)
             then "overexposed"%string
        else if brightness >? Fin 70 then "too bright"%string
        else "normal"%string in
      let quality :=
        Num.max (Fin 0) (Fin 100 - Num.abs (brightness - Fin 50) * Fin 2) in
      Some (Num.round (quality * Fin 100) / Fin 100, status).

Definition computeBrightnessScore (data : list num) (cropW cropH : nat)
    : option (num * string) :=
  if Nat.leb cropW 1 || Nat.leb cropH 1 then None
  else brightnessOfGray (grayOfPixels data (cropW * cropH)).

End Brightness.

(** ** Sample inputs *)

Module Samples.
Import Liveness.

Definition box (x1 y1 x2 y2 : Q) : BBox :=
  {| b_x1 := Fin x1; b_y1 := Fin y1; b_x2 := Fin x2; b_y2 := Fin y2 |}.

(** A face of 98 finite landmarks, eyes and mouth open *)
Definition openFace : DetectionWithLandmarks := {|
  det := {| bbox := box (-4) (-4) 4 4; score := Fin 0.875; kps := None |};
  landmarks :=
    est_landmarks (Scenario.face {| pt_x := Fin 0; pt_y := Fin 0 |} (Fin 1) (Fin 4));
  pose := None
|}.

(** The calls of a session that passes its four stages *)
Definition fullSession : list Session.ApiCall :=
  Session.CallStartSession ::
  map (fun c => Session.CallProcessFrame (Scenario.frame c))
      [1; 2; 2; 2; 2]%nat.

(** A server on which only the absolute path exists *)
Definition absoluteOnly (url : string) : external ModelSource.Buffer :=
  if String.eqb url "/models/det.onnx" then Resolved []
  else Rejected (String.append "404 " url).

(** The canvas bytes of a 2 x 2 crop: black, white, mid grey and red *)
Definition fourPixels : list num :=
  map Num.of_nat [0; 0; 0; 255;  255; 255; 255; 255;
                  128; 128; 128; 255;  255; 0; 0; 255]%nat.

(** Six scores of a stored frame *)
Definition scoredQuality : FaceLiveness.QualityState :=
  FaceLiveness.handleLivenessResult QualityDefs.brightCamera false
    FaceLiveness.initialQuality (QualityDefs.frameWithScore (Fin 40)).

End Samples.

(** * Properties *)

(** ** Numbers up to numeric equality *)

Module NumFacts.

Lemma eqv_refl x : Num.eqv x x.
Proof. destruct x; simpl; auto. reflexivity. Qed.

Lemma eqv_sym x y : Num.eqv x y -> Num.eqv y x.
Proof. destruct x, y; simpl; auto. intros H; symmetry; exact H. Qed.

Lemma eqv_trans x y z : Num.eqv x y -> Num.eqv y z -> Num.eqv x z.
Proof. destruct x, y, z; simpl; auto; try tauto. intros H1 H2; rewrite H1; exact H2. Qed.

#[export] Instance eqv_Equivalence : Equivalence Num.eqv.
Proof. split; [exact eqv_refl | exact eqv_sym | exact eqv_trans]. Qed.

#[export] Instance cmp_Proper : Proper (Num.eqv ==> Num.eqv ==> eq) Num.cmp.
Proof.
  intros x x' Hx y y' Hy.
  destruct x, x'; simpl in Hx; try contradiction;
  destruct y, y'; simpl in Hy; try contradiction; simpl; auto.
  now rewrite Hx, Hy.
Qed.

#[export] Instance ltb_Proper : Proper (Num.eqv ==> Num.eqv ==> eq) Num.ltb.
Proof. intros x x' Hx y y' Hy. unfold Num.ltb. now rewrite Hx, Hy. Qed.

#[export] Instance gtb_Proper : Proper (Num.eqv ==> Num.eqv ==> eq) Num.gtb.
Proof. intros x x' Hx y y' Hy. unfold Num.gtb. now rewrite Hx, Hy. Qed.

#[export] Instance leb_Proper : Proper (Num.eqv ==> Num.eqv ==> eq) Num.leb.
Proof. intros x x' Hx y y' Hy. unfold Num.leb. now rewrite Hx, Hy. Qed.

#[export] Instance neg_Proper : Proper (Num.eqv ==> Num.eqv) Num.neg.
Proof. intros x x' Hx. destruct x, x'; simpl in *; auto. now rewrite Hx. Qed.

#[export] Instance add_Proper : Proper (Num.eqv ==> Num.eqv ==> Num.eqv) Num.add.
Proof.
  intros x x' Hx y y' Hy.
  destruct x, x'; simpl in Hx; try contradiction;
  destruct y, y'; simpl in Hy; try contradiction; simpl; auto.
  now rewrite Hx, Hy.
Qed.

#[export] Instance sub_Proper : Proper (Num.eqv ==> Num.eqv ==> Num.eqv) Num.sub.
Proof. intros x x' Hx y y' Hy. unfold Num.sub. now rewrite Hx, Hy. Qed.

Lemma scale_inf_eqv b a a' : (a == a')%Q -> Num.eqv (Num.scale_inf b a) (Num.scale_inf b a').
Proof. intros H. unfold Num.scale_inf. rewrite H. reflexivity. Qed.

#[export] Instance mul_Proper : Proper (Num.eqv ==> Num.eqv ==> Num.eqv) Num.mul.
Proof.
  intros x x' Hx y y' Hy.
  destruct x, x'; simpl in Hx; try contradiction;
  destruct y, y'; simpl in Hy; try contradiction; simpl; auto;
  try (now apply scale_inf_eqv).
  now rewrite Hx, Hy.
Qed.

#[export] Instance div_Proper : Proper (Num.eqv ==> Num.eqv ==> Num.eqv) Num.div.
Proof.
  intros x x' Hx y y' Hy.
  destruct x, x'; simpl in Hx; try contradiction;
  destruct y, y'; simpl in Hy; try contradiction; simpl; auto;
  try reflexivity.
  - rewrite <- Hy. destruct (q1 ?= 0)%Q; simpl; try (now rewrite Hx, Hy).
    now apply scale_inf_eqv.
  - assert (E : Qle_bool 0 q = Qle_bool 0 q0).
    { apply eq_true_iff_eq. rewrite !Qle_bool_iff. now rewrite Hy. }
    rewrite E. reflexivity.
  - assert (E : Qle_bool 0 q = Qle_bool 0 q0).
    { apply eq_true_iff_eq. rewrite !Qle_bool_iff. now rewrite Hy. }
    rewrite E. reflexivity.
Qed.

#[export] Instance max_Proper : Proper (Num.eqv ==> Num.eqv ==> Num.eqv) Num.max.
Proof.
  intros x x' Hx y y' Hy. unfold Num.max.
  rewrite (cmp_Proper _ _ Hx _ _ Hy).
  destruct (Num.cmp x' y') as [[]|]; auto; reflexivity.
Qed.

#[export] Instance min_Proper : Proper (Num.eqv ==> Num.eqv ==> Num.eqv) Num.min.
Proof.
  intros x x' Hx y y' Hy. unfold Num.min.
  rewrite (cmp_Proper _ _ Hx _ _ Hy).
  destruct (Num.cmp x' y') as [[]|]; auto; reflexivity.
Qed.

Lemma add_comm x y : Num.eqv (x + y) (y + x).
Proof. destruct x, y; simpl; auto. apply Qplus_comm. Qed.

Lemma cmp_antisym x y : Num.cmp y x = option_map CompOpp (Num.cmp x y).
Proof.
  destruct x, y; simpl; auto. now rewrite Qcompare_antisym.
Qed.

Lemma cmp_Eq_eqv x y : Num.cmp x y = Some Eq -> Num.eqv x y.
Proof.
  destruct x, y; simpl; try discriminate; auto.
  intros H. inversion H. now apply Qeq_alt.
Qed.

Lemma max_comm x y : Num.eqv (Num.max x y) (Num.max y x).
Proof.
  unfold Num.max. rewrite (cmp_antisym x y).
  destruct (Num.cmp x y) as [[]|] eqn:E; simpl; try reflexivity.
  now apply cmp_Eq_eqv.
Qed.

Lemma min_comm x y : Num.eqv (Num.min x y) (Num.min y x).
Proof.
  unfold Num.min. rewrite (cmp_antisym x y).
  destruct (Num.cmp x y) as [[]|] eqn:E; simpl; try reflexivity.
  now apply cmp_Eq_eqv.
Qed.

Lemma ltb_Fin a b : Num.ltb (Fin a) (Fin b) = true <-> (a < b)%Q.
Proof.
  unfold Num.ltb; simpl. rewrite Qlt_alt.
  destruct (a ?= b)%Q; split; congruence.
Qed.

Lemma ltb_Fin_false a b : Num.ltb (Fin a) (Fin b) = false <-> (b <= a)%Q.
Proof.
  rewrite <- not_true_iff_false, ltb_Fin. split; [apply Qnot_lt_le | apply Qle_not_lt].
Qed.

Lemma ltb_negb_leb a b :
  Num.ltb (Fin a) (Fin b) = negb (Num.leb (Fin b) (Fin a)).
Proof.
  unfold Num.ltb, Num.leb; simpl. rewrite <- (Qcompare_antisym a b).
  now destruct (a ?= b)%Q.
Qed.

End NumFacts.
Import NumFacts.

Lemma iou_sym a b : Num.eqv (SCRFD.iou a b) (SCRFD.iou b a).
Proof.
  unfold SCRFD.iou; cbv zeta.
  set (areaA := (b_x2 a - b_x1 a + Fin 1) * (b_y2 a - b_y1 a + Fin 1)).
  set (areaB := (b_x2 b - b_x1 b + Fin 1) * (b_y2 b - b_y1 b + Fin 1)).
  assert (Hi : Num.eqv
    (Num.max (Fin 0) (Num.min (b_x2 a) (b_x2 b) - Num.max (b_x1 a) (b_x1 b) + Fin 1) *
     Num.max (Fin 0) (Num.min (b_y2 a) (b_y2 b) - Num.max (b_y1 a) (b_y1 b) + Fin 1))
    (Num.max (Fin 0) (Num.min (b_x2 b) (b_x2 a) - Num.max (b_x1 b) (b_x1 a) + Fin 1) *
     Num.max (Fin 0) (Num.min (b_y2 b) (b_y2 a) - Num.max (b_y1 b) (b_y1 a) + Fin 1))).
  { now rewrite (min_comm (b_x2 a)), (max_comm (b_x1 a)), (min_comm (b_y2 a)), (max_comm (b_y1 a)). }
  set (i1 := Num.max _ _ * Num.max _ _) in *.
  set (i2 := Num.max _ _ * Num.max _ _) in Hi |- *.
  assert (Hu : Num.eqv (areaA + areaB - i1) (areaB + areaA - i2)).
  { now rewrite Hi, (add_comm areaA). }
  clearbody areaA areaB i1 i2.
  assert (E : (areaA + areaB - i1 <=? Fin 0) = (areaB + areaA - i2 <=? Fin 0)).
  { apply leb_Proper; [exact Hu | reflexivity]. }
  rewrite E; clear E.
  destruct (areaB + areaA - i2 <=? Fin 0); [reflexivity|].
  now rewrite Hu, Hi.
Qed.

Module NmsFacts.
Import SCRFD.

Section Threshold.
Variable thresh : num.

Local Abbreviation compatible := (SCRFD.compatible thresh).

Lemma compatible_sym a b : compatible a b -> compatible b a.
Proof.
  unfold SCRFD.compatible. intros H. rewrite <- H.
  apply gtb_Proper; [apply iou_sym | reflexivity].
Qed.

Lemma suppress_In current objects x :
  In x (suppress thresh current objects) ->
  In x objects /\ compatible current x.
Proof.
  unfold suppress. rewrite filter_In. intros [Hin Hc]. split; [exact Hin|].
  unfold SCRFD.compatible. now apply negb_true_iff.
Qed.

Lemma suppress_id current objects :
  Forall (compatible current) objects -> suppress thresh current objects = objects.
Proof.
  unfold suppress. induction 1 as [|x l Hx _ IH]; simpl; [reflexivity|].
  unfold SCRFD.compatible in Hx. rewrite Hx. simpl. now rewrite IH.
Qed.

Lemma nms_loop_incl objects x :
  In x (nms_loop thresh objects) -> In x objects.
Proof.
  funelim (nms_loop thresh objects); simpl; [tauto|].
  intros [-> | Hin]; [now left|]. right.
  match goal with
  | IH : forall y, In y (nms_loop _ _) -> _ |- _ => apply IH in Hin
  end.
  now apply suppress_In in Hin.
Qed.

Lemma nms_loop_pairwise objects :
  ForallOrdPairs compatible (nms_loop thresh objects).
Proof.
  funelim (nms_loop thresh objects); constructor.
  - apply Forall_forall. intros x Hin.
    apply nms_loop_incl in Hin. now apply suppress_In in Hin.
  - assumption.
Qed.

Lemma nms_loop_fixpoint objects :
  ForallOrdPairs compatible objects -> nms_loop thresh objects = objects.
Proof.
  induction 1 as [|x l Hx _ IH]; simp nms_loop; [reflexivity|].
  rewrite (suppress_id Hx). now rewrite IH.
Qed.

Lemma insert_sorted_perm x l : Permutation (insert_sorted x l) (x :: l).
Proof.
  induction l as [|y l IH]; simpl; [reflexivity|].
  destruct (comparefn y x <? Fin 0); [|reflexivity].
  rewrite IH. apply perm_swap.
Qed.

Lemma sort_perm l : Permutation (sort l) l.
Proof.
  induction l as [|x l IH]; simpl; [reflexivity|].
  rewrite insert_sorted_perm. now constructor.
Qed.

Lemma pairwise_perm l l' :
  Permutation l l' -> ForallOrdPairs compatible l -> ForallOrdPairs compatible l'.
Proof.
  induction 1 as [| x l l' Hp IH | x y l | l l' l'' _ IH1 _ IH2]; intros H.
  - exact H.
  - inversion H; subst. constructor; [|auto].
    eapply Permutation_Forall; eauto.
  - inversion H as [|? ? Hy H']; subst. inversion H' as [|? ? Hx H'']; subst.
    inversion Hy; subst.
    constructor; [constructor; [now apply compatible_sym | assumption]|].
    constructor; assumption.
  - auto.
Qed.

Lemma pairwise_nth l :
  ForallOrdPairs compatible l ->
  forall i j a b, i <> j ->
    nth_error l i = Some a -> nth_error l j = Some b -> compatible a b.
Proof.
  induction 1 as [|x l Hx _ IH]; intros i j a b Hne Ha Hb.
  - destruct i; discriminate.
  - rewrite Forall_forall in Hx.
    destruct i as [|i], j as [|j]; simpl in *.
    + congruence.
    + inversion Ha; subst. apply Hx. eapply nth_error_In; eauto.
    + inversion Hb; subst. apply compatible_sym, Hx. eapply nth_error_In; eauto.
    + eapply (IH i j); eauto.
Qed.

Lemma nms_pairwise l : ForallOrdPairs compatible (nms thresh l).
Proof.
  destruct l; simpl; [constructor | apply nms_loop_pairwise].
Qed.

Lemma nms_idem_perm l : Permutation (nms thresh (nms thresh l)) (nms thresh l).
Proof.
  pose proof (nms_pairwise l) as Hp.
  destruct (nms thresh l) as [|k keep] eqn:E; [reflexivity|].
  unfold nms.
  rewrite nms_loop_fixpoint.
  - apply sort_perm.
  - eapply pairwise_perm; [symmetry; apply sort_perm | exact Hp].
Qed.

End Threshold.
End NmsFacts.
Import NmsFacts.

Module SortFacts.
Import SCRFD.

(** The comparator is negative exactly when its first argument has the
    strictly greater score. *)
Lemma sub_ltb_zero a b : (a - b <? Fin 0) = (a <? b).
Proof.
  destruct a as [x| | |], b as [y| | |]; try reflexivity.
  apply eq_true_iff_eq. unfold Num.sub, Num.neg, Num.add.
  rewrite !ltb_Fin. split; intros H; lra.
Qed.

Lemma comparefn_ltb x y : (comparefn y x <? Fin 0) = (score x <? score y).
Proof. unfold comparefn. apply sub_ltb_zero. Qed.

Lemma ltb_asym a b : (a <? b) = true -> (b <? a) = false.
Proof.
  unfold Num.ltb. rewrite (cmp_antisym a b).
  destruct (Num.cmp a b) as [[]|]; simpl; congruence.
Qed.

Lemma not_ltb_trans a b c :
  b <> NaN -> (a <? b) = false -> (b <? c) = false -> (a <? c) = false.
Proof.
  intros Hb.
  destruct a as [x| | |], b as [y| | |], c as [z| | |];
    try reflexivity; try discriminate; try congruence.
  rewrite !ltb_Fin_false. intros H1 H2. lra.
Qed.

Lemma insert_sorted_strongly x l :
  scored x -> Forall scored l ->
  StronglySorted notBefore l -> StronglySorted notBefore (insert_sorted x l).
Proof.
  intros Hx Hl Hs. induction Hs as [|y l Hs IH Hy]; simpl.
  - repeat constructor.
  - inversion Hl as [|? ? Hsy Hl']; subst.
    destruct (comparefn y x <? Fin 0) eqn:E.
    + constructor; [apply IH; assumption|].
      eapply Permutation_Forall; [symmetry; apply insert_sorted_perm|].
      constructor; [|exact Hy].
      unfold notBefore. rewrite comparefn_ltb in *. now apply ltb_asym.
    + constructor; [constructor; assumption|].
      constructor; [exact E|].
      eapply Forall_impl; [|exact Hy].
      intros z Hz. unfold notBefore in *. rewrite comparefn_ltb in *.
      eapply not_ltb_trans; eauto.
Qed.

Lemma sort_strongly l :
  Forall scored l -> StronglySorted notBefore (sort l).
Proof.
  induction 1 as [|x l Hx Hl IH]; simpl; [constructor|].
  apply insert_sorted_strongly; [exact Hx | | exact IH].
  eapply Permutation_Forall; [symmetry; apply sort_perm | exact Hl].
Qed.

Lemma sort_sorted_id l : StronglySorted notBefore l -> sort l = l.
Proof.
  induction 1 as [|x l Hs IH Hx]; simpl; [reflexivity|].
  rewrite IH. destruct l as [|y l]; [reflexivity|].
  simpl. inversion Hx as [|? ? Hxy _]; subst.
  unfold notBefore in Hxy. now rewrite Hxy.
Qed.

Lemma filter_strongly {A} (R : A -> A -> Prop) f l :
  StronglySorted R l -> StronglySorted R (filter f l).
Proof.
  induction 1 as [|x l Hs IH Hx]; simpl; [constructor|].
  assert (Forall (R x) (filter f l)).
  { apply Forall_forall. intros y Hy. apply filter_In in Hy.
    rewrite Forall_forall in Hx. apply Hx. tauto. }
  destruct (f x); [constructor; assumption | exact IH].
Qed.

Lemma nms_loop_strongly thresh objects :
  StronglySorted notBefore objects ->
  StronglySorted notBefore (nms_loop thresh objects).
Proof.
  funelim (nms_loop thresh objects); intros Hs; [constructor|].
  inversion Hs as [|? ? Hrest Hc]; subst.
  constructor.
  - match goal with IH : StronglySorted _ _ -> _ |- _ => apply IH end.
    now apply filter_strongly.
  - apply Forall_forall. intros y Hy.
    apply nms_loop_incl in Hy. apply suppress_In in Hy.
    rewrite Forall_forall in Hc. apply Hc. tauto.
Qed.

Lemma nms_rerun_identity thresh l :
  Forall scored l -> nms thresh (nms thresh l) = nms thresh l.
Proof.
  intros Hl.
  pose proof (nms_pairwise thresh l) as Hp.
  assert (Hs : StronglySorted notBefore (nms thresh l)).
  { destruct l; [constructor|]. unfold nms.
    apply nms_loop_strongly. now apply sort_strongly. }
  destruct (nms thresh l) as [|k keep]; [reflexivity|].
  unfold nms. rewrite (sort_sorted_id Hs).
  now apply nms_loop_fixpoint.
Qed.

End SortFacts.
Import SortFacts.

(** C6.  Running [nms] on its own output returns the same detections:
    the same list up to order for any input, and the very same list when
    no score is [NaN] (as is the case of every score that passed the
    threshold test).  The reason is that no two kept detections have an
    IoU above the threshold, in either order of the pair.  The detector's
    threshold is 0.4; the statement holds for any. *)
Theorem nms_idempotent (thresh : num) (l : list Detection) :
  Permutation (SCRFD.nms thresh (SCRFD.nms thresh l)) (SCRFD.nms thresh l) /\
  ForallOrdPairs
    (fun a b => (SCRFD.iou (bbox a) (bbox b) >? thresh) = false /\
                (SCRFD.iou (bbox b) (bbox a) >? thresh) = false)
    (SCRFD.nms thresh l) /\
  (Forall SCRFD.scored l ->
   SCRFD.nms thresh (SCRFD.nms thresh l) = SCRFD.nms thresh l).
Proof.
  split; [apply nms_idem_perm | split; [|apply nms_rerun_identity]].
  pose proof (nms_pairwise thresh l) as H.
  induction H as [|a keep Ha _ IH]; constructor; [|exact IH].
  eapply Forall_impl; [|exact Ha].
  intros b Hab. split; [exact Hab | now apply compatible_sym].
Qed.

Lemma nms_idempotent_witness :
  SCRFD.nms (Fin 0.4) (SCRFD.nms (Fin 0.4) Scenario.overlapping) =
  SCRFD.nms (Fin 0.4) Scenario.overlapping.
Proof.
  apply (proj2 (proj2 (nms_idempotent (Fin 0.4) Scenario.overlapping))).
  repeat constructor; discriminate.
Defined.

(** ** The challenge state machine *)

Module MachineFacts.
Import Liveness Session.

Lemma warmup_state env e : state (fst (warmup env e)) = state e.
Proof.
  unfold warmup. destruct (modelsLoaded e); [reflexivity|].
  destruct (detectorModel env); [|reflexivity].
  destruct (landmarkModel env); reflexivity.
Qed.

Lemma acceptFrame_detection M st d : detection (snd (acceptFrame M st d)) = Some d.
Proof.
  unfold acceptFrame. destruct (observeFrame M st d) as [st1 m].
  destruct (evaluateStage st1 m). reflexivity.
Qed.

Ltac skipped_frame :=
  apply FrameSkipped; unfold frameStep, frameResult, processFrame;
  repeat match goal with
         | H : _ = _ |- _ => rewrite H
         end;
  cbn;
  [ reflexivity
  | intros r Hr; inversion Hr; eexists; reflexivity
  | try reflexivity ].

Lemma processFrame_cases env e element : FrameCase env e element.
Proof.
  pose proof (warmup_state env e) as Hw.
  destruct (active (state e)) eqn:Ha.
  2:{ clear Hw. skipped_frame. }
  destruct (warmup env e) as [e1 [[]|err]] eqn:Ew; simpl in Hw.
  2:{ apply FrameSkipped; unfold frameStep, frameResult, processFrame;
      rewrite Ha, Ew; cbn; [reflexivity | discriminate | now rewrite Hw]. }
  destruct (SCRFD.detectFromElement (detector e1) (kpsStage env) element
              (detectionThreshold e1)) as [[d' dets]|err] eqn:Ed.
  2:{ apply FrameSkipped; unfold frameStep, frameResult, processFrame;
      rewrite Ha, Ew, Ed; cbn; [reflexivity | discriminate | now rewrite Hw]. }
  destruct dets as [|primary [|second more]].
  - apply FrameSkipped; unfold frameStep, frameResult, processFrame;
      rewrite Ha, Ew, Ed; cbn;
      [reflexivity | intros r Hr; inversion Hr; eexists; reflexivity
      | now rewrite Hw].
  - destruct (estimate (landmarkEstimator (set_detector e1 d')) element
                (bbox primary)) as [[est|]|err] eqn:Ee.
    + set (d := {| det := primary; landmarks := est_landmarks est;
                   pose := est_pose est |}).
      assert (Hd := acceptFrame_detection (jsMath env) (state e) d).
      apply (@FrameAccepted env e element d); [exact Ha | | |];
        unfold frameStep, frameResult, processFrame; rewrite Ha, Ew, Ed;
        cbv zeta; rewrite Ee; simpl state; rewrite Hw; fold d;
        destruct (acceptFrame (jsMath env) (state e) d) as [st r];
        simpl in *; auto.
    + apply FrameSkipped; unfold frameStep, frameResult, processFrame;
        rewrite Ha, Ew, Ed; cbv zeta; rewrite Ee; cbn;
        [reflexivity | intros r Hr; inversion Hr; eexists; reflexivity
        | now rewrite Hw].
    + apply FrameSkipped; unfold frameStep, frameResult, processFrame;
        rewrite Ha, Ew, Ed; cbv zeta; rewrite Ee; cbn;
        [reflexivity | discriminate | now rewrite Hw].
  - apply FrameSkipped; unfold frameStep, frameResult, processFrame;
      rewrite Ha, Ew, Ed; cbn;
      [reflexivity | intros r Hr; inversion Hr; eexists; reflexivity
      | now rewrite Hw].
Qed.

(** *** [evaluateStage] *)

Lemma stage_key_at i stg :
  nth_error LIVENESS_STAGES i = Some stg ->
  nth_error [nod; shake; blink; mouth] i = Some (key stg).
Proof.
  destruct i as [|[|[|[|i]]]]; simpl; intros H; inversion H; try reflexivity.
  destruct i; discriminate.
Qed.

Ltac eval_stage st m :=
  unfold evaluateStage, currentPredicate;
  let stg := fresh "stg" in
  let E := fresh "Estg" in
  destruct (nth_error LIVENESS_STAGES (stageIndex st)) as [stg|] eqn:E;
  [ destruct (check stg m st); cbv zeta; cbn [negb];
    [ destruct (key stg) eqn:?; cbn [fst snd];
      match goal with
      | |- context [Nat.leb ?a ?b] => destruct (Nat.leb a b) eqn:?
      end
    | ]
  | ]; cbn.

Lemma evaluateStage_index st m :
  stageIndex (fst (evaluateStage st m)) =
  (stageIndex st + (if currentPredicate st m then 1 else 0))%nat.
Proof. eval_stage st m; lia. Qed.

Lemma evaluateStage_report st m :
  justCompletedIndex (snd (evaluateStage st m)) =
    (if currentPredicate st m then Some (stageIndex st) else None) /\
  justCompletedStage (snd (evaluateStage st m)) =
    (if currentPredicate st m
     then nth_error [nod; shake; blink; mouth] (stageIndex st) else None).
Proof.
  eval_stage st m; auto; rewrite (stage_key_at _ Estg); split; congruence.
Qed.

Lemma evaluateStage_evidence st m :
  let st' := fst (evaluateStage st m) in
  nodRange st' = (if completes st m nod then emptyRange else nodRange st) /\
  shakeRange st' = (if completes st m shake then emptyRange else shakeRange st) /\
  blinkState st' =
    (if completes st m blink
     then {| blinkClosedDetected := false; blinkOpenDetected := false;
             eyeAvg := eyeAvg (blinkState st) |}
     else blinkState st) /\
  mouthState st' =
    (if completes st m mouth
     then {| mouthOpenDetected := false; mouthClosedDetected := false |}
     else mouthState st).
Proof.
  unfold completes. eval_stage st m; rewrite ?Heql; cbn; auto.
Qed.

Lemma evaluateStage_eyeAvg st m :
  eyeAvg (blinkState (fst (evaluateStage st m))) = eyeAvg (blinkState st).
Proof.
  destruct (evaluateStage_evidence st m) as (_ & _ & Hb & _).
  rewrite Hb. now destruct (completes st m blink).
Qed.

(** *** [observeFrame] *)

Lemma updateBlinkAverage_frame r st :
  updateBlinkAverage r st = set_blinkState st (blinkState (updateBlinkAverage r st)).
Proof.
  unfold updateBlinkAverage. destruct st; simpl.
  destruct r as [r|]; [|reflexivity].
  destruct (negb (Num.isFinite r)); [reflexivity|].
  destruct (negb _); [reflexivity|].
  destruct (_ || _); [reflexivity|].
  destruct (eyeAvg _); reflexivity.
Qed.

Lemma updateBlinkAverage_local r st st0 :
  blinkState st = blinkState st0 ->
  blinkState (updateBlinkAverage r st) = blinkState (updateBlinkAverage r st0).
Proof.
  intros H. unfold updateBlinkAverage.
  destruct r as [r|]; [|exact H].
  destruct (negb (Num.isFinite r)); [exact H|].
  rewrite H.
  destruct (negb _); [reflexivity|].
  destruct (_ || _); [exact H|].
  destruct (eyeAvg _); [reflexivity | exact H].
Qed.

Lemma updateBlinkState_frame bm st :
  updateBlinkState bm st = set_blinkState st (blinkNext bm (blinkState st)).
Proof.
  unfold blinkNext, updateBlinkState.
  destruct bm as [m|]; [|destruct st; reflexivity].
  cbv zeta.
  match goal with
  | |- updateBlinkAverage ?r ?s1 =
       set_blinkState st (blinkState (updateBlinkAverage ?r ?s2)) =>
      rewrite (updateBlinkAverage_frame r s1);
      rewrite (@updateBlinkAverage_local r s1 s2) by reflexivity
  end.
  destruct st; reflexivity.
Qed.

Lemma updateMouthState_frame r st :
  updateMouthState r st = set_mouthState st (mouthNext r (mouthState st)).
Proof.
  unfold mouthNext, updateMouthState.
  destruct r as [r|]; [|destruct st; reflexivity].
  destruct (negb (Num.isFinite r)); [destruct st; reflexivity|].
  destruct (Num.gtb r mouthThreshold); destruct st; reflexivity.
Qed.

Lemma observeFrame_state M st d :
  let st' := fst (observeFrame M st d) in
  active st' = active st /\ stageIndex st' = stageIndex st /\
  progress st' = progress st /\ completed st' = completed st /\
  nodRange st' = updateRangeState (nodRange st) (computeNodRatio (Some d)) /\
  shakeRange st' = updateRangeState (shakeRange st) (computeShakeRatio (Some d)) /\
  blinkState st' = blinkNext (computeBlinkRatios (Some d)) (blinkState st) /\
  mouthState st' = mouthNext (computeMouthRatio (Some d)) (mouthState st).
Proof.
  unfold observeFrame. cbv zeta.
  rewrite updateBlinkState_frame, updateMouthState_frame.
  simpl. repeat split; reflexivity.
Qed.

Lemma acceptFrame_state M st d :
  fst (acceptFrame M st d) =
  fst (evaluateStage (fst (observeFrame M st d)) (snd (observeFrame M st d))).
Proof.
  unfold acceptFrame. destruct (observeFrame M st d) as [st1 m].
  simpl. destruct (evaluateStage st1 m). reflexivity.
Qed.

Lemma acceptFrame_stage M st d :
  stage (snd (acceptFrame M st d)) =
  snd (evaluateStage (fst (observeFrame M st d)) (snd (observeFrame M st d))).
Proof.
  unfold acceptFrame. destruct (observeFrame M st d) as [st1 m].
  simpl. destruct (evaluateStage st1 m). reflexivity.
Qed.

Lemma frameStep_index_le env e element :
  (stageIndex (state e) <= stageIndex (state (frameStep env e element)))%nat.
Proof.
  destruct (processFrame_cases env e element) as [_ _ Hm | d _ _ _ Hst].
  - apply (f_equal mStageIndex) in Hm. simpl in Hm. lia.
  - rewrite Hst, acceptFrame_state, evaluateStage_index.
    destruct (observeFrame_state (jsMath env) (state e) d) as (_ & -> & _).
    lia.
Qed.

Lemma runFrames_monotone env elements : forall e,
  (stageIndex (state e) <= stageIndex (state (runFrames env e elements)))%nat.
Proof.
  induction elements as [|element rest IH]; intros e; simpl; [lia|].
  specialize (IH (frameStep env e element)).
  pose proof (frameStep_index_le env e element).
  unfold runFrames in *. lia.
Qed.

(** *** [processFrame] in terms of what the two models answer *)

Lemma processFrame_accepted env e element e1 d' primary est :
  active (state e) = true ->
  warmup env e = (e1, Ok tt) ->
  SCRFD.detectFromElement (detector e1) (kpsStage env) element
    (detectionThreshold e1) = Ok (d', [primary]) ->
  estimate (landmarkEstimator e1) element (bbox primary) = Ok (Some est) ->
  let d := {| det := primary; landmarks := est_landmarks est;
              pose := est_pose est |} in
  state (frameStep env e element) = fst (acceptFrame (jsMath env) (state e) d) /\
  frameResult env e element = Ok (snd (acceptFrame (jsMath env) (state e) d)).
Proof.
  intros Ha Hw Hd He d.
  pose proof (warmup_state env e) as Hs. rewrite Hw in Hs. simpl in Hs.
  unfold frameStep, frameResult, processFrame. rewrite Ha, Hw, Hd.
  cbv zeta. cbn [negb landmarkEstimator set_detector]. rewrite He.
  cbn [state set_detector]. rewrite Hs. fold d.
  destruct (acceptFrame (jsMath env) (state e) d) as [st r]. split; reflexivity.
Qed.

Lemma frameStep_moved env e element :
  stageIndex (state (frameStep env e element)) <> stageIndex (state e) ->
  exists e1 d' primary est,
    active (state e) = true /\
    warmup env e = (e1, Ok tt) /\
    SCRFD.detectFromElement (detector e1) (kpsStage env) element
      (detectionThreshold e1) = Ok (d', [primary]) /\
    estimate (landmarkEstimator e1) element (bbox primary) = Ok (Some est).
Proof.
  intros Hmove.
  pose proof (warmup_state env e) as Hs.
  unfold frameStep, processFrame in Hmove.
  destruct (active (state e)) eqn:Ha; [|exfalso; apply Hmove; reflexivity].
  cbn [negb] in Hmove.
  destruct (warmup env e) as [e1 [[]|err]] eqn:Hw; simpl in Hs;
    [|exfalso; apply Hmove; simpl; now rewrite Hs].
  destruct (SCRFD.detectFromElement (detector e1) (kpsStage env) element
              (detectionThreshold e1)) as [[d' dets]|err] eqn:Hd;
    [|exfalso; apply Hmove; simpl; now rewrite Hs].
  destruct dets as [|primary [|second more]];
    try (exfalso; apply Hmove; simpl; now rewrite Hs).
  cbv zeta in Hmove. cbn [landmarkEstimator set_detector] in Hmove.
  destruct (estimate (landmarkEstimator e1) element (bbox primary))
    as [[est|]|err] eqn:He;
    try (exfalso; apply Hmove; simpl; now rewrite Hs).
  exists e1, d', primary, est. repeat split; assumption.
Qed.

End MachineFacts.

Import Liveness Session MachineFacts.

(** C4.  A call of [processFrame] in an active session on which the
    detector returns exactly one detection and the landmark estimator
    returns landmarks evaluates the predicate of the current stage on the
    state and metrics observed from that frame: the stage index goes up by
    exactly one when the predicate holds and stays when it does not, and the
    stage reported as just completed is the one at the index before the
    call, so stages complete in the list order nod, shake, blink, mouth.
    On every other call the index stays; it never decreases over a
    sequence of frames. *)
Theorem stage_index_steps_in_order (env : Environment) (e : Engine) :
  (forall element e1 d' primary est,
     active (state e) = true ->
     warmup env e = (e1, Ok tt) ->
     SCRFD.detectFromElement (detector e1) (kpsStage env) element
       (detectionThreshold e1) = Ok (d', [primary]) ->
     estimate (landmarkEstimator e1) element (bbox primary) = Ok (Some est) ->
     let d := {| det := primary; landmarks := est_landmarks est;
                 pose := est_pose est |} in
     let st1 := fst (observeFrame (jsMath env) (state e) d) in
     let m := snd (observeFrame (jsMath env) (state e) d) in
     stageIndex (state (frameStep env e element)) =
       (stageIndex (state e) + (if currentPredicate st1 m then 1 else 0))%nat /\
     exists r,
       frameResult env e element = Ok r /\
       detection r = Some d /\ metrics r = Some m /\
       justCompletedIndex (stage r) =
         (if currentPredicate st1 m then Some (stageIndex (state e)) else None) /\
       justCompletedStage (stage r) =
         (if currentPredicate st1 m
          then nth_error [nod; shake; blink; mouth] (stageIndex (state e))
          else None)) /\
  (forall element,
     stageIndex (state (frameStep env e element)) <> stageIndex (state e) ->
     exists e1 d' primary est,
       active (state e) = true /\
       warmup env e = (e1, Ok tt) /\
       SCRFD.detectFromElement (detector e1) (kpsStage env) element
         (detectionThreshold e1) = Ok (d', [primary]) /\
       estimate (landmarkEstimator e1) element (bbox primary) = Ok (Some est) /\
       let d := {| det := primary; landmarks := est_landmarks est;
                   pose := est_pose est |} in
       currentPredicate (fst (observeFrame (jsMath env) (state e) d))
                        (snd (observeFrame (jsMath env) (state e) d)) = true /\
       stageIndex (state (frameStep env e element)) = S (stageIndex (state e))) /\
  (forall elements,
     (stageIndex (state e) <= stageIndex (state (runFrames env e elements)))%nat).
Proof.
  assert (Hstep : forall element e1 d' primary est,
     active (state e) = true ->
     warmup env e = (e1, Ok tt) ->
     SCRFD.detectFromElement (detector e1) (kpsStage env) element
       (detectionThreshold e1) = Ok (d', [primary]) ->
     estimate (landmarkEstimator e1) element (bbox primary) = Ok (Some est) ->
     let d := {| det := primary; landmarks := est_landmarks est;
                 pose := est_pose est |} in
     stageIndex (state (frameStep env e element)) =
       (stageIndex (state e) +
        (if currentPredicate (fst (observeFrame (jsMath env) (state e) d))
                             (snd (observeFrame (jsMath env) (state e) d))
         then 1 else 0))%nat).
  { intros element e1 d' primary est Ha Hw Hd He d.
    destruct (@processFrame_accepted env e element e1 d' primary est Ha Hw Hd He)
      as [Hst _].
    fold d in Hst.
    destruct (observeFrame_state (jsMath env) (state e) d) as (_ & Hi & _).
    rewrite Hst, acceptFrame_state, evaluateStage_index, Hi. reflexivity. }
  split; [|split].
  - intros element e1 d' primary est Ha Hw Hd He d st1 m.
    destruct (@processFrame_accepted env e element e1 d' primary est Ha Hw Hd He)
      as [Hst Hres].
    fold d in Hst, Hres.
    destruct (observeFrame_state (jsMath env) (state e) d) as (_ & Hi & _).
    fold st1 in Hi. split.
    + rewrite Hst, acceptFrame_state. fold st1 m.
      rewrite evaluateStage_index, Hi. reflexivity.
    + exists (snd (acceptFrame (jsMath env) (state e) d)).
      split; [exact Hres|]. split; [apply acceptFrame_detection|].
      split.
      * unfold acceptFrame. fold st1 m.
        replace (observeFrame (jsMath env) (state e) d) with (st1, m)
          by (unfold st1, m; now destruct (observeFrame (jsMath env) (state e) d)).
        now destruct (evaluateStage st1 m).
      * rewrite acceptFrame_stage. fold st1 m. rewrite <- Hi.
        apply evaluateStage_report.
  - intros element Hmove.
    destruct (@frameStep_moved env e element Hmove) as (e1 & d' & primary & est & Ha & Hw & Hd & He).
    exists e1, d', primary, est. repeat split; try assumption.
    + pose proof (Hstep element e1 d' primary est Ha Hw Hd He) as H.
      cbv zeta in H.
      match type of H with
      | context [if ?c then _ else _] => destruct c; [reflexivity|]
      end.
      exfalso. apply Hmove. rewrite H. lia.
    + pose proof (Hstep element e1 d' primary est Ha Hw Hd He) as H.
      cbv zeta in H.
      match type of H with
      | context [if ?c then _ else _] => destruct c
      end.
      * rewrite H. lia.
      * exfalso. apply Hmove. rewrite H. lia.
  - intros elements. apply runFrames_monotone.
Qed.

Lemma stage_index_witness :
  let e := runFrames Scenario.env Scenario.engine0 [Scenario.frame 1] in
  stageIndex (state e) = 0%nat /\
  stageIndex (state (frameStep Scenario.env e (Scenario.frame 2))) = 1%nat /\
  stageIndex (state (frameStep Scenario.env e (Scenario.frame 1))) = 0%nat.
Proof.
  intros e. split; [vm_compute; reflexivity|]. split.
  - edestruct (proj1 (stage_index_steps_in_order Scenario.env e)
                 (Scenario.frame 2)) as [H _].
    + vm_compute. reflexivity.
    + vm_compute. reflexivity.
    + vm_compute. reflexivity.
    + vm_compute. reflexivity.
    + rewrite H. vm_compute. reflexivity.
  - edestruct (proj1 (stage_index_steps_in_order Scenario.env e)
                 (Scenario.frame 1)) as [H _].
    + vm_compute. reflexivity.
    + vm_compute. reflexivity.
    + vm_compute. reflexivity.
    + vm_compute. reflexivity.
    + rewrite H. vm_compute. reflexivity.
Defined.

(** C5.  A frame on which the detector returns more than one detection is
    reported with [multiFaceDetected], without detection or metrics, and
    leaves the stage machine exactly as it was. *)
Theorem multiple_faces_leave_machine_untouched (env : Environment) (e e1 : Engine)
    (element : InputElement) (d' : SCRFD.Detector) (dets : list Detection) :
  active (state e) = true ->
  warmup env e = (e1, Ok tt) ->
  SCRFD.detectFromElement (detector e1) (kpsStage env) element
    (detectionThreshold e1) = Ok (d', dets) ->
  (1 < List.length dets)%nat ->
  exists r,
    frameResult env e element = Ok r /\
    multiFaceDetected r = true /\ detection r = None /\ metrics r = None /\
    machine (state (frameStep env e element)) = machine (state e).
Proof.
  intros Ha Hw Hd Hlen.
  pose proof (warmup_state env e) as Hs. rewrite Hw in Hs. simpl in Hs.
  destruct dets as [|a [|b more]]; simpl in Hlen; try lia.
  unfold frameResult, frameStep, processFrame. rewrite Ha, Hw, Hd. cbn.
  eexists. repeat split. now rewrite Hs.
Qed.

Lemma multiple_faces_witness :
  exists r,
    frameResult Scenario.env Scenario.engine0 (Scenario.frame 6) = Ok r /\
    multiFaceDetected r = true /\ detection r = None /\ metrics r = None /\
    machine (state (frameStep Scenario.env Scenario.engine0 (Scenario.frame 6))) =
    machine (state Scenario.engine0).
Proof.
  eapply (@multiple_faces_leave_machine_untouched Scenario.env Scenario.engine0).
  - reflexivity.
  - vm_compute. reflexivity.
  - vm_compute. reflexivity.
  - vm_compute. lia.
Defined.

Module BlinkFacts.

Lemma inBand_finite o : inBand o -> finite_or_null o = true.
Proof. intros (q & -> & _). reflexivity. Qed.

Lemma updateBlinkAverage_band r st :
  inBand (eyeAvg (blinkState st)) ->
  inBand (eyeAvg (blinkState (updateBlinkAverage r st))).
Proof.
  intros Hb. unfold updateBlinkAverage.
  destruct r as [r|]; [|exact Hb].
  destruct (Num.isFinite r) eqn:Hr; simpl; [|exact Hb].
  rewrite (inBand_finite Hb). simpl.
  destruct (Num.ltb r BLINK_THRESHOLD_LOW) eqn:Hlo; simpl; [exact Hb|].
  destruct (Num.gtb r BLINK_THRESHOLD_HIGH) eqn:Hhi; simpl; [exact Hb|].
  destruct Hb as (q & Hq & Hlo' & Hhi'). rewrite Hq. simpl.
  destruct r as [a| | |]; try discriminate.
  apply ltb_Fin_false in Hlo. unfold Num.gtb in Hhi. apply ltb_Fin_false in Hhi.
  exists (a * 0.1 + q * 0.9)%Q. split; [reflexivity|]. lra.
Qed.

Lemma blinkNext_band bm b : inBand (eyeAvg b) -> inBand (eyeAvg (blinkNext bm b)).
Proof.
  intros Hb. unfold blinkNext, updateBlinkState.
  destruct bm as [m|]; [|exact Hb].
  cbv zeta. apply updateBlinkAverage_band. simpl.
  now rewrite (inBand_finite Hb).
Qed.

Lemma frameStep_band env e element :
  inBand (eyeAvg (blinkState (state e))) ->
  inBand (eyeAvg (blinkState (state (frameStep env e element)))).
Proof.
  intros Hb.
  destruct (processFrame_cases env e element) as [_ _ Hm | d _ _ _ Hst].
  - apply (f_equal mBlink) in Hm. simpl in Hm. now rewrite Hm.
  - rewrite Hst, acceptFrame_state, evaluateStage_eyeAvg.
    destruct (observeFrame_state (jsMath env) (state e) d)
      as (_ & _ & _ & _ & _ & _ & -> & _).
    now apply blinkNext_band.
Qed.

Lemma call_band env e c :
  inBand (eyeAvg (blinkState (state e))) ->
  inBand (eyeAvg (blinkState (state (call env e c)))).
Proof.
  destruct c as [element| |]; simpl.
  - apply frameStep_band.
  - intros _. exists 10%Q. split; [reflexivity | lra].
  - trivial.
Qed.

Lemma runCalls_band env cs : forall e,
  inBand (eyeAvg (blinkState (state e))) ->
  inBand (eyeAvg (blinkState (state (runCalls env e cs)))).
Proof.
  induction cs as [|c cs IH]; intros e Hb; simpl; [exact Hb|].
  apply IH. now apply call_band.
Qed.

End BlinkFacts.
Import BlinkFacts.

(** C10.  The adaptive blink threshold is 10 when a session starts; the
    moving average folds a ratio in only when the ratio is finite and lies
    between 5 and 20; and whatever calls are made on an engine, the
    threshold is a finite number between 5 and 20. *)
Theorem blink_threshold_stays_in_band (env : Environment)
    (threshold : option num) (calls : list ApiCall) :
  (forall e, eyeAvg (blinkState (state (startSession e))) = Some INITIAL_BLINK_AVG) /\
  (forall st closed opened (q : Q) r,
     eyeAvg (blinkState (updateBlinkAverage (Some r)
       (set_blinkState st {| blinkClosedDetected := closed;
                             blinkOpenDetected := opened;
                             eyeAvg := Some (Fin q) |}))) =
     Some (if Num.isFinite r && Num.leb BLINK_THRESHOLD_LOW r
              && Num.leb r BLINK_THRESHOLD_HIGH
           then r * BLINK_AVG_CURRENT + Fin q * BLINK_AVG_PREVIOUS
           else Fin q)) /\
  inBand (eyeAvg (blinkState (state (runCalls env (createEngine threshold) calls)))).
Proof.
  split; [reflexivity | split].
  - intros st closed opened q r. unfold updateBlinkAverage.
    destruct r as [a| | |]; try reflexivity.
    cbn -[Num.ltb Num.gtb Num.leb Num.mul Num.add].
    unfold Num.gtb, BLINK_THRESHOLD_LOW, BLINK_THRESHOLD_HIGH.
    rewrite !ltb_negb_leb.
    destruct (Num.leb (Fin 5) (Fin a)), (Num.leb (Fin a) (Fin 20)); reflexivity.
  - apply runCalls_band. exists 10%Q. split; [reflexivity | lra].
Qed.

Module ObservationFacts.

Lemma blinkThreshold_eq st :
  blinkThreshold st =
  match (if negb (finite_or_null (eyeAvg (blinkState st)))
         then Some INITIAL_BLINK_AVG else eyeAvg (blinkState st)) with
  | Some t => t
  | None => NaN
  end.
Proof.
  unfold blinkThreshold. destruct (eyeAvg (blinkState st)) as [t|]; simpl; [|reflexivity].
  now destruct (Num.isFinite t).
Qed.

Lemma updateBlinkAverage_flags r st :
  blinkClosedDetected (blinkState (updateBlinkAverage r st)) =
    blinkClosedDetected (blinkState st) /\
  blinkOpenDetected (blinkState (updateBlinkAverage r st)) =
    blinkOpenDetected (blinkState st).
Proof.
  unfold updateBlinkAverage.
  destruct r as [r|]; [|auto].
  destruct (negb (Num.isFinite r)); [auto|].
  destruct (negb _); [auto|].
  destruct (_ || _); [auto|].
  destruct (eyeAvg _); auto.
Qed.

Lemma updateBlinkState_closed bm st :
  blinkClosedDetected (blinkState (updateBlinkState bm st)) =
  match bm with
  | Some m => if blinkClosedNow m (blinkThreshold st) then true
              else blinkClosedDetected (blinkState st)
  | None => blinkClosedDetected (blinkState st)
  end.
Proof.
  unfold updateBlinkState. destruct bm as [m|]; [|reflexivity].
  cbv zeta. rewrite (proj1 (updateBlinkAverage_flags _ _)). simpl.
  now rewrite blinkThreshold_eq.
Qed.

Lemma updateMouthState_closed r st :
  mouthClosedDetected (mouthState (updateMouthState r st)) =
  match r with
  | Some v => if Num.isFinite v && negb (Num.gtb v mouthThreshold) then true
              else mouthClosedDetected (mouthState st)
  | None => mouthClosedDetected (mouthState st)
  end.
Proof.
  unfold updateMouthState. destruct r as [v|]; [|reflexivity].
  destruct (Num.isFinite v); simpl; [|reflexivity].
  now destruct (Num.gtb v mouthThreshold).
Qed.

Lemma updateBlinkState_open bm st :
  blinkOpenDetected (blinkState (updateBlinkState bm st)) =
  match bm with
  | Some m => if blinkOpenNow m (blinkThreshold st) then true
              else blinkOpenDetected (blinkState st)
  | None => blinkOpenDetected (blinkState st)
  end.
Proof.
  unfold updateBlinkState. destruct bm as [m|]; [|reflexivity].
  cbv zeta. rewrite (proj2 (updateBlinkAverage_flags _ _)). simpl.
  now rewrite blinkThreshold_eq.
Qed.

Lemma updateMouthState_open r st :
  mouthOpenDetected (mouthState (updateMouthState r st)) =
  match r with
  | Some v => if Num.isFinite v && Num.gtb v mouthThreshold then true
              else mouthOpenDetected (mouthState st)
  | None => mouthOpenDetected (mouthState st)
  end.
Proof.
  unfold updateMouthState. destruct r as [v|]; [|reflexivity].
  destruct (Num.isFinite v); simpl; [|reflexivity].
  now destruct (Num.gtb v mouthThreshold).
Qed.

(** The state that [observeFrame] hands to the stage predicate *)
Lemma observeFrame_blinkClosed M st d :
  blinkClosedDetected (blinkState (fst (observeFrame M st d))) =
  (blinkClosedObserved st d || blinkClosedDetected (blinkState st)).
Proof.
  destruct (observeFrame_state M st d) as (_ & _ & _ & _ & _ & _ & -> & _).
  unfold blinkNext.
  rewrite updateBlinkState_closed. unfold blinkClosedObserved.
  destruct (computeBlinkRatios (Some d)) as [m|]; simpl.
  - replace (blinkThreshold (set_blinkState createLivenessComputationState (blinkState st)))
      with (blinkThreshold st) by reflexivity.
    now destruct (blinkClosedNow m (blinkThreshold st)).
  - reflexivity.
Qed.

Lemma observeFrame_mouthClosed M st d :
  mouthClosedDetected (mouthState (fst (observeFrame M st d))) =
  (mouthClosedObserved d || mouthClosedDetected (mouthState st)).
Proof.
  destruct (observeFrame_state M st d) as (_ & _ & _ & _ & _ & _ & _ & ->).
  unfold mouthNext.
  rewrite updateMouthState_closed. unfold mouthClosedObserved.
  destruct (computeMouthRatio (Some d)) as [v|]; simpl; [|reflexivity].
  now destruct (Num.isFinite v && negb (Num.gtb v mouthThreshold)).
Qed.

Lemma observeFrame_blinkOpen M st d :
  blinkOpenDetected (blinkState (fst (observeFrame M st d))) =
  (blinkOpenObserved st d || blinkOpenDetected (blinkState st)).
Proof.
  destruct (observeFrame_state M st d) as (_ & _ & _ & _ & _ & _ & -> & _).
  unfold blinkNext.
  rewrite updateBlinkState_open. unfold blinkOpenObserved.
  destruct (computeBlinkRatios (Some d)) as [m|]; simpl.
  - replace (blinkThreshold (set_blinkState createLivenessComputationState (blinkState st)))
      with (blinkThreshold st) by reflexivity.
    now destruct (blinkOpenNow m (blinkThreshold st)).
  - reflexivity.
Qed.

Lemma observeFrame_mouthOpen M st d :
  mouthOpenDetected (mouthState (fst (observeFrame M st d))) =
  (mouthOpenObserved d || mouthOpenDetected (mouthState st)).
Proof.
  destruct (observeFrame_state M st d) as (_ & _ & _ & _ & _ & _ & _ & ->).
  unfold mouthNext.
  rewrite updateMouthState_open. unfold mouthOpenObserved.
  destruct (computeMouthRatio (Some d)) as [v|]; simpl; [|reflexivity].
  now destruct (Num.isFinite v && Num.gtb v mouthThreshold).
Qed.

Lemma stagePredicate_blink m st :
  stagePredicate blink m st =
  blinkClosedDetected (blinkState st) && blinkOpenDetected (blinkState st).
Proof. reflexivity. Qed.

Lemma stagePredicate_mouth m st :
  stagePredicate mouth m st =
  mouthClosedDetected (mouthState st) && mouthOpenDetected (mouthState st).
Proof. reflexivity. Qed.

Lemma currentPredicate_at st m i k :
  stageIndex st = i -> nth_error [nod; shake; blink; mouth] i = Some k ->
  currentPredicate st m = stagePredicate k m st.
Proof.
  intros <- Hk. unfold currentPredicate.
  destruct (stageIndex st) as [|[|[|[|n]]]]; simpl in *;
    inversion Hk; try reflexivity.
  destruct n; discriminate.
Qed.

Lemma evaluateStage_blinkClosed st m :
  blinkClosedDetected (blinkState st) = false ->
  blinkClosedDetected (blinkState (fst (evaluateStage st m))) = false.
Proof.
  intros H. destruct (evaluateStage_evidence st m) as (_ & _ & -> & _).
  now destruct (completes st m blink).
Qed.

Lemma evaluateStage_mouthClosed st m :
  mouthClosedDetected (mouthState st) = false ->
  mouthClosedDetected (mouthState (fst (evaluateStage st m))) = false.
Proof.
  intros H. destruct (evaluateStage_evidence st m) as (_ & _ & _ & ->).
  now destruct (completes st m mouth).
Qed.

Lemma evaluateStage_blinkOpen st m :
  blinkOpenDetected (blinkState st) = false ->
  blinkOpenDetected (blinkState (fst (evaluateStage st m))) = false.
Proof.
  intros H. destruct (evaluateStage_evidence st m) as (_ & _ & -> & _).
  now destruct (completes st m blink).
Qed.

Lemma evaluateStage_mouthOpen st m :
  mouthOpenDetected (mouthState st) = false ->
  mouthOpenDetected (mouthState (fst (evaluateStage st m))) = false.
Proof.
  intros H. destruct (evaluateStage_evidence st m) as (_ & _ & _ & ->).
  now destruct (completes st m mouth).
Qed.

Lemma evaluateStage_completed st m :
  (stageIndex (fst (evaluateStage st m)) <= 3)%nat ->
  completed (fst (evaluateStage st m)) = completed st.
Proof.
  eval_stage st m; intros Hle; try reflexivity.
  all: try (match goal with H : Nat.leb _ _ = true |- _ => apply Nat.leb_le in H end;
            cbn in *; lia).
  apply nth_error_None in Estg. cbn in Estg. lia.
Qed.

End ObservationFacts.
Import ObservationFacts.

Module StreamFacts.

Lemma acceptedTrace_skipped env e element rest :
  acceptedDetection (frameResult env e element) = None ->
  acceptedTrace env e (element :: rest) =
  acceptedTrace env (frameStep env e element) rest.
Proof. simpl. now intros ->. Qed.

Lemma acceptedTrace_accepted env e element rest d :
  acceptedDetection (frameResult env e element) = Some d ->
  acceptedTrace env e (element :: rest) =
  (state e, d) :: acceptedTrace env (frameStep env e element) rest.
Proof. simpl. now intros ->. Qed.

(** A flag that the blink predicate needs, that only an observation of
    its kind raises and that [evaluateStage] never raises: while no such
    observation is accepted the predicate is false and the session does not
    get past the blink stage. *)
Section BlinkFlag.
Variables (flag : BlinkState -> bool)
          (observed : LivenessComputationState -> DetectionWithLandmarks -> bool).
Hypothesis needed : forall m st,
  flag (blinkState st) = false -> stagePredicate blink m st = false.
Hypothesis raised : forall M st d,
  flag (blinkState (fst (observeFrame M st d))) =
  (observed st d || flag (blinkState st)).
Hypothesis kept : forall st m,
  flag (blinkState st) = false ->
  flag (blinkState (fst (evaluateStage st m))) = false.

Lemma blink_flag_never env elements : forall e,
  flag (blinkState (state e)) = false ->
  (stageIndex (state e) <= 2)%nat ->
  Forall (fun p => observed (fst p) (snd p) = false)
         (acceptedTrace env e elements) ->
  Forall (fun p => predicateAt (jsMath env) blink p = false)
         (acceptedTrace env e elements) /\
  (stageIndex (state (runFrames env e elements)) <= 2)%nat.
Proof.
  induction elements as [|element rest IH]; intros e Hc Hi Hobs.
  - split; [constructor | exact Hi].
  - destruct (processFrame_cases env e element) as [Hnone _ Hm | d _ _ Hacc Hst].
    + rewrite (@acceptedTrace_skipped env e element rest Hnone) in *.
      apply IH; try assumption.
      * apply (f_equal mBlink) in Hm. simpl in Hm. now rewrite Hm.
      * apply (f_equal mStageIndex) in Hm. simpl in Hm. now rewrite Hm.
    + rewrite (@acceptedTrace_accepted env e element rest d Hacc) in *.
      inversion Hobs as [|? ? Hd Hrest]; subst. cbn [fst snd] in Hd.
      pose proof (raised (jsMath env) (state e) d) as Hb.
      rewrite Hd, Hc in Hb. cbn [orb] in Hb.
      destruct (observeFrame_state (jsMath env) (state e) d) as (_ & Hidx & _).
      set (st1 := fst (observeFrame (jsMath env) (state e) d)) in *.
      set (m := snd (observeFrame (jsMath env) (state e) d)) in *.
      assert (Hp : stagePredicate blink m st1 = false) by now apply needed.
      assert (Hc' : flag (blinkState (state (frameStep env e element))) = false).
      { rewrite Hst, acceptFrame_state. now apply kept. }
      assert (Hi' : (stageIndex (state (frameStep env e element)) <= 2)%nat).
      { rewrite Hst, acceptFrame_state, evaluateStage_index. fold st1 m.
        destruct (Nat.eq_dec (stageIndex st1) 2) as [E|E].
        - rewrite (@currentPredicate_at st1 m 2 blink E eq_refl), Hp. lia.
        - destruct (currentPredicate st1 m); lia. }
      destruct (IH _ Hc' Hi' Hrest) as [Hf Hfinal].
      split; [constructor; assumption | exact Hfinal].
Qed.

End BlinkFlag.

(** The same for a flag of the mouth predicate *)
Section MouthFlag.
Variables (flag : MouthState -> bool)
          (observed : DetectionWithLandmarks -> bool).
Hypothesis needed : forall m st,
  flag (mouthState st) = false -> stagePredicate mouth m st = false.
Hypothesis raised : forall M st d,
  flag (mouthState (fst (observeFrame M st d))) =
  (observed d || flag (mouthState st)).
Hypothesis kept : forall st m,
  flag (mouthState st) = false ->
  flag (mouthState (fst (evaluateStage st m))) = false.

Lemma mouth_flag_never env elements : forall e,
  flag (mouthState (state e)) = false ->
  (stageIndex (state e) <= 3)%nat ->
  completed (state e) = false ->
  Forall (fun p => observed (snd p) = false)
         (acceptedTrace env e elements) ->
  Forall (fun p => predicateAt (jsMath env) mouth p = false)
         (acceptedTrace env e elements) /\
  (stageIndex (state (runFrames env e elements)) <= 3)%nat /\
  completed (state (runFrames env e elements)) = false.
Proof.
  induction elements as [|element rest IH]; intros e Hc Hi Hcomp Hobs.
  - split; [constructor | split; assumption].
  - destruct (processFrame_cases env e element) as [Hnone _ Hm | d _ _ Hacc Hst].
    + rewrite (@acceptedTrace_skipped env e element rest Hnone) in *.
      apply IH; try assumption.
      * apply (f_equal mMouth) in Hm. simpl in Hm. now rewrite Hm.
      * apply (f_equal mStageIndex) in Hm. simpl in Hm. now rewrite Hm.
      * apply (f_equal mCompleted) in Hm. simpl in Hm. now rewrite Hm.
    + rewrite (@acceptedTrace_accepted env e element rest d Hacc) in *.
      inversion Hobs as [|? ? Hd Hrest]; subst. cbn [fst snd] in Hd.
      pose proof (raised (jsMath env) (state e) d) as Hb.
      rewrite Hd, Hc in Hb. cbn [orb] in Hb.
      destruct (observeFrame_state (jsMath env) (state e) d)
        as (_ & Hidx & _ & Hcomp1 & _).
      set (st1 := fst (observeFrame (jsMath env) (state e) d)) in *.
      set (m := snd (observeFrame (jsMath env) (state e) d)) in *.
      assert (Hp : stagePredicate mouth m st1 = false) by now apply needed.
      assert (Hc' : flag (mouthState (state (frameStep env e element))) = false).
      { rewrite Hst, acceptFrame_state. now apply kept. }
      assert (Hi' : (stageIndex (state (frameStep env e element)) <= 3)%nat).
      { rewrite Hst, acceptFrame_state, evaluateStage_index. fold st1 m.
        destruct (Nat.eq_dec (stageIndex st1) 3) as [E|E].
        - rewrite (@currentPredicate_at st1 m 3 mouth E eq_refl), Hp. lia.
        - destruct (currentPredicate st1 m); lia. }
      assert (Hcomp' : completed (state (frameStep env e element)) = false).
      { rewrite Hst, acceptFrame_state in Hi' |- *. fold st1 m in Hi' |- *.
        rewrite (evaluateStage_completed _ _ Hi'). congruence. }
      destruct (IH _ Hc' Hi' Hcomp' Hrest) as (Hf & Hfinal).
      split; [constructor; assumption | exact Hfinal].
Qed.

End MouthFlag.

Lemma blink_needs_closed m st :
  blinkClosedDetected (blinkState st) = false -> stagePredicate blink m st = false.
Proof. rewrite stagePredicate_blink. now intros ->. Qed.

Lemma blink_needs_open m st :
  blinkOpenDetected (blinkState st) = false -> stagePredicate blink m st = false.
Proof. rewrite stagePredicate_blink. intros ->. apply andb_false_r. Qed.

Lemma mouth_needs_closed m st :
  mouthClosedDetected (mouthState st) = false -> stagePredicate mouth m st = false.
Proof. rewrite stagePredicate_mouth. now intros ->. Qed.

Lemma mouth_needs_open m st :
  mouthOpenDetected (mouthState st) = false -> stagePredicate mouth m st = false.
Proof. rewrite stagePredicate_mouth. intros ->. apply andb_false_r. Qed.

End StreamFacts.
Import StreamFacts.

(** C8.  The blink stage needs both a closed-eye and an open-eye
    observation, and the mouth stage both a closed-mouth and an open-mouth
    one: in a session whose accepted frames never are a closed-eye
    observation the blink predicate is false on every frame and the session
    never gets past the blink stage, and the same holds when they never are
    an open-eye observation; if they never are a closed-mouth observation,
    or never an open-mouth one, the mouth predicate is false on every frame
    and the session never completes. *)
Theorem blink_and_mouth_need_both_observations
    (env : Environment) (e0 : Engine) (elements : list InputElement) :
  let e := startSession e0 in
  let tr := acceptedTrace env e elements in
  (Forall (fun p => blinkClosedObserved (fst p) (snd p) = false) tr ->
   Forall (fun p => predicateAt (jsMath env) blink p = false) tr /\
   (stageIndex (state (runFrames env e elements)) <= 2)%nat) /\
  (Forall (fun p => blinkOpenObserved (fst p) (snd p) = false) tr ->
   Forall (fun p => predicateAt (jsMath env) blink p = false) tr /\
   (stageIndex (state (runFrames env e elements)) <= 2)%nat) /\
  (Forall (fun p => mouthClosedObserved (snd p) = false) tr ->
   Forall (fun p => predicateAt (jsMath env) mouth p = false) tr /\
   (stageIndex (state (runFrames env e elements)) <= 3)%nat /\
   completed (state (runFrames env e elements)) = false) /\
  (Forall (fun p => mouthOpenObserved (snd p) = false) tr ->
   Forall (fun p => predicateAt (jsMath env) mouth p = false) tr /\
   (stageIndex (state (runFrames env e elements)) <= 3)%nat /\
   completed (state (runFrames env e elements)) = false).
Proof.
  intros e tr. split; [|split; [|split]]; intros H.
  - apply (@blink_flag_never blinkClosedDetected blinkClosedObserved
             blink_needs_closed observeFrame_blinkClosed evaluateStage_blinkClosed);
      [reflexivity | cbn; lia | exact H].
  - apply (@blink_flag_never blinkOpenDetected blinkOpenObserved
             blink_needs_open observeFrame_blinkOpen evaluateStage_blinkOpen);
      [reflexivity | cbn; lia | exact H].
  - apply (@mouth_flag_never mouthClosedDetected mouthClosedObserved
             mouth_needs_closed observeFrame_mouthClosed evaluateStage_mouthClosed);
      [reflexivity | cbn; lia | reflexivity | exact H].
  - apply (@mouth_flag_never mouthOpenDetected mouthOpenObserved
             mouth_needs_open observeFrame_mouthOpen evaluateStage_mouthOpen);
      [reflexivity | cbn; lia | reflexivity | exact H].
Qed.

Lemma Forall_false_existsb {A} (f : A -> bool) (l : list A) :
  existsb f l = false -> Forall (fun x => f x = false) l.
Proof.
  induction l as [|x l IH]; simpl; intros H; constructor;
    apply orb_false_iff in H; destruct H; auto.
Defined.

Lemma both_observations_witness :
  let final (elements : list InputElement) :=
    state (runFrames Scenario.env Scenario.engine0 elements) in
  (stageIndex (final Scenario.openStream) <= 2)%nat /\
  completed (final Scenario.openStream) = false /\
  (stageIndex (final Scenario.shutStream) <= 2)%nat /\
  completed (final Scenario.closedMouthStream) = false.
Proof.
  intros final.
  destruct (blink_and_mouth_need_both_observations
              Scenario.env (createEngine None) Scenario.openStream)
    as (Hc & _ & Hm & _).
  destruct (blink_and_mouth_need_both_observations
              Scenario.env (createEngine None) Scenario.shutStream)
    as (_ & Ho & _ & _).
  destruct (blink_and_mouth_need_both_observations
              Scenario.env (createEngine None) Scenario.closedMouthStream)
    as (_ & _ & _ & Hmo).
  split; [|split; [|split]].
  - apply Hc.
    apply (Forall_false_existsb (fun p => blinkClosedObserved (fst p) (snd p))).
    vm_compute. reflexivity.
  - apply Hm.
    apply (Forall_false_existsb (fun p => mouthClosedObserved (snd p))).
    vm_compute. reflexivity.
  - apply Ho.
    apply (Forall_false_existsb (fun p => blinkOpenObserved (fst p) (snd p))).
    vm_compute. reflexivity.
  - apply Hmo.
    apply (Forall_false_existsb (fun p => mouthOpenObserved (snd p))).
    vm_compute. reflexivity.
Defined.

(** In the two streams without an open observation the session does reach
    the stage in question and stays there. *)
Lemma streams_reach_their_stage :
  stageIndex (state (runFrames Scenario.env Scenario.engine0 Scenario.shutStream))
    = 2%nat /\
  stageIndex (state (runFrames Scenario.env Scenario.engine0
                       Scenario.closedMouthStream)) = 3%nat.
Proof. split; vm_compute; reflexivity. Qed.

Module EvidenceFacts.

Lemma completes_true st m k :
  completes st m k = true ->
  stageIndex st = stagePosition k /\ currentPredicate st m = true.
Proof.
  unfold completes. intros H. apply andb_true_iff in H. destruct H as [Hp Hk].
  split; [|exact Hp].
  destruct (stageIndex st) as [|[|[|[|n]]]]; simpl in Hk;
    destruct k; try discriminate; try reflexivity.
  all: destruct n; discriminate.
Qed.

Lemma completes_false_later st m k :
  (stageIndex (fst (evaluateStage st m)) <= stagePosition k)%nat ->
  completes st m k = false.
Proof.
  intros Hle. destruct (completes st m k) eqn:E; [|reflexivity].
  apply completes_true in E. destruct E as [Hi Hp].
  rewrite evaluateStage_index, Hp in Hle. lia.
Qed.

Lemma tracks_accept M st ds d :
  tracks st ds -> tracks (fst (acceptFrame M st d)) (ds ++ [d]).
Proof.
  intros (Hn & Hs & Hb & Hm).
  rewrite acceptFrame_state.
  destruct (observeFrame_state M st d)
    as (_ & Hi & _ & _ & Hn1 & Hs1 & Hb1 & Hm1).
  set (st1 := fst (observeFrame M st d)) in *.
  set (m := snd (observeFrame M st d)) in *.
  destruct (evaluateStage_evidence st1 m) as (En & Es & Eb & Em).
  pose proof (evaluateStage_index st1 m) as Ei.
  unfold tracks, nodEvidence, shakeEvidence, blinkEvidence, mouthEvidence.
  rewrite !fold_left_app. cbn [fold_left].
  repeat split; intros Hle.
  - rewrite En, (@completes_false_later st1 m nod) by (unfold stagePosition; lia).
    rewrite Hn1, Hn by (destruct (currentPredicate st1 m); lia). reflexivity.
  - rewrite Es, (@completes_false_later st1 m shake) by (unfold stagePosition; lia).
    rewrite Hs1, Hs by (destruct (currentPredicate st1 m); lia). reflexivity.
  - rewrite Eb, (@completes_false_later st1 m blink) by (unfold stagePosition; lia).
    rewrite Hb1, Hb by (destruct (currentPredicate st1 m); lia). reflexivity.
  - rewrite Em, (@completes_false_later st1 m mouth) by (unfold stagePosition; lia).
    rewrite Hm1, Hm by (destruct (currentPredicate st1 m); lia). reflexivity.
Qed.

Lemma tracks_machine st st' ds :
  machine st' = machine st -> tracks st ds -> tracks st' ds.
Proof.
  intros Hm. unfold tracks.
  pose proof (f_equal mStageIndex Hm) as E1. pose proof (f_equal mNodRange Hm) as E2.
  pose proof (f_equal mShakeRange Hm) as E3. pose proof (f_equal mBlink Hm) as E4.
  pose proof (f_equal mMouth Hm) as E5. simpl in *.
  now rewrite E1, E2, E3, E4, E5.
Qed.

Lemma tracks_run env elements : forall e ds,
  tracks (state e) ds ->
  tracks (state (runFrames env e elements)) (ds ++ acceptedFrames env e elements).
Proof.
  unfold acceptedFrames.
  induction elements as [|element rest IH]; intros e ds Ht.
  - simpl. now rewrite app_nil_r.
  - destruct (processFrame_cases env e element) as [Hnone _ Hm | d _ _ Hacc Hst].
    + rewrite (@acceptedTrace_skipped env e element rest Hnone).
      apply IH. now apply (tracks_machine Hm).
    + rewrite (@acceptedTrace_accepted env e element rest d Hacc).
      cbn [map snd]. 
      replace (ds ++ d :: map snd (acceptedTrace env (frameStep env e element) rest))
        with ((ds ++ [d]) ++ map snd (acceptedTrace env (frameStep env e element) rest))
        by (rewrite <- app_assoc; reflexivity).
      apply IH. rewrite Hst. now apply tracks_accept.
Qed.

End EvidenceFacts.
Import EvidenceFacts.

(** C1, as the code has it.  The evidence of every stage is gathered on
    every accepted frame from the start of the session, whichever stage is
    current, and completing a stage resets the evidence of that stage
    alone.  So until a stage has completed, its evidence is the fold of
    its update over all frames accepted since the session started. *)
Theorem stage_evidence_accumulates_from_session_start
    (env : Environment) (e0 : Engine) (elements : list InputElement) :
  let e := startSession e0 in
  let ds := acceptedFrames env e elements in
  let st := state (runFrames env e elements) in
  ((stageIndex st = 0%nat -> nodRange st = nodEvidence ds) /\
   ((stageIndex st <= 1)%nat -> shakeRange st = shakeEvidence ds) /\
   ((stageIndex st <= 2)%nat -> blinkState st = blinkEvidence ds) /\
   ((stageIndex st <= 3)%nat -> mouthState st = mouthEvidence ds)) /\
  (forall s m,
     let s' := fst (evaluateStage s m) in
     nodRange s' = (if completes s m nod then emptyRange else nodRange s) /\
     shakeRange s' = (if completes s m shake then emptyRange else shakeRange s) /\
     blinkState s' =
       (if completes s m blink
        then {| blinkClosedDetected := false; blinkOpenDetected := false;
                eyeAvg := eyeAvg (blinkState s) |}
        else blinkState s) /\
     mouthState s' =
       (if completes s m mouth
        then {| mouthOpenDetected := false; mouthClosedDetected := false |}
        else mouthState s)).
Proof.
  intros e ds st. split.
  - apply (@tracks_run env elements e []).
    repeat split; reflexivity.
  - intros s m. apply evaluateStage_evidence.
Qed.

Lemma stage_evidence_witness :
  shakeRange (Scenario.after [1; 2]%nat) =
  shakeEvidence (acceptedFrames Scenario.env Scenario.engine0
                   (map Scenario.frame [1; 2]%nat)).
Proof.
  destruct (stage_evidence_accumulates_from_session_start
              Scenario.env (createEngine None) (map Scenario.frame [1; 2]%nat))
    as [(_ & Hs & _) _].
  apply Hs. vm_compute. apply le_n.
Defined.

(** C1 as stated fails: in this session the user moves once, during the
    nod stage; when shake, blink and mouth become current their evidence
    is already there, and three further identical frames complete them. *)
Lemma later_stages_completed_by_earlier_evidence :
  stageIndex (Scenario.after [1]%nat) = 0%nat /\
  (stageIndex (Scenario.after [1; 2]%nat) = 1%nat /\
   ~ freshEvidence (Scenario.after [1; 2]%nat)) /\
  (stageIndex (Scenario.after [1; 2; 2]%nat) = 2%nat /\
   ~ freshEvidence (Scenario.after [1; 2; 2]%nat)) /\
  (stageIndex (Scenario.after [1; 2; 2; 2]%nat) = 3%nat /\
   ~ freshEvidence (Scenario.after [1; 2; 2; 2]%nat)) /\
  completed (Scenario.after [1; 2; 2; 2; 2]%nat) = true.
Proof.
  repeat split; try (vm_compute; reflexivity).
  - vm_compute. intros H. discriminate H.
  - vm_compute. intros [H _]. discriminate H.
  - vm_compute. intros [H _]. discriminate H.
Qed.

(** ** Best frame and quality score *)

Module QualityFacts.
Import Liveness FaceLiveness QualityDefs.

#[export] Instance round_Proper : Proper (Num.eqv ==> Num.eqv) Num.round.
Proof.
  intros x y H. destruct x as [a| | |], y as [b| | |];
    try contradiction; try exact I.
  change (a == b)%Q in H.
  change (inject_Z (Qfloor (a + (1 # 2))) == inject_Z (Qfloor (b + (1 # 2))))%Q.
  now rewrite H.
Qed.

Lemma add_zero_l x : Num.eqv (Fin 0 + x) x.
Proof. destruct x; simpl; auto. ring. Qed.

Lemma gtb_of_eqb x y : Num.eqb x y = true -> Num.gtb x y = false.
Proof.
  unfold Num.eqb, Num.gtb, Num.ltb. rewrite (cmp_antisym x y).
  destruct (Num.cmp x y) as [[]|]; simpl; congruence.
Qed.


End QualityFacts.
Import Liveness FaceLiveness QualityDefs QualityFacts.




(** C7 as stated fails: after a frame with frontal score 80 has been
    stored as the best one, a frame with frontal score 40 leaves the
    recorded best score at 80 but replaces the frontal face score by 40,
    and with it the aggregate quality score. *)
Lemma lower_score_replaces_frontal_and_quality_scores :
  let best := qualityEffect
                (handleLivenessResult brightCamera false initialQuality
                   (frameWithScore (Fin 80))) in
  let next := qualityEffect
                (handleLivenessResult brightCamera false best
                   (frameWithScore (Fin 40))) in
  keyFrameScoreRef best = Fin 80 /\ keyFrameScoreRef next = Fin 80 /\
  frontalFaceScore best = Some (Fin 80) /\ frontalFaceScore next = Some (Fin 40) /\
  exists v w, qualityScore best = Some v /\ qualityScore next = Some w /\
              Num.eqb w (Fin 90) = true /\ Num.eqb v w = false.
Proof.
  repeat split; try reflexivity.
  eexists. eexists. split; [vm_compute; reflexivity|].
  split; [vm_compute; reflexivity|]. split; vm_compute; reflexivity.
Qed.

(** C7, as the code has it.  [handleLivenessResult] leaves the stored
    frame images, the recorded best score, and the brightness, clarity,
    lighting, background and resolution scores as they are unless the
    frame's frontal score is strictly greater than the recorded best; a
    score equal to the recorded best replaces none of them.  The frontal
    face score is not under that guard: every result that carries a frontal
    score overwrites it, whatever the recorded best is.  The aggregate is
    not touched by [handleLivenessResult]; the quality effect recomputes it
    from the six scores, the frontal face score among them. *)
Theorem stored_frame_is_guarded_frontal_score_is_not
    (cam : Camera) (isMobileHandoff : bool) (q : QualityState)
    (r : ProcessFrameResult) :
  let q' := handleLivenessResult cam isMobileHandoff q r in
  ((forall p, candidateScore r = Some p ->
      (p >? keyFrameScoreRef q) = false \/ Num.eqb p (keyFrameScoreRef q) = true) ->
   keyFrameImage q' = keyFrameImage q /\
   keyFrameOriginalRef q' = keyFrameOriginalRef q /\
   keyFrameFullRef q' = keyFrameFullRef q /\
   keyFrameScoreRef q' = keyFrameScoreRef q /\
   brightnessScore q' = brightnessScore q /\
   brightnessStatus q' = brightnessStatus q /\
   clarityScore q' = clarityScore q /\
   uniformLightingScore q' = uniformLightingScore q /\
   backgroundUniformityScore q' = backgroundUniformityScore q /\
   pixelResolutionScore q' = pixelResolutionScore q) /\
  frontalFaceScore q' =
    match candidateScore r with
    | Some p => Some p
    | None => frontalFaceScore q
    end /\
  qualityScore q' = qualityScore q.
Proof.
  intros q'. subst q'. split; [|split].
  - intros Hp. unfold handleLivenessResult, candidateScore in *.
    destruct isMobileHandoff; [repeat split; reflexivity|].
    destruct (detection r) as [d|]; [|repeat split; reflexivity].
    destruct (metrics r) as [m|]; [|repeat split; reflexivity].
    destruct (frontalScore m) as [p|]; [|repeat split; reflexivity].
    cbn [keyFrameScoreRef].
    assert (Hg : (p >? keyFrameScoreRef q) = false).
    { destruct (Hp p eq_refl) as [H|H]; [exact H | now apply gtb_of_eqb]. }
    rewrite Hg. repeat split; reflexivity.
  - unfold handleLivenessResult, candidateScore.
    destruct (metrics r) as [m|]; [destruct (frontalScore m) as [p|]|];
      destruct isMobileHandoff, (detection r) as [d|]; cbn [keyFrameScoreRef];
      try reflexivity;
      destruct (p >? keyFrameScoreRef q); reflexivity.
  - unfold handleLivenessResult.
    destruct (metrics r) as [m|]; [destruct (frontalScore m) as [p|]|];
      destruct isMobileHandoff, (detection r) as [d|]; cbn [keyFrameScoreRef];
      try reflexivity;
      destruct (p >? keyFrameScoreRef q); reflexivity.
Qed.

Lemma stored_frame_tie_witness :
  let q := handleLivenessResult brightCamera false initialQuality
             (frameWithScore (Fin 80)) in
  let q' := handleLivenessResult brightCamera false q (frameWithScore (Fin 80)) in
  keyFrameScoreRef q = Fin 80 /\
  keyFrameImage q' = keyFrameImage q /\ keyFrameScoreRef q' = keyFrameScoreRef q /\
  brightnessScore q' = brightnessScore q.
Proof.
  intros q q'. split; [reflexivity|].
  destruct (proj1 (stored_frame_is_guarded_frontal_score_is_not brightCamera false
                     q (frameWithScore (Fin 80))))
    as (H1 & _ & _ & H4 & H5 & _).
  - intros p Hp. right. inversion Hp. reflexivity.
  - repeat split; assumption.
Defined.

(** ** The detector *)

Module DetectorFacts.
Import SCRFD DetectorDefs.

Lemma initFromOutputs_session d :
  session (initFromOutputs d) = session d /\
  inputName (initFromOutputs d) = inputName d.
Proof.
  unfold initFromOutputs. destruct (session d) eqn:E; [|auto].
  repeat match goal with |- context [if ?c then _ else _] => destruct c end;
    simpl; auto.
Qed.

Lemma loadModel_session d s :
  session (loadModel d s) = Some s /\
  inputName (loadModel d s) = hd_error (inputNames s).
Proof.
  unfold loadModel.
  match goal with |- context [initFromOutputs ?x] =>
    destruct (initFromOutputs_session x) as [-> ->] end.
  split; reflexivity.
Qed.

Lemma detect_guard d kps element threshold :
  detectFromElement d kps element threshold = Err DetectorModelNotLoaded <->
  (isReady d = false \/ truthy_name (inputName d) = false).
Proof.
  unfold detectFromElement, isReady.
  destruct (session d) as [s|]; [|split; auto].
  destruct (truthy_name (inputName d)); [|split; auto].
  split.
  - destruct (run s element) as [outputs|msg]; simpl; [|discriminate].
    destruct (postprocess d kps outputs threshold) as [[kpa dec]|err] eqn:E;
      simpl; [discriminate|].
    intros H. inversion H; subst. exfalso.
    revert E. unfold postprocess.
    generalize (seq 0 (fmc d)).
    generalize ({| scoresList := []; bboxList := []; kpsList := [];
                   acc_kpsPerAnchor := kpsPerAnchor d |}).
    intros acc l. revert acc.
    induction l as [|idx l IH]; intros acc; simpl; [discriminate|].
    destruct (postprocess_stride d kps (map outputs (outputNames d)) threshold acc idx)
      as [acc'|err] eqn:Es; simpl.
    + apply IH.
    + intros H'. inversion H'; subst.
      revert Es. unfold postprocess_stride.
      destruct (stridePos _ _ _ _); [discriminate|].
      destruct (useKps d); [|discriminate].
      destruct (kps _ _ _) as [[? ?]|]; simpl; discriminate.
  - intros [H|H]; discriminate.
Qed.

Lemma stridePos_below d outputs threshold idx :
  belowThreshold d outputs threshold -> (idx < fmc d)%nat ->
  stridePos d (map outputs (outputNames d)) threshold idx = [].
Proof.
  intros Hb Hi. unfold stridePos.
  assert (H : forall l, (forall i, In i l -> (i < strideK d idx)%nat) ->
    filter (fun i => Num.get (strideScores d (map outputs (outputNames d)) idx) i
                     >=? threshold) l = []).
  { induction l as [|i l IH]; intros Hl; simpl; [reflexivity|].
    rewrite (Hb idx i Hi (Hl i (or_introl eq_refl))).
    apply IH. intros j Hj. apply Hl. now right. }
  apply H. intros i Hin. apply in_seq in Hin. lia.
Qed.

Lemma postprocess_loop_below d kps outputs threshold acc idxs :
  belowThreshold d outputs threshold ->
  (forall idx, In idx idxs -> (idx < fmc d)%nat) ->
  postprocess_loop d kps (map outputs (outputNames d)) threshold acc idxs = Ok acc.
Proof.
  intros Hb. induction idxs as [|idx l IH]; intros Hl; simpl; [reflexivity|].
  unfold postprocess_stride.
  rewrite (@stridePos_below d outputs threshold idx Hb (Hl idx (or_introl eq_refl))). simpl.
  apply IH. intros j Hj. apply Hl. now right.
Qed.

Lemma detect_below d kps element threshold s outputs :
  session d = Some s -> truthy_name (inputName d) = true ->
  run s element = Resolved outputs ->
  belowThreshold d outputs threshold ->
  detectFromElement d kps element threshold = Ok (d, []).
Proof.
  intros Hs Hn Hr Hb. unfold detectFromElement. rewrite Hs, Hn, Hr. simpl.
  unfold postprocess.
  rewrite (@postprocess_loop_below d kps outputs threshold _ _ Hb)
    by (intros idx H; apply in_seq in H; lia).
  simpl. unfold buildDetections. simpl.
  destruct d; reflexivity.
Qed.

Lemma belowThreshold_loaded d kpa outputs threshold :
  belowThreshold (set_kpsPerAnchor d kpa) outputs threshold <->
  belowThreshold d outputs threshold.
Proof. reflexivity. Qed.

End DetectorFacts.
Import SCRFD DetectorDefs DetectorFacts.

(** C9 as stated fails: a detector that has loaded a model which declares
    no input holds a session and reports ready, and still throws the
    model-not-loaded error. *)
Lemma loaded_detector_reports_model_not_loaded :
  let d := loadModel create Scenario.unnamedSession in
  session d = Some Scenario.unnamedSession /\ isReady d = true /\
  detectFromElement d (Liveness.kpsStage Scenario.env) (Scenario.frame 1) (Fin 0.5)
  = Err DetectorModelNotLoaded.
Proof. repeat split. Qed.

(** C9, as the code has it.  [detectFromElement] throws the
    model-not-loaded error exactly when the detector has no session or no
    non-empty input name: always on a detector that was never loaded, and
    after [loadModel] exactly when the first input name of the model is
    missing or empty.  On a detector loaded with a model that names its
    input, an inference result none of whose scores reaches the threshold
    gives the empty list as an ordinary return value. *)
Theorem detect_fails_iff_no_session_or_input_name
    (kps : KpsStage) (element : InputElement) (threshold : num) :
  (forall d,
     detectFromElement d kps element threshold = Err DetectorModelNotLoaded <->
     (isReady d = false \/ truthy_name (inputName d) = false)) /\
  detectFromElement create kps element threshold = Err DetectorModelNotLoaded /\
  (forall d s,
     detectFromElement (loadModel d s) kps element threshold
       = Err DetectorModelNotLoaded <->
     truthy_name (hd_error (inputNames s)) = false) /\
  (forall d s outputs, namedInput s ->
     run s element = Resolved outputs ->
     belowThreshold (loadModel d s) outputs threshold ->
     detectFromElement (loadModel d s) kps element threshold
     = Ok (loadModel d s, [])).
Proof.
  split; [|split; [|split]].
  - intros d. apply detect_guard.
  - reflexivity.
  - intros d s. rewrite detect_guard.
    destruct (loadModel_session d s) as [Hs Hi].
    unfold isReady. rewrite Hs, Hi. split; [intros [H|H] | intros H].
    + discriminate.
    + exact H.
    + right. exact H.
  - intros d s outputs Hn Hr Hb.
    destruct (loadModel_session d s) as [Hs Hi].
    apply (@detect_below _ kps element threshold s outputs); auto.
    rewrite Hi. exact Hn.
Qed.

Lemma detect_witness :
  let d := loadModel create Scenario.detectorSession in
  detectFromElement d (Liveness.kpsStage Scenario.env) (Scenario.frame 0) (Fin 0.5)
  = Ok (d, []).
Proof.
  apply (proj2 (proj2 (proj2
           (detect_fails_iff_no_session_or_input_name
              (Liveness.kpsStage Scenario.env) (Scenario.frame 0) (Fin 0.5))))
           create Scenario.detectorSession (Scenario.detectorOutputs 0));
    [reflexivity | reflexivity |].
  intros idx i Hidx Hi.
  destruct idx as [|[|[|idx]]]; try (exfalso; vm_compute in Hidx; lia).
  + destruct i as [|[|i]]; try reflexivity. exfalso. vm_compute in Hi. lia.
  + exfalso. vm_compute in Hi. lia.
  + exfalso. vm_compute in Hi. lia.
Defined.

Module DecodeFacts.
Import SCRFD DetectorDefs.

(** Reading a concatenation of rows of four *)
Lemma get_rows4 (rows : list (list num)) :
  Forall (fun r => List.length r = 4%nat) rows ->
  forall i k, (i < List.length rows)%nat -> (k < 4)%nat ->
    Num.get (concat rows) (i * 4 + k) = Num.get (nth i rows []) k.
Proof.
  unfold Num.get.
  induction 1 as [|r rows Hr _ IH]; intros i k Hi Hk; simpl in Hi; [lia|].
  simpl concat. destruct i as [|i].
  - simpl. rewrite app_nth1 by lia. reflexivity.
  - rewrite app_nth2 by lia.
    replace (S i * 4 + k - List.length r)%nat with (i * 4 + k)%nat by lia.
    simpl nth. apply IH; lia.
Qed.

Lemma length_flat_map_const {A B} (f : A -> list B) (n : nat) (l : list A) :
  (forall x, List.length (f x) = n) ->
  List.length (flat_map f l) = (List.length l * n)%nat.
Proof.
  intros Hf. induction l as [|x l IH]; simpl; [reflexivity|].
  rewrite length_app, Hf, IH. lia.
Qed.

Lemma getAnchorCenters_length height width stride na :
  List.length (getAnchorCenters height width stride na) =
  (height * width * na * 2)%nat.
Proof.
  unfold getAnchorCenters.
  rewrite (@length_flat_map_const _ _ _ (width * na * 2)%nat).
  - rewrite length_seq. lia.
  - intros y. rewrite (@length_flat_map_const _ _ _ (na * 2)%nat).
    + rewrite length_seq. lia.
    + intros x. rewrite (@length_flat_map_const _ _ _ 2%nat).
      * rewrite length_seq. lia.
      * reflexivity.
Qed.

Lemma strideCenters_length d idx :
  List.length (strideCenters d idx) = (strideK d idx * 2)%nat.
Proof. unfold strideCenters, strideK. apply getAnchorCenters_length. Qed.

Lemma flat_map_concat_map {A B} (f : A -> list B) l :
  flat_map f l = concat (map f l).
Proof. induction l; simpl; congruence. Qed.

(** One anchor's row of [distance2bbox] *)
Lemma distance2bbox_row points distance pi k :
  (pi < List.length points / 2)%nat -> (k < 4)%nat ->
  Num.get (distance2bbox points distance) (pi * 4 + k) =
  Num.get [Num.get points (pi * 2) - Num.get distance (pi * 4);
           Num.get points (pi * 2 + 1) - Num.get distance (pi * 4 + 1);
           Num.get points (pi * 2) + Num.get distance (pi * 4 + 2);
           Num.get points (pi * 2 + 1) + Num.get distance (pi * 4 + 3)] k.
Proof.
  intros Hpi Hk. unfold distance2bbox. cbv zeta.
  rewrite flat_map_concat_map.
  rewrite get_rows4; try assumption.
  - rewrite (nth_indep _ [] (
      (fun i => [Num.get points (i * 2) - Num.get distance (i * 4);
                 Num.get points (i * 2 + 1) - Num.get distance (i * 4 + 1);
                 Num.get points (i * 2) + Num.get distance (i * 4 + 2);
                 Num.get points (i * 2 + 1) + Num.get distance (i * 4 + 3)]) 0%nat))
      by (rewrite length_map, length_seq; exact Hpi).
    rewrite (map_nth (fun i =>
                 [Num.get points (i * 2) - Num.get distance (i * 4);
                  Num.get points (i * 2 + 1) - Num.get distance (i * 4 + 1);
                  Num.get points (i * 2) + Num.get distance (i * 4 + 2);
                  Num.get points (i * 2 + 1) + Num.get distance (i * 4 + 3)])).
    rewrite seq_nth by exact Hpi. reflexivity.
  - apply Forall_forall. intros r Hr. apply in_map_iff in Hr.
    destruct Hr as (i & <- & _). reflexivity.
  - rewrite length_map, length_seq. exact Hpi.
Qed.

Lemma map_seq_nth {A B} (f : nat -> B) (g : A -> B) (dflt : A) (l : list A) :
  forall k,
    (forall i, (i < List.length l)%nat -> f (k + i)%nat = g (nth i l dflt)) ->
    map f (seq k (List.length l)) = map g l.
Proof.
  induction l as [|x l IH]; intros k H; simpl; [reflexivity|].
  f_equal.
  - assert (H0 := H 0%nat ltac:(simpl; lia)).
    rewrite Nat.add_0_r in H0. exact H0.
  - apply IH. intros i Hi.
    assert (Hi' := H (S i) ltac:(simpl; lia)).
    rewrite Nat.add_succ_r in Hi'. exact Hi'.
Qed.

Section Decode.
Variables (d : Detector) (kps : KpsStage) (netOuts : list (option Tensor))
          (threshold : num).

Lemma selected_in_range idxs p :
  In p (selectedAmong d netOuts threshold idxs) ->
  (snd p < strideK d (fst p))%nat /\
  (anchorScore d netOuts p >=? threshold) = true.
Proof.
  unfold selectedAmong. rewrite in_flat_map. intros (idx & _ & Hp).
  apply in_map_iff in Hp. destruct Hp as (pi & <- & Hpi). simpl.
  unfold stridePos in Hpi. apply filter_In in Hpi. destruct Hpi as [Hs Hg].
  apply in_seq in Hs. split; [lia | exact Hg].
Qed.

Lemma anchorRow_length p : List.length (anchorRow d netOuts p) = 4%nat.
Proof. reflexivity. Qed.

(** The copied row is the anchor's decoded box, before scaling. *)
Lemma anchorRow_box scale p :
  (snd p < strideK d (fst p))%nat ->
  anchorBox d netOuts scale p =
  {| b_x1 := Num.get (anchorRow d netOuts p) 0 / scale;
     b_y1 := Num.get (anchorRow d netOuts p) 1 / scale;
     b_x2 := Num.get (anchorRow d netOuts p) 2 / scale;
     b_y2 := Num.get (anchorRow d netOuts p) 3 / scale |}.
Proof.
  intros Hp. unfold anchorRow, boxRow, strideDecodedBboxes. cbv zeta.
  assert (Hc : (snd p < List.length (strideCenters d (fst p)) / 2)%nat).
  { rewrite strideCenters_length, Nat.div_mul by lia. exact Hp. }
  set (c := strideCenters d (fst p)) in *.
  set (dist := strideBboxPreds d netOuts (fst p)).
  pose proof (@distance2bbox_row c dist (snd p) 0 Hc ltac:(lia)) as E0.
  pose proof (@distance2bbox_row c dist (snd p) 1 Hc ltac:(lia)) as E1.
  pose proof (@distance2bbox_row c dist (snd p) 2 Hc ltac:(lia)) as E2.
  pose proof (@distance2bbox_row c dist (snd p) 3 Hc ltac:(lia)) as E3.
  rewrite Nat.add_0_r in E0.
  unfold anchorBox. cbv zeta. fold c dist.
  change (Num.get [Num.get (distance2bbox c dist) (snd p * 4);
                   Num.get (distance2bbox c dist) (snd p * 4 + 1);
                   Num.get (distance2bbox c dist) (snd p * 4 + 2);
                   Num.get (distance2bbox c dist) (snd p * 4 + 3)] 0)
    with (Num.get (distance2bbox c dist) (snd p * 4)).
  change (Num.get [Num.get (distance2bbox c dist) (snd p * 4);
                   Num.get (distance2bbox c dist) (snd p * 4 + 1);
                   Num.get (distance2bbox c dist) (snd p * 4 + 2);
                   Num.get (distance2bbox c dist) (snd p * 4 + 3)] 1)
    with (Num.get (distance2bbox c dist) (snd p * 4 + 1)).
  change (Num.get [Num.get (distance2bbox c dist) (snd p * 4);
                   Num.get (distance2bbox c dist) (snd p * 4 + 1);
                   Num.get (distance2bbox c dist) (snd p * 4 + 2);
                   Num.get (distance2bbox c dist) (snd p * 4 + 3)] 2)
    with (Num.get (distance2bbox c dist) (snd p * 4 + 2)).
  change (Num.get [Num.get (distance2bbox c dist) (snd p * 4);
                   Num.get (distance2bbox c dist) (snd p * 4 + 1);
                   Num.get (distance2bbox c dist) (snd p * 4 + 2);
                   Num.get (distance2bbox c dist) (snd p * 4 + 3)] 3)
    with (Num.get (distance2bbox c dist) (snd p * 4 + 3)).
  rewrite E0, E1, E2, E3. reflexivity.
Qed.

Lemma stride_step acc idx acc' :
  postprocess_stride d kps netOuts threshold acc idx = Ok acc' ->
  let sel := selectedAmong d netOuts threshold [idx] in
  concat (scoresList acc') =
    concat (scoresList acc) ++ map (anchorScore d netOuts) sel /\
  concat (bboxList acc') =
    concat (bboxList acc) ++ concat (map (anchorRow d netOuts) sel) /\
  (scoresList acc' = [] <-> scoresList acc = [] /\ sel = []) /\
  (bboxList acc' = [] <-> bboxList acc = [] /\ sel = []).
Proof.
  unfold postprocess_stride, selectedAmong. cbn [flat_map]. rewrite app_nil_r.
  cbv zeta.
  destruct (stridePos d netOuts threshold idx) as [|pi pos] eqn:Epos.
  - intros H. inversion H; subst. cbn [map concat]. rewrite !app_nil_r. tauto.
  - remember (pi :: pos) as l eqn:El.
    assert (Hs : map (fun i => Num.get (strideScores d netOuts idx) i) l =
                 map (anchorScore d netOuts) (map (pair idx) l)).
    { rewrite map_map. reflexivity. }
    assert (Hb : flat_map (boxRow (strideDecodedBboxes d netOuts idx)) l =
                 concat (map (anchorRow d netOuts) (map (pair idx) l))).
    { rewrite flat_map_concat_map, map_map. reflexivity. }
    assert (Hne : map (pair idx) l <> []) by (subst l; discriminate).
    rewrite Hs, Hb. clear Hs Hb.
    set (S := map (anchorScore d netOuts) (map (pair idx) l)).
    set (B := concat (map (anchorRow d netOuts) (map (pair idx) l))).
    assert (Hpush : forall acc1,
      scoresList acc1 = scoresList acc ++ [S] ->
      bboxList acc1 = bboxList acc ++ [B] ->
      concat (scoresList acc1) = concat (scoresList acc) ++ S /\
      concat (bboxList acc1) = concat (bboxList acc) ++ B /\
      (scoresList acc1 = [] <-> scoresList acc = [] /\ map (pair idx) l = []) /\
      (bboxList acc1 = [] <-> bboxList acc = [] /\ map (pair idx) l = [])).
    { intros acc1 -> ->. rewrite !concat_app. cbn [concat]. rewrite !app_nil_r.
      repeat split; try reflexivity;
        try (intros [_ E]; exfalso; apply Hne; exact E);
        try (exfalso;
             match goal with
             | H : _ ++ [_] = [] |- _ =>
                 apply app_eq_nil in H; destruct H; discriminate
             end). }
    destruct (useKps d).
    + destruct (kps _ _ _) as [[posKps nk]|]; cbn [kpsOutcome bind]; [|discriminate].
      intros H. inversion H; subst acc'. apply Hpush; reflexivity.
    + intros H. inversion H; subst acc'. apply Hpush; reflexivity.
Qed.

Lemma loop_steps idxs : forall acc acc',
  postprocess_loop d kps netOuts threshold acc idxs = Ok acc' ->
  let sel := selectedAmong d netOuts threshold idxs in
  concat (scoresList acc') =
    concat (scoresList acc) ++ map (anchorScore d netOuts) sel /\
  concat (bboxList acc') =
    concat (bboxList acc) ++ concat (map (anchorRow d netOuts) sel) /\
  (scoresList acc' = [] <-> scoresList acc = [] /\ sel = []) /\
  (bboxList acc' = [] <-> bboxList acc = [] /\ sel = []).
Proof.
  induction idxs as [|idx rest IH]; intros acc acc' H.
  - simpl in H. inversion H; subst. simpl. rewrite !app_nil_r. tauto.
  - simpl in H.
    destruct (postprocess_stride d kps netOuts threshold acc idx) as [acc1|err] eqn:E1;
      simpl in H; [|discriminate].
    destruct (stride_step _ _ E1) as (S1 & B1 & N1 & M1).
    destruct (IH _ _ H) as (S2 & B2 & N2 & M2).
    cbv zeta in *.
    replace (selectedAmong d netOuts threshold (idx :: rest))
      with (selectedAmong d netOuts threshold [idx] ++
            selectedAmong d netOuts threshold rest)
      by (unfold selectedAmong; simpl; rewrite app_nil_r; reflexivity).
    rewrite S2, S1, B2, B1, !map_app, concat_app, <- !app_assoc.
    split; [reflexivity|]. split; [reflexivity|]. split; split.
    + intros E. apply N2 in E. destruct E as [E1' E2']. apply N1 in E1'.
      destruct E1' as [? E3]. rewrite E3, E2'. auto.
    + intros [Ea Es]. apply app_eq_nil in Es. destruct Es. apply N2. split; [|assumption].
      apply N1. auto.
    + intros E. apply M2 in E. destruct E as [E1' E2']. apply M1 in E1'.
      destruct E1' as [? E3]. rewrite E3, E2'. auto.
    + intros [Ea Es]. apply app_eq_nil in Es. destruct Es. apply M2. split; [|assumption].
      apply M1. auto.
Qed.

End Decode.

(** [buildDetections] on what [postprocess] returns: the candidates are
    the selected anchors, one for one and in order. *)
Lemma buildDetections_selected d kps outputs threshold kpa decoded scale :
  postprocess d kps outputs threshold = Ok (kpa, decoded) ->
  let netOuts := map outputs (outputNames d) in
  exists cands,
    buildDetections (set_kpsPerAnchor d kpa) decoded scale =
      nms (nmsThresh d) cands /\
    map boxAndScore cands =
      map (fun p => (anchorBox d netOuts scale p, anchorScore d netOuts p))
          (selectedAnchors d netOuts threshold).
Proof.
  intros H netOuts. unfold postprocess in H. fold netOuts in H.
  destruct (postprocess_loop d kps netOuts threshold _ _)
    as [acc|err] eqn:El; simpl in H; [|discriminate].
  inversion H; subst; clear H.
  destruct (@loop_steps d kps netOuts threshold _ _ _ El) as (Hs & Hb & Ns & Nb).
  cbv zeta in *. simpl in Hs, Hb, Ns, Nb. fold netOuts in Hs, Hb, Ns, Nb.
  fold (selectedAnchors d netOuts threshold) in *.
  set (sel := selectedAnchors d netOuts threshold) in *.
  unfold buildDetections. cbn [dec_scores dec_boxes dec_kps].
  destruct (scoresList acc) as [|s0 sl] eqn:Es.
  { exists []. split; [reflexivity|].
    destruct (proj1 Ns eq_refl) as [_ ->]. reflexivity. }
  destruct (bboxList acc) as [|b0 bl] eqn:Eb.
  { exfalso. destruct (proj1 Nb eq_refl) as [_ E].
    assert (E' : s0 :: sl = []) by (apply Ns; auto). discriminate. }
  cbn [concatFloat32]. rewrite Hs, Hb.
  destruct sel as [|p0 sel'] eqn:Esel.
  { exfalso. assert (E' : s0 :: sl = []) by (apply Ns; auto). discriminate. }
  rewrite <- Esel in *.
  assert (Hlen : List.length (map (anchorScore d netOuts) sel) = List.length sel)
    by apply length_map.
  destruct (map (anchorScore d netOuts) sel) as [|sc0 scs] eqn:Emap.
  { rewrite Esel in Emap. discriminate. }
  rewrite <- Emap in *. clear Emap sc0 scs.
  eexists. split; [reflexivity|].
  rewrite map_map, Hlen.
  apply (map_seq_nth _ _ p0). intros i Hi. cbn [Nat.add].
  assert (Hin : In (nth i sel p0) sel) by (apply nth_In; exact Hi).
  destruct (@selected_in_range d netOuts threshold _ _ Hin) as [Hk _].
  unfold boxAndScore, candidate. cbn [bbox score].
  rewrite (@anchorRow_box d netOuts scale _ Hk).
  assert (Hrows : Forall (fun r => List.length r = 4%nat) (map (anchorRow d netOuts) sel)).
  { apply Forall_forall. intros r Hr. apply in_map_iff in Hr.
    destruct Hr as (p & <- & _). reflexivity. }
  assert (Hi' : (i < List.length (map (anchorRow d netOuts) sel))%nat)
    by (rewrite length_map; exact Hi).
  assert (G : forall k, (k < 4)%nat ->
            Num.get (concat (map (anchorRow d netOuts) sel)) (i * 4 + k) =
            Num.get (anchorRow d netOuts (nth i sel p0)) k).
  { intros k Hk'. rewrite (@get_rows4 _ Hrows i k Hi' Hk'). f_equal.
    rewrite (nth_indep _ [] (anchorRow d netOuts p0)) by exact Hi'.
    apply map_nth. }
  assert (G0 := G 0%nat ltac:(lia)). rewrite Nat.add_0_r in G0.
  rewrite G0, (G 1%nat), (G 2%nat), (G 3%nat) by lia.
  assert (Gs : Num.get (map (anchorScore d netOuts) sel) i =
               anchorScore d netOuts (nth i sel p0)).
  { unfold Num.get.
    rewrite (nth_indep _ NaN (anchorScore d netOuts p0))
      by (rewrite length_map; exact Hi).
    apply map_nth. }
  rewrite Gs. reflexivity.
Qed.

End DecodeFacts.
Import DecodeFacts.

Lemma nms_incl thresh l x : In x (nms thresh l) -> In x l.
Proof.
  unfold nms. destruct l as [|y l]; [tauto|].
  intros H. apply NmsFacts.nms_loop_incl in H.
  eapply Permutation_in; [apply NmsFacts.sort_perm | exact H].
Qed.





Lemma geb_not_NaN x t : (x >=? t) = true -> x <> NaN.
Proof. intros H E. subst x. destruct t; discriminate H. Qed.

(** What the detector returns is a fixed point of its own suppression. *)
Lemma detector_output_is_nms_fixpoint d kps element threshold d' dets :
  detectFromElement d kps element threshold = Ok (d', dets) ->
  nms (nmsThresh d) dets = dets.
Proof.
  intros H. unfold detectFromElement in H.
  destruct (session d) as [s|]; [|discriminate].
  destruct (truthy_name (inputName d)); [|discriminate].
  destruct (run s element) as [outputs|msg]; simpl in H; [|discriminate].
  destruct (postprocess d kps outputs threshold) as [[kpa decoded]|err] eqn:Ep;
    simpl in H; [|discriminate].
  inversion H; subst; clear H.
  destruct (@buildDetections_selected d kps outputs threshold kpa decoded
              (detScale d element) Ep) as (cands & -> & Hm).
  apply nms_rerun_identity.
  apply Forall_forall. intros c Hc.
  apply (in_map boxAndScore) in Hc. rewrite Hm in Hc.
  apply in_map_iff in Hc. destruct Hc as (p & Hp & Hin).
  apply (f_equal snd) in Hp. cbn [snd boxAndScore] in Hp.
  destruct (@selected_in_range d _ threshold _ _ Hin) as [_ Hge].
  unfold scored. rewrite <- Hp. now apply geb_not_NaN in Hge.
Qed.

(** * Further properties of the code *)

(** ** The detector: suppression, overlap, anchors and input size *)

Module IouFacts.
Import SCRFD DetectorInput.

Lemma max_Fin a b :
  exists c, Num.max (Fin a) (Fin b) = Fin c /\ (a <= c)%Q /\ (b <= c)%Q /\
            (c == a \/ c == b)%Q.
Proof.
  unfold Num.max, Num.cmp. destruct (a ?= b)%Q eqn:E.
  - apply Qeq_alt in E. exists a. repeat split; lra.
  - apply Qlt_alt in E. exists b. repeat split; lra.
  - apply Qgt_alt in E. exists a. repeat split; lra.
Qed.

Lemma min_Fin a b :
  exists c, Num.min (Fin a) (Fin b) = Fin c /\ (c <= a)%Q /\ (c <= b)%Q /\
            (c == a \/ c == b)%Q.
Proof.
  unfold Num.min, Num.cmp. destruct (a ?= b)%Q eqn:E.
  - apply Qeq_alt in E. exists a. repeat split; lra.
  - apply Qlt_alt in E. exists a. repeat split; lra.
  - apply Qgt_alt in E. exists b. repeat split; lra.
Qed.

Lemma leb_Fin a b : Num.leb (Fin a) (Fin b) = true <-> (a <= b)%Q.
Proof.
  unfold Num.leb, Num.cmp. destruct (a ?= b)%Q eqn:E.
  - apply Qeq_alt in E. split; [lra | reflexivity].
  - apply Qlt_alt in E. split; [lra | reflexivity].
  - apply Qgt_alt in E. split; [discriminate | lra].
Qed.

Lemma leb_Fin_false a b : Num.leb (Fin a) (Fin b) = false <-> (b < a)%Q.
Proof.
  unfold Num.leb, Num.cmp. destruct (a ?= b)%Q eqn:E.
  - apply Qeq_alt in E. split; [discriminate | lra].
  - apply Qlt_alt in E. split; [discriminate | lra].
  - apply Qgt_alt in E. split; [lra | reflexivity].
Qed.

Lemma div_Fin_pos a b : (0 < b)%Q -> Fin a / Fin b = Fin (a / b).
Proof.
  intros H. unfold Num.div.
  assert (E : (b ?= 0)%Q = Gt) by (apply Qgt_alt; exact H).
  now rewrite E.
Qed.

Lemma iou_finite (ax1 ay1 ax2 ay2 bx1 by1 bx2 by2 : Q) :
  exists q,
    iou {| b_x1 := Fin ax1; b_y1 := Fin ay1; b_x2 := Fin ax2; b_y2 := Fin ay2 |}
        {| b_x1 := Fin bx1; b_y1 := Fin by1; b_x2 := Fin bx2; b_y2 := Fin by2 |}
    = Fin q /\ (0 <= q)%Q /\
    ((ax1 <= ax2 -> ay1 <= ay2 -> bx1 <= bx2 -> by1 <= by2 -> q <= 1)%Q).
Proof.
  unfold iou. cbn [b_x1 b_y1 b_x2 b_y2].
  destruct (max_Fin ax1 bx1) as (x1 & -> & Hx1a & Hx1b & Hx1c).
  destruct (max_Fin ay1 by1) as (y1 & -> & Hy1a & Hy1b & Hy1c).
  destruct (min_Fin ax2 bx2) as (x2 & -> & Hx2a & Hx2b & Hx2c).
  destruct (min_Fin ay2 by2) as (y2 & -> & Hy2a & Hy2b & Hy2c).
  cbn [Num.sub Num.neg Num.add].
  destruct (max_Fin 0 (x2 + - x1 + 1)) as (w & -> & Hw0 & Hw1 & Hwc).
  destruct (max_Fin 0 (y2 + - y1 + 1)) as (h & -> & Hh0 & Hh1 & Hhc).
  cbn [Num.mul Num.add Num.neg Num.sub].
  set (areaA := ((ax2 + - ax1 + 1) * (ay2 + - ay1 + 1))%Q).
  set (areaB := ((bx2 + - bx1 + 1) * (by2 + - by1 + 1))%Q).
  destruct (Num.leb (Fin (areaA + areaB + - (w * h))) (Fin 0)) eqn:E.
  - exists 0%Q. split; [reflexivity | split; [lra | intros; lra]].
  - apply leb_Fin_false in E. rewrite (div_Fin_pos _ E).
    exists (w * h / (areaA + areaB + - (w * h)))%Q. split; [reflexivity|].
    assert (Hwh : (0 <= w * h)%Q) by (apply Qmult_le_0_compat; assumption).
    split.
    + apply Qle_shift_div_l; [exact E | lra].
    + intros Ha1 Ha2 Hb1 Hb2.
      apply Qle_shift_div_r; [exact E|].
      assert (HwA : (w <= ax2 + - ax1 + 1)%Q) by (destruct Hwc; lra).
      assert (HhA : (h <= ay2 + - ay1 + 1)%Q) by (destruct Hhc; lra).
      assert (HwB : (w <= bx2 + - bx1 + 1)%Q) by (destruct Hwc; lra).
      assert (HhB : (h <= by2 + - by1 + 1)%Q) by (destruct Hhc; lra).
      assert (HA : (w * h <= areaA)%Q).
      { unfold areaA. apply Qmult_le_compat_nonneg; split; assumption. }
      assert (HB : (w * h <= areaB)%Q).
      { unfold areaB. apply Qmult_le_compat_nonneg; split; assumption. }
      lra.
Qed.

Lemma iou_self (x1 y1 x2 y2 : Q) :
  (x1 <= x2)%Q -> (y1 <= y2)%Q ->
  Num.eqv (iou {| b_x1 := Fin x1; b_y1 := Fin y1; b_x2 := Fin x2; b_y2 := Fin y2 |}
               {| b_x1 := Fin x1; b_y1 := Fin y1; b_x2 := Fin x2; b_y2 := Fin y2 |})
          (Fin 1).
Proof.
  intros Hx Hy. unfold iou. cbn [b_x1 b_y1 b_x2 b_y2].
  destruct (max_Fin x1 x1) as (a & -> & _ & _ & Ha).
  destruct (max_Fin y1 y1) as (b & -> & _ & _ & Hb).
  destruct (min_Fin x2 x2) as (c & -> & _ & _ & Hc).
  destruct (min_Fin y2 y2) as (d & -> & _ & _ & Hd).
  assert (Ea : (a == x1)%Q) by tauto. assert (Eb : (b == y1)%Q) by tauto.
  assert (Ec : (c == x2)%Q) by tauto. assert (Ed : (d == y2)%Q) by tauto.
  clear Ha Hb Hc Hd.
  cbn [Num.sub Num.neg Num.add].
  destruct (max_Fin 0 (c + - a + 1)) as (w & -> & Hw0 & Hw1 & Hwc).
  destruct (max_Fin 0 (d + - b + 1)) as (h & -> & Hh0 & Hh1 & Hhc).
  assert (Ew : (w == x2 + - x1 + 1)%Q) by (destruct Hwc; lra).
  assert (Eh : (h == y2 + - y1 + 1)%Q) by (destruct Hhc; lra).
  cbn [Num.mul Num.add Num.neg Num.sub].
  set (area := ((x2 + - x1 + 1) * (y2 + - y1 + 1))%Q).
  assert (Hwh : (w * h == area)%Q) by (unfold area; rewrite Ew, Eh; reflexivity).
  assert (Hpos : (0 < area)%Q).
  { unfold area. apply Qmult_lt_0_compat; lra. }
  assert (E : (0 < area + area + - (w * h))%Q) by lra.
  destruct (Num.leb (Fin (area + area + - (w * h))) (Fin 0)) eqn:El.
  - apply leb_Fin in El. lra.
  - rewrite (div_Fin_pos _ E). simpl.
    rewrite Hwh. field. lra.
Qed.

End IouFacts.

Module NmsMore.
Import SCRFD.

Lemma nms_loop_length thresh objects :
  (List.length (nms_loop thresh objects) <= List.length objects)%nat.
Proof.
  funelim (nms_loop thresh objects); simpl; [lia|].
  pose proof (filter_length_le
    (fun candidate => negb (iou (bbox current) (bbox candidate) >? thresh)) rest) as Hf.
  unfold suppress in *. lia.
Qed.

Lemma notBefore_score k x : notBefore k x <-> (score k <? score x) = false.
Proof. unfold notBefore. now rewrite comparefn_ltb. Qed.

Lemma nms_loop_reason thresh objects :
  forall x, In x objects ->
    In x (nms_loop thresh objects) \/
    exists k, In k (nms_loop thresh objects) /\
      (iou (bbox k) (bbox x) >? thresh) = true /\
      (StronglySorted notBefore objects -> notBefore k x).
Proof.
  funelim (nms_loop thresh objects); intros x Hin; [destruct Hin|].
  destruct Hin as [-> | Hin]; [left; now left|].
  destruct (iou (bbox current) (bbox x) >? thresh) eqn:E.
  - right. exists current. split; [now left | split; [exact E|]].
    intros Hs. inversion Hs as [|? ? _ Hc]; subst.
    rewrite Forall_forall in Hc. now apply Hc.
  - assert (Hx : In x (suppress thresh current rest)).
    { unfold suppress. apply filter_In. split; [exact Hin | now rewrite E]. }
    match goal with
    | IH : forall y, In y (suppress _ _ _) -> _ |- _ => destruct (IH x Hx) as [Hk | (k & Hk & Hi & Ho)]
    end.
    + left. now right.
    + right. exists k. split; [now right | split; [exact Hi|]].
      intros Hs. apply Ho. inversion Hs; subst. now apply filter_strongly.
Qed.

Lemma sorted_scores l :
  StronglySorted notBefore l ->
  StronglySorted (fun a b => (score a <? score b) = false) l.
Proof.
  induction 1 as [|x l Hs IH Hx]; constructor; [exact IH|].
  eapply Forall_impl; [|exact Hx]. intros y Hy. now apply notBefore_score.
Qed.

End NmsMore.
Import NmsMore.

(** X1.  Non-maximum suppression only removes: what it keeps are candidates
    of its input, no more of them than there were, in order of descending
    score; the first one kept has the highest score of all candidates, so a
    non-empty input never gives an empty result.  (The scores are numbers
    other than NaN, as are all scores that passed the threshold.) *)
Theorem nms_keeps_candidates_in_score_order (thresh : num) (l : list Detection) :
  Forall SCRFD.scored l ->
  (forall x, In x (SCRFD.nms thresh l) -> In x l) /\
  (List.length (SCRFD.nms thresh l) <= List.length l)%nat /\
  StronglySorted (fun a b => (score a <? score b) = false) (SCRFD.nms thresh l) /\
  (forall x, In x l ->
     exists best, hd_error (SCRFD.nms thresh l) = Some best /\
                  (score best <? score x) = false).
Proof.
  intros Hl. split; [|split; [|split]].
  - intros x. apply nms_incl.
  - destruct l as [|y l]; [simpl; lia|]. unfold SCRFD.nms.
    pose proof (nms_loop_length thresh (SCRFD.sort (y :: l))) as H1.
    pose proof (Permutation_length (sort_perm (y :: l))) as H2. lia.
  - apply sorted_scores. destruct l as [|y l]; [constructor|].
    unfold SCRFD.nms. apply nms_loop_strongly. now apply sort_strongly.
  - intros x Hx. destruct l as [|y l]; [destruct Hx|].
    unfold SCRFD.nms.
    pose proof (sort_strongly Hl) as Hs.
    assert (Hin : In x (SCRFD.sort (y :: l))).
    { eapply Permutation_in; [symmetry; apply sort_perm | exact Hx]. }
    destruct (SCRFD.sort (y :: l)) as [|best rest] eqn:E; [destruct Hin|].
    simp nms_loop. exists best. split; [reflexivity|].
    destruct Hin as [-> | Hin].
    + destruct (score x) as [q| | |] eqn:Eq; try reflexivity.
      apply ltb_Fin_false. lra.
    + inversion Hs as [|? ? _ Hc]; subst. rewrite Forall_forall in Hc.
      apply notBefore_score. now apply Hc.
Qed.

Lemma nms_keeps_candidates_witness :
  exists best, hd_error (SCRFD.nms (Fin 0.4) Scenario.overlapping) = Some best /\
               score best = Fin 0.875.
Proof.
  assert (Hs : Forall SCRFD.scored Scenario.overlapping)
    by (repeat constructor; discriminate).
  destruct (proj2 (proj2 (proj2
             (nms_keeps_candidates_in_score_order (Fin 0.4) Hs)))
             (nth 1 Scenario.overlapping (nth 0 Scenario.overlapping
                {| bbox := {| b_x1 := NaN; b_y1 := NaN; b_x2 := NaN; b_y2 := NaN |};
                   score := NaN; kps := None |}))
             (or_intror (or_introl eq_refl))) as (best & Hb & _).
  exists best. split; [exact Hb|].
  vm_compute in Hb. inversion Hb. reflexivity.
Defined.

(** X2.  Every candidate that suppression drops lies under a detection it
    keeps: one whose IoU with the candidate exceeds the threshold and, when
    no score is NaN, whose score is not lower. *)
Theorem nms_removes_only_overlapped (thresh : num) (l : list Detection) (x : Detection) :
  In x l ->
  In x (SCRFD.nms thresh l) \/
  exists k, In k (SCRFD.nms thresh l) /\
    (SCRFD.iou (bbox k) (bbox x) >? thresh) = true /\
    (Forall SCRFD.scored l -> (score k <? score x) = false).
Proof.
  intros Hx. destruct l as [|y l]; [destruct Hx|]. unfold SCRFD.nms.
  assert (Hin : In x (SCRFD.sort (y :: l))).
  { eapply Permutation_in; [symmetry; apply sort_perm | exact Hx]. }
  destruct (nms_loop_reason thresh _ _ Hin) as [H | (k & Hk & Hi & Ho)];
    [now left | right].
  exists k. repeat split; try assumption.
  intros Hl. apply notBefore_score, Ho. now apply sort_strongly.
Qed.

Lemma nms_removes_only_overlapped_witness :
  let weaker := {| bbox := Samples.box 0 0 10 10; score := Fin 0.5; kps := None |} in
  In weaker (SCRFD.nms (Fin 0.4) Scenario.overlapping) \/
  exists k, In k (SCRFD.nms (Fin 0.4) Scenario.overlapping) /\
    (SCRFD.iou (bbox k) (bbox weaker) >? Fin 0.4) = true /\
    (Forall SCRFD.scored Scenario.overlapping -> (score k <? score weaker) = false).
Proof.
  apply (@nms_removes_only_overlapped (Fin 0.4) Scenario.overlapping).
  left. reflexivity.
Defined.

(** X3.  For two boxes with finite corners in order ([x1 <= x2] and
    [y1 <= y2]), [iou] is a number between 0 and 1, it does not depend on the
    order of its arguments, and the IoU of a box with itself is 1. *)
Theorem iou_of_proper_boxes_is_a_ratio (a b : BBox) :
  DetectorInput.properBox a -> DetectorInput.properBox b ->
  DetectorInput.within 0 1 (SCRFD.iou a b) /\
  Num.eqv (SCRFD.iou a b) (SCRFD.iou b a) /\
  Num.eqv (SCRFD.iou a a) (Fin 1).
Proof.
  intros (ax1 & ay1 & ax2 & ay2 & -> & Hax & Hay)
         (bx1 & by1 & bx2 & by2 & -> & Hbx & Hby).
  split; [|split].
  - destruct (IouFacts.iou_finite ax1 ay1 ax2 ay2 bx1 by1 bx2 by2)
      as (q & Hq & H0 & H1).
    exists q. split; [exact Hq | split; [exact H0 | now apply H1]].
  - apply iou_sym.
  - now apply IouFacts.iou_self.
Qed.

Lemma iou_of_proper_boxes_witness :
  DetectorInput.within 0 1
    (SCRFD.iou (Samples.box 0 0 10 10) (Samples.box 1 1 11 11)) /\
  Num.eqv (SCRFD.iou (Samples.box 0 0 10 10) (Samples.box 1 1 11 11))
          (SCRFD.iou (Samples.box 1 1 11 11) (Samples.box 0 0 10 10)) /\
  Num.eqv (SCRFD.iou (Samples.box 0 0 10 10) (Samples.box 0 0 10 10)) (Fin 1).
Proof.
  apply iou_of_proper_boxes_is_a_ratio.
  - exists 0%Q, 0%Q, 10%Q, 10%Q. repeat split; lra.
  - exists 1%Q, 1%Q, 11%Q, 11%Q. repeat split; lra.
Defined.

Module GridFacts.
Import SCRFD.

Lemma nth_flat_map_blocks {A} (f : nat -> list A) (n : nat) (dflt : A) :
  (forall i, List.length (f i) = n) ->
  forall m k i j, (i < m)%nat -> (j < n)%nat ->
    nth (i * n + j) (flat_map f (seq k m)) dflt = nth j (f (k + i)%nat) dflt.
Proof.
  intros Hf. induction m as [|m IH]; intros k i j Hi Hj; [lia|].
  simpl. destruct i as [|i].
  - rewrite app_nth1 by (rewrite Hf; lia). now rewrite Nat.add_0_r.
  - rewrite app_nth2 by (rewrite Hf; lia). rewrite Hf.
    replace (S i * n + j - n)%nat with (i * n + j)%nat by lia.
    rewrite IH by lia. f_equal. f_equal. lia.
Qed.

Lemma centers_at height width stride na y x a c :
  (y < height)%nat -> (x < width)%nat -> (a < na)%nat -> (c < 2)%nat ->
  Num.get (getAnchorCenters height width stride na)
          (y * (width * (na * 2)) + (x * (na * 2) + (a * 2 + c))) =
  Num.get [Num.of_nat (x * stride); Num.of_nat (y * stride)] c.
Proof.
  intros Hy Hx Ha Hc. unfold getAnchorCenters, Num.get.
  rewrite (@nth_flat_map_blocks _ _ (width * (na * 2))%nat).
  - rewrite (@nth_flat_map_blocks _ _ (na * 2)%nat).
    + rewrite (@nth_flat_map_blocks _ _ 2%nat); try assumption; reflexivity.
    + intros i. rewrite (@DecodeFacts.length_flat_map_const _ _ _ 2%nat);
        [now rewrite length_seq | reflexivity].
    + exact Hx.
    + nia.
  - intros i. rewrite (@DecodeFacts.length_flat_map_const _ _ _ (na * 2)%nat).
    + now rewrite length_seq.
    + intros j. rewrite (@DecodeFacts.length_flat_map_const _ _ _ 2%nat);
        [now rewrite length_seq | reflexivity].
  - exact Hy.
  - nia.
Qed.

End GridFacts.

(** X4.  [getAnchorCenters] lays the anchors out row by row: anchor number
    [p], out of [height * width * numAnchors], is centred at column
    [(p / numAnchors) mod width] and row [p / numAnchors / width], each
    multiplied by the stride. *)
Theorem anchor_centers_form_a_grid (height width stride na p : nat) :
  (p < height * width * na)%nat ->
  Num.get (SCRFD.getAnchorCenters height width stride na) (p * 2) =
    Num.of_nat ((p / na) mod width * stride) /\
  Num.get (SCRFD.getAnchorCenters height width stride na) (p * 2 + 1) =
    Num.of_nat (p / na / width * stride).
Proof.
  intros Hp.
  assert (Hna : (na <> 0)%nat) by (intros ->; lia).
  assert (Hw : (width <> 0)%nat) by (intros ->; lia).
  set (a := (p mod na)%nat). set (q := (p / na)%nat).
  set (x := (q mod width)%nat). set (y := (q / width)%nat).
  assert (Ep : p = (q * na + a)%nat).
  { unfold q, a. rewrite (Nat.div_mod_eq p na) at 1. lia. }
  assert (Eq : q = (y * width + x)%nat).
  { unfold y, x. rewrite (Nat.div_mod_eq q width) at 1. lia. }
  assert (Ha : (a < na)%nat) by (apply Nat.mod_upper_bound; exact Hna).
  assert (Hx : (x < width)%nat) by (apply Nat.mod_upper_bound; exact Hw).
  assert (Hq : (q < height * width)%nat).
  { apply Nat.Div0.div_lt_upper_bound. lia. }
  assert (Hy : (y < height)%nat).
  { apply Nat.Div0.div_lt_upper_bound. lia. }
  split.
  - replace (p * 2)%nat
      with (y * (width * (na * 2)) + (x * (na * 2) + (a * 2 + 0)))%nat by nia.
    rewrite GridFacts.centers_at by (assumption || lia). reflexivity.
  - replace (p * 2 + 1)%nat
      with (y * (width * (na * 2)) + (x * (na * 2) + (a * 2 + 1)))%nat by nia.
    rewrite GridFacts.centers_at by (assumption || lia). reflexivity.
Qed.

Lemma anchor_centers_witness :
  Num.get (SCRFD.getAnchorCenters 2 3 8 2) (7 * 2) = Num.of_nat 0 /\
  Num.get (SCRFD.getAnchorCenters 2 3 8 2) (7 * 2 + 1) = Num.of_nat 8.
Proof.
  apply (@anchor_centers_form_a_grid 2 3 8 2 7). lia.
Defined.

Module RoundFacts.

Lemma round_le_int (x : Q) (n : Z) :
  (x <= inject_Z n)%Q -> (Qfloor (x + (1 # 2)) <= n)%Z.
Proof.
  intros H.
  pose proof (Qfloor_le (x + (1 # 2))) as Hf.
  assert (Hlt : (inject_Z (Qfloor (x + (1 # 2))) < inject_Z (n + 1))%Q).
  { rewrite inject_Z_plus. change (inject_Z 1) with 1%Q. lra. }
  rewrite <- Zlt_Qlt in Hlt. lia.
Qed.

Lemma round_ge_int (x : Q) (n : Z) :
  (inject_Z n <= x)%Q -> (n <= Qfloor (x + (1 # 2)))%Z.
Proof.
  intros H.
  pose proof (Qlt_floor (x + (1 # 2))) as Hf.
  rewrite inject_Z_plus in Hf. change (inject_Z 1) with 1%Q in Hf.
  assert (Hlt : (inject_Z n < inject_Z (Qfloor (x + (1 # 2)) + 1))%Q).
  { rewrite inject_Z_plus. change (inject_Z 1) with 1%Q. lra. }
  rewrite <- Zlt_Qlt in Hlt. lia.
Qed.

Lemma round_mono (x y : Q) :
  (x <= y)%Q -> (Qfloor (x + (1 # 2)) <= Qfloor (y + (1 # 2)))%Z.
Proof. intros H. apply Qfloor_resp_le. lra. Qed.

Lemma of_nat_pos n : (0 < n)%nat -> (0 < inject_Z (Z.of_nat n))%Q.
Proof.
  intros H. change 0%Q with (inject_Z 0). rewrite <- Zlt_Qlt. lia.
Qed.

End RoundFacts.

(** X5.  For a frame and a model input that are not empty, [prepareInput]
    draws the frame at an integer size that fits inside the model input and
    spans its full width or its full height; the detection scale is the drawn
    height divided by the frame height. *)
Theorem letterbox_fits_the_model_input (d : SCRFD.Detector) (element : InputElement) :
  (0 < el_width element)%nat -> (0 < el_height element)%nat ->
  (0 < fst (SCRFD.inputSize d))%nat -> (0 < snd (SCRFD.inputSize d))%nat ->
  exists newWidth newHeight : Z,
    DetectorInput.letterbox d element =
      (Fin (inject_Z newWidth), Fin (inject_Z newHeight)) /\
    (0 <= newWidth <= Z.of_nat (fst (SCRFD.inputSize d)))%Z /\
    (0 <= newHeight <= Z.of_nat (snd (SCRFD.inputSize d)))%Z /\
    (newWidth = Z.of_nat (fst (SCRFD.inputSize d)) \/
     newHeight = Z.of_nat (snd (SCRFD.inputSize d))) /\
    SCRFD.detScale d element =
      Fin (inject_Z newHeight) / Num.of_nat (el_height element).
Proof.
  intros Hw Hh HtW HtH.
  unfold DetectorInput.letterbox, SCRFD.detScale, Num.of_nat.
  set (w := inject_Z (Z.of_nat (el_width element))).
  set (h := inject_Z (Z.of_nat (el_height element))).
  set (tW := inject_Z (Z.of_nat (fst (SCRFD.inputSize d)))).
  set (tH := inject_Z (Z.of_nat (snd (SCRFD.inputSize d)))).
  assert (Pw : (0 < w)%Q) by now apply RoundFacts.of_nat_pos.
  assert (Ph : (0 < h)%Q) by now apply RoundFacts.of_nat_pos.
  assert (PtW : (0 < tW)%Q) by now apply RoundFacts.of_nat_pos.
  assert (PtH : (0 < tH)%Q) by now apply RoundFacts.of_nat_pos.
  cbv zeta.
  rewrite (IouFacts.div_Fin_pos h Pw), (IouFacts.div_Fin_pos tH PtW).
  assert (Pr : (0 < h / w)%Q).
  { apply Qlt_shift_div_l; [exact Pw | lra]. }
  unfold Num.gtb.
  destruct (Num.ltb (Fin (tH / tW)) (Fin (h / w))) eqn:E.
  - apply ltb_Fin in E.
    rewrite (IouFacts.div_Fin_pos tH Pr). cbn [Num.round].
    exists (Qfloor (tH / (h / w) + (1 # 2))), (Z.of_nat (snd (SCRFD.inputSize d))).
    split; [reflexivity|].
    assert (Hx : (tH / (h / w) <= tW)%Q).
    { apply Qle_shift_div_r; [exact Pr|].
      apply Qlt_le_weak.
      apply (Qmult_lt_r _ _ tW PtW) in E.
      assert (Ex : (tH / tW * tW == tH)%Q) by (field; lra).
      rewrite Ex in E. lra. }
    assert (H0 : (0 <= tH / (h / w))%Q).
    { apply Qle_shift_div_l; [exact Pr | lra]. }
    repeat split.
    + apply (@RoundFacts.round_ge_int _ 0%Z). exact H0.
    + apply RoundFacts.round_le_int. exact Hx.
    + lia.
    + lia.
    + now right.
  - apply ltb_Fin_false in E.
    cbn [Num.mul Num.round].
    exists (Z.of_nat (fst (SCRFD.inputSize d))), (Qfloor (tW * (h / w) + (1 # 2))).
    split; [reflexivity|].
    assert (Hx : (tW * (h / w) <= tH)%Q).
    { apply (Qmult_le_l _ _ tW PtW) in E.
      assert (Ex : (tW * (tH / tW) == tH)%Q) by (field; lra).
      rewrite Ex in E. exact E. }
    assert (H0 : (0 <= tW * (h / w))%Q).
    { apply Qmult_le_0_compat; lra. }
    repeat split.
    + lia.
    + lia.
    + apply (@RoundFacts.round_ge_int _ 0%Z). exact H0.
    + apply RoundFacts.round_le_int. exact Hx.
    + now left.
Qed.

Lemma letterbox_witness :
  exists newWidth newHeight : Z,
    DetectorInput.letterbox Scenario.loadedDetector
      {| el_width := 16; el_height := 9; el_content := 1 |} =
      (Fin (inject_Z newWidth), Fin (inject_Z newHeight)) /\
    (0 <= newWidth <= 8)%Z /\ (0 <= newHeight <= 8)%Z /\
    (newWidth = 8%Z \/ newHeight = 8%Z).
Proof.
  destruct (@letterbox_fits_the_model_input Scenario.loadedDetector
              {| el_width := 16; el_height := 9; el_content := 1 |})
    as (w & h & E & Hw & Hh & Hs & _); try (vm_compute; lia).
  exists w, h. repeat split; try exact E; try apply Hw; try apply Hh.
  exact Hs.
Defined.

(** X6.  [loadModel] stores the session and its output names, and the
    anchor layout follows from the number of outputs: 6 or 9 outputs give the
    strides 8, 16, 32 with two anchors each, 10 or 15 outputs give the strides
    8 to 128 with one anchor each, and any other number leaves the layout as
    it was.  Keypoints are switched on by 9 or 15 outputs and are never
    switched off again.  A layout with one stride per feature map, positive
    strides and one or two anchors stays such a layout. *)
Theorem model_outputs_fix_the_anchor_layout (d : SCRFD.Detector) (s : InferenceSession) :
  let d' := SCRFD.loadModel d s in
  let n := List.length (sessOutputNames s) in
  (SCRFD.session d' = Some s /\ SCRFD.outputNames d' = sessOutputNames s) /\
  (n = 6%nat \/ n = 9%nat ->
     SCRFD.fmc d' = 3%nat /\ SCRFD.featStrideFpn d' = [8; 16; 32]%nat /\
     SCRFD.numAnchors d' = 2%nat) /\
  (n = 10%nat \/ n = 15%nat ->
     SCRFD.fmc d' = 5%nat /\ SCRFD.featStrideFpn d' = [8; 16; 32; 64; 128]%nat /\
     SCRFD.numAnchors d' = 1%nat) /\
  (n <> 6%nat -> n <> 9%nat -> n <> 10%nat -> n <> 15%nat ->
     SCRFD.fmc d' = SCRFD.fmc d /\
     SCRFD.featStrideFpn d' = SCRFD.featStrideFpn d /\
     SCRFD.numAnchors d' = SCRFD.numAnchors d) /\
  SCRFD.useKps d' = (SCRFD.useKps d || Nat.eqb n 9 || Nat.eqb n 15) /\
  (DetectorInput.layoutOk d -> DetectorInput.layoutOk d').
Proof.
  cbv zeta. unfold DetectorInput.layoutOk, SCRFD.loadModel, SCRFD.initFromOutputs.
  cbn [SCRFD.session SCRFD.outputNames SCRFD.useKps SCRFD.fmc
       SCRFD.featStrideFpn SCRFD.numAnchors].
  set (n := List.length (sessOutputNames s)).
  destruct (Nat.eqb n 6) eqn:E6; [apply Nat.eqb_eq in E6; rewrite E6 |
  destruct (Nat.eqb n 9) eqn:E9; [apply Nat.eqb_eq in E9; rewrite E9 |
  destruct (Nat.eqb n 10) eqn:E10; [apply Nat.eqb_eq in E10; rewrite E10 |
  destruct (Nat.eqb n 15) eqn:E15; [apply Nat.eqb_eq in E15; rewrite E15 |
  apply Nat.eqb_neq in E6, E9, E10, E15]]]];
  cbn [SCRFD.session SCRFD.outputNames SCRFD.useKps SCRFD.fmc
       SCRFD.featStrideFpn SCRFD.numAnchors Nat.eqb orb List.length];
  repeat split;
  try reflexivity; try lia; try tauto;
  try (destruct (SCRFD.useKps d); reflexivity);
  try (repeat constructor; lia).
Qed.

Lemma model_outputs_witness :
  SCRFD.fmc Scenario.loadedDetector = 3%nat /\
  SCRFD.featStrideFpn Scenario.loadedDetector = [8; 16; 32]%nat /\
  SCRFD.numAnchors Scenario.loadedDetector = 2%nat.
Proof.
  exact (proj1 (proj2 (model_outputs_fix_the_anchor_layout
                         SCRFD.create Scenario.detectorSession))
               (or_introl eq_refl)).
Defined.

(** ** The signals measured on a face *)

Module RangeFacts.
Import Liveness SignalDefs.

Lemma min_Fin_cases a b :
  (Num.min (Fin a) (Fin b) = Fin a /\ (a <= b)%Q) \/
  (Num.min (Fin a) (Fin b) = Fin b /\ (b < a)%Q).
Proof.
  unfold Num.min, Num.cmp. destruct (a ?= b)%Q eqn:E.
  - apply Qeq_alt in E. left. split; [reflexivity | lra].
  - apply Qlt_alt in E. left. split; [reflexivity | lra].
  - apply Qgt_alt in E. right. split; [reflexivity | lra].
Qed.

Lemma max_Fin_cases a b :
  (Num.max (Fin a) (Fin b) = Fin a /\ (b <= a)%Q) \/
  (Num.max (Fin a) (Fin b) = Fin b /\ (a < b)%Q).
Proof.
  unfold Num.max, Num.cmp. destruct (a ?= b)%Q eqn:E.
  - apply Qeq_alt in E. left. split; [reflexivity | lra].
  - apply Qlt_alt in E. right. split; [reflexivity | lra].
  - apply Qgt_alt in E. left. split; [reflexivity | lra].
Qed.

Lemma describes_step rg qs r :
  describes rg qs ->
  describes (updateRangeState rg r) (qs ++ finiteRatios [r]).
Proof.
  intros H. destruct r as [[q| | |]|]; simpl; rewrite ?app_nil_r; try exact H.
  unfold updateRangeState. cbn [Num.isFinite negb].
  destruct qs as [|q0 qs].
  - simpl in H. subst rg. simpl. exists q, q. repeat split; try now left.
    constructor; [lra | constructor].
  - destruct H as (lo & hi & -> & Hlo & Hhi & Hall). cbn [rmin rmax].
    assert (Hlh : (lo <= hi)%Q).
    { rewrite Forall_forall in Hall. apply (Hall lo Hlo). }
    change ((q0 :: qs) ++ [q]) with (q0 :: (qs ++ [q])).
    destruct (min_Fin_cases lo q) as [[-> H1] | [-> H1]],
             (max_Fin_cases hi q) as [[-> H2] | [-> H2]].
    + exists lo, hi. repeat split.
      * change (In lo ((q0 :: qs) ++ [q])). apply in_or_app. now left.
      * change (In hi ((q0 :: qs) ++ [q])). apply in_or_app. now left.
      * change (Forall (fun q1 => lo <= q1 <= hi)%Q ((q0 :: qs) ++ [q])).
        apply Forall_app. split; [exact Hall|]. constructor; [lra | constructor].
    + exists lo, q. repeat split.
      * change (In lo ((q0 :: qs) ++ [q])). apply in_or_app. now left.
      * change (In q ((q0 :: qs) ++ [q])). apply in_or_app. right. now left.
      * change (Forall (fun q1 => lo <= q1 <= q)%Q ((q0 :: qs) ++ [q])).
        apply Forall_app. split; [|constructor; [lra | constructor]].
        eapply Forall_impl; [|exact Hall]. intros a Ha. simpl in Ha. lra.
    + exists q, hi. repeat split.
      * change (In q ((q0 :: qs) ++ [q])). apply in_or_app. right. now left.
      * change (In hi ((q0 :: qs) ++ [q])). apply in_or_app. now left.
      * change (Forall (fun q1 => q <= q1 <= hi)%Q ((q0 :: qs) ++ [q])).
        apply Forall_app. split; [|constructor; [lra | constructor]].
        eapply Forall_impl; [|exact Hall]. intros a Ha. simpl in Ha. lra.
    + lra.
Qed.

Lemma finiteRatios_app a b : finiteRatios (a ++ b) = finiteRatios a ++ finiteRatios b.
Proof. unfold finiteRatios. apply flat_map_app. Qed.

Lemma describes_run rs : forall rg qs,
  describes rg qs ->
  describes (fold_left updateRangeState rs rg) (qs ++ finiteRatios rs).
Proof.
  induction rs as [|r rs IH]; intros rg qs H; cbn [fold_left].
  - change (finiteRatios []) with (@nil Q). now rewrite app_nil_r.
  - replace (finiteRatios (r :: rs)) with (finiteRatios [r] ++ finiteRatios rs)
      by (symmetry; apply (finiteRatios_app [r] rs)).
    rewrite app_assoc. apply IH. now apply describes_step.
Qed.

End RangeFacts.

(** X7.  After any run of [updateRangeState] from the empty range,
    [getSpread] is null exactly when no finite ratio was offered (null, NaN
    and infinite ratios are ignored); otherwise it is the largest finite
    ratio minus the smallest, and one more update never lowers it. *)
Theorem spread_is_max_minus_min_of_finite_ratios (rs : list (option num)) :
  let rg := fold_left Liveness.updateRangeState rs Liveness.emptyRange in
  match Liveness.getSpread rg with
  | None => SignalDefs.finiteRatios rs = []
  | Some s =>
      exists lo hi : Q,
        In lo (SignalDefs.finiteRatios rs) /\ In hi (SignalDefs.finiteRatios rs) /\
        Forall (fun q => lo <= q <= hi)%Q (SignalDefs.finiteRatios rs) /\
        s = Fin hi - Fin lo /\
        forall r, exists s',
          Liveness.getSpread (Liveness.updateRangeState rg r) = Some s' /\
          (s <=? s') = true
  end.
Proof.
  cbv zeta.
  pose proof (@RangeFacts.describes_run rs Liveness.emptyRange [] eq_refl) as H.
  simpl in H. unfold SignalDefs.describes in H.
  destruct (SignalDefs.finiteRatios rs) as [|q qs].
  - rewrite H. reflexivity.
  - destruct H as (lo & hi & -> & Hlo & Hhi & Hall).
    assert (Hlh : (lo <= hi)%Q).
    { rewrite Forall_forall in Hall. apply (Hall lo Hlo). }
    unfold Liveness.getSpread at 1. cbn [Liveness.rmin Liveness.rmax].
    exists lo, hi. repeat split; try assumption.
    intros r.
    destruct r as [[v| | |]|];
      try (eexists; split; [reflexivity | apply IouFacts.leb_Fin; lra]).
    unfold Liveness.updateRangeState, Liveness.getSpread.
    cbn [Num.isFinite negb Liveness.rmin Liveness.rmax].
    destruct (RangeFacts.min_Fin_cases lo v) as [[-> H1] | [-> H1]],
             (RangeFacts.max_Fin_cases hi v) as [[-> H2] | [-> H2]];
      (eexists; split; [reflexivity | apply IouFacts.leb_Fin; lra]).
Qed.

Module PoseFacts.
Import Liveness DetectorInput.

Lemma clamp_0_100 (r : num) :
  Num.max (Fin 0) (Num.min (Fin 100) r) = NaN \/
  within 0 100 (Num.max (Fin 0) (Num.min (Fin 100) r)).
Proof.
  destruct r as [q| | |].
  - right.
    destruct (RangeFacts.min_Fin_cases 100 q) as [[-> H1] | [-> H1]].
    + exists 100%Q. split; [reflexivity | lra].
    + destruct (RangeFacts.max_Fin_cases 0 q) as [[-> H2] | [-> H2]].
      * exists 0%Q. split; [reflexivity | lra].
      * exists q. split; [reflexivity | lra].
  - right. exists 100%Q. split; [reflexivity | lra].
  - right. exists 0%Q. split; [reflexivity | lra].
  - now left.
Qed.

End PoseFacts.

(** X8.  The frontal score in a frame's metrics is absent exactly when the
    estimator gave no pose; when present it is NaN or a number between 0 and
    100, whatever [Math.sqrt] and [Math.exp] return. *)
Theorem frontal_score_is_clamped (M : Liveness.JsMath)
    (st : Liveness.LivenessComputationState) (d : Liveness.DetectionWithLandmarks) :
  let m := snd (Liveness.observeFrame M st d) in
  match Liveness.frontalScore m with
  | None => Liveness.pose d = None
  | Some s => Liveness.pose d <> None /\ (s = NaN \/ DetectorInput.within 0 100 s)
  end.
Proof.
  cbv zeta. unfold Liveness.observeFrame. cbn [snd Liveness.frontalScore].
  destruct (Liveness.pose d) as [p|]; [|reflexivity].
  cbn [Liveness.toPoseDegrees Liveness.computePoseScore].
  split; [discriminate | apply PoseFacts.clamp_0_100].
Qed.

Module RatioFacts.
Import Liveness SignalDefs.

Lemma nth_error_finite (l : list Point) i :
  Forall finitePoint l -> (i < List.length l)%nat ->
  exists x y : Q, nth_error l i = Some {| pt_x := Fin x; pt_y := Fin y |}.
Proof.
  intros Hl Hi. destruct (nth_error l i) as [p|] eqn:E.
  - rewrite Forall_forall in Hl. destruct (Hl p (nth_error_In _ _ E)) as (x & y & ->).
    now exists x, y.
  - apply nth_error_None in E. lia.
Qed.

Lemma nth_error_finite_or_none (l : list Point) i :
  Forall finitePoint l ->
  nth_error l i = None \/
  exists x y : Q, nth_error l i = Some {| pt_x := Fin x; pt_y := Fin y |}.
Proof.
  intros Hl. destruct (nth_error l i) as [p|] eqn:E; [right | now left].
  rewrite Forall_forall in Hl. destruct (Hl p (nth_error_In _ _ E)) as (x & y & ->).
  now exists x, y.
Qed.

Lemma abs_Fin a : Num.abs (Fin a) = Fin (Qabs a).
Proof. reflexivity. Qed.

Lemma eqb_Fin a b : Num.eqb (Fin a) (Fin b) = true <-> (a == b)%Q.
Proof.
  unfold Num.eqb, Num.cmp. destruct (a ?= b)%Q eqn:E.
  - apply Qeq_alt in E. tauto.
  - apply Qlt_alt in E. split; [discriminate | lra].
  - apply Qgt_alt in E. split; [discriminate | lra].
Qed.

Lemma eqb_Fin_false a b : Num.eqb (Fin a) (Fin b) = false <-> ~ (a == b)%Q.
Proof.
  rewrite <- eqb_Fin. destruct (Num.eqb (Fin a) (Fin b)); split; congruence.
Qed.

Lemma div_Fin_nonzero a b : ~ (b == 0)%Q -> Fin a / Fin b = Fin (a / b).
Proof.
  intros H. unfold Num.div. destruct (b ?= 0)%Q eqn:E; try reflexivity.
  apply Qeq_alt in E. contradiction.
Qed.

End RatioFacts.

(** X9.  [computeNodRatio] and [computeShakeRatio] return null for a face
    with fewer than 98 landmarks; for a face with at least 98 landmarks and
    finite coordinates both return a finite number, since the box height and
    width they divide by are raised to at least 1. *)
Theorem head_ratios_need_98_landmarks (d : Liveness.DetectionWithLandmarks) :
  ((List.length (Liveness.landmarks d) < 98)%nat ->
     Liveness.computeNodRatio (Some d) = None /\
     Liveness.computeShakeRatio (Some d) = None) /\
  (SignalDefs.finiteFace d -> (98 <= List.length (Liveness.landmarks d))%nat ->
     exists nodQ shakeQ : Q,
       Liveness.computeNodRatio (Some d) = Some (Fin nodQ) /\
       Liveness.computeShakeRatio (Some d) = Some (Fin shakeQ)).
Proof.
  split.
  - intros Hlen. unfold Liveness.computeNodRatio, Liveness.computeShakeRatio,
      Liveness.getFaceCenterAndNose.
    apply Nat.ltb_lt in Hlen. rewrite Hlen. split; reflexivity.
  - intros [Hl (x1 & y1 & x2 & y2 & Hb)] Hlen.
    unfold Liveness.computeNodRatio, Liveness.computeShakeRatio,
      Liveness.getFaceCenterAndNose, Liveness.toCanvasPoint.
    assert (E : Nat.ltb (List.length (Liveness.landmarks d)) 98 = false)
      by (apply Nat.ltb_ge; exact Hlen).
    rewrite E, Hb.
    destruct (@RatioFacts.nth_error_finite _ 96 Hl ltac:(lia)) as (ax & ay & ->).
    destruct (@RatioFacts.nth_error_finite _ 97 Hl ltac:(lia)) as (bx & by_ & ->).
    destruct (@RatioFacts.nth_error_finite _ 76 Hl ltac:(lia)) as (cx & cy & ->).
    destruct (@RatioFacts.nth_error_finite _ 82 Hl ltac:(lia)) as (ex & ey & ->).
    destruct (@RatioFacts.nth_error_finite _ 54 Hl ltac:(lia)) as (nx & ny & ->).
    cbn [pt_x pt_y b_x1 b_y1 b_x2 b_y2 Liveness.centerX Liveness.centerY
         Liveness.noseX Liveness.noseY Liveness.faceWidth Liveness.faceHeight
         Num.add Num.sub Num.neg].
    destruct (IouFacts.max_Fin 1 (x2 + - x1)) as (w & -> & Hw & _).
    destruct (IouFacts.max_Fin 1 (y2 + - y1)) as (h & -> & Hh & _).
    assert (P4 : (0 < 4)%Q) by reflexivity.
    rewrite !(IouFacts.div_Fin_pos _ P4).
    cbn [Num.add Num.sub Num.neg].
    rewrite (@IouFacts.div_Fin_pos _ h) by lra.
    rewrite (@IouFacts.div_Fin_pos _ w) by lra.
    eexists. eexists. split; reflexivity.
Qed.

Lemma openFace_finite : SignalDefs.finiteFace Samples.openFace.
Proof.
  split.
  - apply Forall_forall. intros p Hp.
    apply in_map_iff in Hp. destruct Hp as (i & <- & _).
    unfold Scenario.pointAt.
    do 98 (destruct i as [|i]; [eexists; eexists; reflexivity|]).
    eexists; eexists; reflexivity.
  - exists (-4)%Q, (-4)%Q, 4%Q, 4%Q. reflexivity.
Defined.

Lemma head_ratios_witness :
  exists nodQ shakeQ : Q,
    Liveness.computeNodRatio (Some Samples.openFace) = Some (Fin nodQ) /\
    Liveness.computeShakeRatio (Some Samples.openFace) = Some (Fin shakeQ).
Proof.
  apply (proj2 (head_ratios_need_98_landmarks Samples.openFace)).
  - exact openFace_finite.
  - vm_compute. lia.
Defined.

(** X10.  For a face with finite coordinates, the mouth ratio is a finite
    number that is not negative; the two eye heights are finite and not
    negative, and the blink ratio is a non-negative number or [Infinity],
    the latter exactly when both eye heights are 0. *)
Theorem eye_and_mouth_ratios_of_a_finite_face (d : Liveness.DetectionWithLandmarks) :
  SignalDefs.finiteFace d ->
  match Liveness.computeMouthRatio (Some d) with
  | None => True
  | Some r => exists q : Q, r = Fin q /\ (0 <= q)%Q
  end /\
  match Liveness.computeBlinkRatios (Some d) with
  | None => True
  | Some m =>
      (exists lh rh : Q,
         Liveness.leftHeight m = Fin lh /\ Liveness.rightHeight m = Fin rh /\
         (0 <= lh)%Q /\ (0 <= rh)%Q) /\
      (Liveness.ratio m = PInf \/
       exists q : Q, Liveness.ratio m = Fin q /\ (0 <= q)%Q) /\
      (Liveness.ratio m = PInf <->
       (Liveness.leftHeight m === Fin 0) && (Liveness.rightHeight m === Fin 0) = true)
  end.
Proof.
  intros [Hl _]. split.
  - unfold Liveness.computeMouthRatio, Liveness.toCanvasPoint.
    destruct (@RatioFacts.nth_error_finite_or_none _ 90 Hl) as [-> | (ax & ay & ->)];
      [exact I|].
    destruct (@RatioFacts.nth_error_finite_or_none _ 94 Hl) as [-> | (bx & by_ & ->)];
      [exact I|].
    destruct (@RatioFacts.nth_error_finite_or_none _ 88 Hl) as [-> | (cx & cy & ->)];
      [exact I|].
    destruct (@RatioFacts.nth_error_finite_or_none _ 92 Hl) as [-> | (ex & ey & ->)];
      [exact I|].
    cbn [pt_x pt_y Num.sub Num.neg Num.add Num.abs].
    destruct (Fin (Qabs (ex + - cx)) === Fin 0) eqn:E; [exact I|].
    apply RatioFacts.eqb_Fin_false in E.
    rewrite (RatioFacts.div_Fin_nonzero _ E).
    eexists. split; [reflexivity|].
    pose proof (Qabs_nonneg (ex + - cx)) as H1.
    pose proof (Qabs_nonneg (by_ + - ay)) as H2.
    apply Qle_shift_div_l; [|lra].
    destruct (Qlt_le_dec 0 (Qabs (ex + - cx))) as [H|H]; [exact H|].
    exfalso. apply E. lra.
  - unfold Liveness.computeBlinkRatios, Liveness.toCanvasPoint.
    destruct (@RatioFacts.nth_error_finite_or_none _ 66 Hl) as [-> | (x66 & y66 & ->)];
      [exact I|].
    destruct (@RatioFacts.nth_error_finite_or_none _ 62 Hl) as [-> | (x62 & y62 & ->)];
      [exact I|].
    destruct (@RatioFacts.nth_error_finite_or_none _ 64 Hl) as [-> | (x64 & y64 & ->)];
      [exact I|].
    destruct (@RatioFacts.nth_error_finite_or_none _ 60 Hl) as [-> | (x60 & y60 & ->)];
      [exact I|].
    destruct (@RatioFacts.nth_error_finite_or_none _ 74 Hl) as [-> | (x74 & y74 & ->)];
      [exact I|].
    destruct (@RatioFacts.nth_error_finite_or_none _ 70 Hl) as [-> | (x70 & y70 & ->)];
      [exact I|].
    destruct (@RatioFacts.nth_error_finite_or_none _ 72 Hl) as [-> | (x72 & y72 & ->)];
      [exact I|].
    destruct (@RatioFacts.nth_error_finite_or_none _ 68 Hl) as [-> | (x68 & y68 & ->)];
      [exact I|].
    cbn [pt_x pt_y Num.sub Num.neg Num.add Num.abs
         Liveness.leftHeight Liveness.rightHeight Liveness.ratio].
    set (lh := Qabs (y66 + - y62)). set (rh := Qabs (y74 + - y70)).
    set (lw := Qabs (x64 + - x60)). set (rw := Qabs (x72 + - x68)).
    assert (Hlh : (0 <= lh)%Q) by apply Qabs_nonneg.
    assert (Hrh : (0 <= rh)%Q) by apply Qabs_nonneg.
    assert (Hlw : (0 <= lw)%Q) by apply Qabs_nonneg.
    assert (Hrw : (0 <= rw)%Q) by apply Qabs_nonneg.
    split; [exists lh, rh; repeat split; assumption|].
    assert (Hdiv : forall a b : Q, (0 <= a)%Q -> (0 <= b)%Q -> ~ (b == 0)%Q ->
                   (0 <= a / b)%Q).
    { intros a b Ha Hb Hne. apply Qle_shift_div_l; [|lra].
      destruct (Qlt_le_dec 0 b) as [H|H]; [exact H | exfalso; apply Hne; lra]. }
    destruct (Fin lh === Fin 0) eqn:El, (Fin rh === Fin 0) eqn:Er.
    + split; [now left | split; reflexivity].
    + apply RatioFacts.eqb_Fin_false in Er.
      rewrite (RatioFacts.div_Fin_nonzero _ Er). cbn.
      split; [right; eexists; split; [reflexivity | now apply Hdiv]|].
      split; discriminate.
    + apply RatioFacts.eqb_Fin_false in El.
      rewrite (RatioFacts.div_Fin_nonzero _ El). cbn.
      split; [right; eexists; split; [reflexivity | now apply Hdiv]|].
      split; discriminate.
    + apply RatioFacts.eqb_Fin_false in El, Er.
      rewrite (RatioFacts.div_Fin_nonzero _ El), (RatioFacts.div_Fin_nonzero _ Er).
      cbn [andb].
      destruct (RangeFacts.min_Fin_cases (lw / lh) (rw / rh)) as [[-> _] | [-> _]];
        (split; [right; eexists; split; [reflexivity | now apply Hdiv]|]);
        split; discriminate.
Qed.

Lemma eye_and_mouth_ratios_witness :
  match Liveness.computeMouthRatio (Some Samples.openFace) with
  | None => True
  | Some r => exists q : Q, r = Fin q /\ (0 <= q)%Q
  end.
Proof.
  exact (proj1 (eye_and_mouth_ratios_of_a_finite_face openFace_finite)).
Defined.

(** ** The engine: session bookkeeping, warm-up and single images *)

Module EngineFacts.
Import EngineDefs.

Lemma consistent_fresh : consistent createLivenessComputationState.
Proof.
  unfold consistent. cbn. repeat split; try lia; try discriminate.
Qed.

Lemma consistent_machine st st' :
  machine st' = machine st -> consistent st -> consistent st'.
Proof.
  intros H. unfold consistent.
  pose proof (f_equal mActive H) as Ha. pose proof (f_equal mStageIndex H) as Hi.
  pose proof (f_equal mProgress H) as Hp. pose proof (f_equal mCompleted H) as Hc.
  simpl in *. now rewrite Ha, Hi, Hp, Hc.
Qed.

Lemma status_of_evaluateStage st m :
  exists extra,
    snd (evaluateStage st m) = buildStageStatus (fst (evaluateStage st m)) extra.
Proof.
  unfold evaluateStage.
  destruct (nth_error LIVENESS_STAGES (stageIndex st)) as [stg|];
    [|eexists; reflexivity].
  destruct (negb (check stg m st)); [eexists; reflexivity|].
  cbv zeta. eexists. reflexivity.
Qed.

Lemma evaluateStage_lastMetrics st m :
  lastMetrics (fst (evaluateStage st m)) = lastMetrics st.
Proof. eval_stage st m; reflexivity. Qed.

Lemma consistent_evaluateStage st m :
  consistent st -> consistent (fst (evaluateStage st m)).
Proof.
  unfold consistent. intros (Hi & Hp & Hc & Ha).
  unfold evaluateStage.
  destruct (nth_error LIVENESS_STAGES (stageIndex st)) as [stg|] eqn:E.
  - assert (Hlt : (stageIndex st < 4)%nat).
    { apply (proj1 (nth_error_Some LIVENESS_STAGES (stageIndex st))). rewrite E. discriminate. }
    assert (Hnc : completed st = false).
    { destruct (completed st); [|reflexivity].
      assert (stageIndex st = 4%nat) by (now apply Hc). lia. }
    destruct (check stg m st); cbn [negb fst]; [|tauto].
    cbv zeta.
    destruct st as [a i p c lm nr sr bs ms].
    cbn [stageIndex progress completed active] in *.
    destruct (key stg); cbn -[Num.div Num.of_nat Num.eqv Nat.leb];
      (match goal with
       | |- context [Nat.leb ?x ?y] => destruct (Nat.leb x y) eqn:El
       end;
       [apply Nat.leb_le in El | apply Nat.leb_gt in El];
       cbn -[Num.div Num.of_nat Num.eqv] in *;
       repeat split; try lia; try reflexivity; try congruence; try (intros; lia)).
  - apply nth_error_None in E. simpl in E.
    cbn [fst stageIndex progress completed active set_active set_completed].
    simpl List.length in *.
    repeat split; try lia; try assumption; try reflexivity.
Qed.

Lemma consistent_acceptFrame M st d :
  consistent st -> consistent (fst (acceptFrame M st d)).
Proof.
  intros H. rewrite acceptFrame_state. apply consistent_evaluateStage.
  destruct (observeFrame_state M st d) as (Ha & Hi & Hp & Hc & _).
  unfold consistent in *. now rewrite Ha, Hi, Hp, Hc.
Qed.

Lemma consistent_frameStep env e element :
  consistent (state e) -> consistent (state (frameStep env e element)).
Proof.
  intros H.
  destruct (processFrame_cases env e element) as [_ _ Hm | d _ _ _ Hst].
  - exact (consistent_machine Hm H).
  - rewrite Hst. now apply consistent_acceptFrame.
Qed.

Lemma consistent_call env e c :
  consistent (state e) -> consistent (state (call env e c)).
Proof.
  intros H. destruct c as [element| |]; simpl.
  - now apply consistent_frameStep.
  - unfold consistent. cbn. repeat split; try lia; try discriminate.
  - unfold consistent in *. cbn. destruct H as (Hi & Hp & Hc & Ha).
    repeat split; try assumption; try apply Hc.
Qed.

Lemma consistent_runCalls env cs : forall e,
  consistent (state e) -> consistent (state (runCalls env e cs)).
Proof.
  induction cs as [|c cs IH]; intros e H; [exact H|].
  simpl. apply IH. now apply consistent_call.
Qed.

End EngineFacts.

(** X11.  Whatever calls a fresh engine receives ([startSession],
    [stopSession], [processFrame], in any order and whether frames throw or
    not), the stage index is at most 4, the progress is the stage index
    divided by 4, the session is completed exactly when the index is 4, and
    a completed session is not active. *)
Theorem session_bookkeeping_stays_consistent (env : Environment)
    (threshold : option num) (calls : list ApiCall) :
  let st := state (runCalls env (createEngine threshold) calls) in
  (stageIndex st <= 4)%nat /\
  Num.eqv (progress st) (Num.of_nat (stageIndex st) / Fin 4) /\
  (completed st = true <-> stageIndex st = 4%nat) /\
  (completed st = true -> active st = false).
Proof.
  apply (@EngineFacts.consistent_runCalls env calls (createEngine threshold)).
  apply EngineFacts.consistent_fresh.
Qed.

Lemma session_bookkeeping_witness :
  active (state (runCalls Scenario.env (createEngine None) Samples.fullSession))
  = false.
Proof.
  apply (proj2 (proj2 (proj2
           (session_bookkeeping_stays_consistent Scenario.env None
              Samples.fullSession)))).
  vm_compute. reflexivity.
Defined.

Module IdleFacts.

Lemma inactive_frame env e element :
  active (state e) = false ->
  processFrame env e element = (e, Ok (noFaceResult (state e) false)).
Proof. intros H. unfold processFrame. now rewrite H. Qed.

Lemma inactive_run env elements : forall e,
  active (state e) = false -> runFrames env e elements = e.
Proof.
  induction elements as [|element rest IH]; intros e H; [reflexivity|].
  simpl. unfold frameStep at 1. rewrite (@inactive_frame env e element H). simpl.
  now apply IH.
Qed.

End IdleFacts.

(** X12.  Once a session is completed, further frames change nothing in the
    engine, and each of them is answered without a detection and without
    metrics, with a status that reports completion: no current stage, stage
    index 3 of 4, and no stage just completed. *)
Theorem completed_session_ignores_frames (env : Environment)
    (threshold : option num) (calls : list ApiCall)
    (elements : list InputElement) (element : InputElement) :
  let e := runCalls env (createEngine threshold) calls in
  completed (state e) = true ->
  let e' := runFrames env e elements in
  e' = e /\
  exists r,
    processFrame env e' element = (e, Ok r) /\
    detection r = None /\ metrics r = None /\ multiFaceDetected r = false /\
    statusCompleted (stage r) = true /\ currentStage (stage r) = None /\
    statusStageIndex (stage r) = 3%nat /\ total (stage r) = 4%nat /\
    justCompletedIndex (stage r) = None.
Proof.
  cbv zeta. intros Hc.
  pose proof (@EngineFacts.consistent_runCalls env calls (createEngine threshold)
                EngineFacts.consistent_fresh) as H.
  destruct H as (_ & _ & Hi & Ha). simpl List.length in Hi.
  set (e := runCalls env (createEngine threshold) calls) in *.
  assert (Hact : active (state e) = false) by (apply Ha; exact Hc).
  assert (Hidx : stageIndex (state e) = 4%nat) by (apply Hi; exact Hc).
  rewrite (@IdleFacts.inactive_run env elements e Hact).
  split; [reflexivity|].
  rewrite (@IdleFacts.inactive_frame env e element Hact).
  eexists. split; [reflexivity|].
  unfold noFaceResult, buildStageStatus, getCurrentStage.
  cbn [detection metrics multiFaceDetected stage statusCompleted currentStage
       statusStageIndex total justCompletedIndex option_map].
  rewrite Hc, Hidx. repeat split.
Qed.

Lemma completed_session_witness :
  let e := runCalls Scenario.env (createEngine None) Samples.fullSession in
  runFrames Scenario.env e [Scenario.frame 1; Scenario.frame 6] = e.
Proof.
  intros e.
  apply (@completed_session_ignores_frames Scenario.env None Samples.fullSession
           [Scenario.frame 1; Scenario.frame 6] (Scenario.frame 1)).
  vm_compute. reflexivity.
Defined.

Module OutcomeFacts.

Lemma acceptFrame_metrics M st d :
  lastMetrics (fst (acceptFrame M st d)) = metrics (snd (acceptFrame M st d)) /\
  metrics (snd (acceptFrame M st d)) = Some (snd (observeFrame M st d)).
Proof.
  unfold acceptFrame.
  destruct (observeFrame M st d) as [st1 m] eqn:Eo.
  pose proof (EngineFacts.evaluateStage_lastMetrics st1 m) as Hl.
  destruct (evaluateStage st1 m) as [st2 status]. simpl in *.
  rewrite Hl. unfold observeFrame in Eo. inversion Eo. split; reflexivity.
Qed.

Lemma frame_outcome env e element :
  match frameResult env e element with
  | Err _ => state (frameStep env e element) = state e
  | Ok r =>
      (exists extra,
         stage r = buildStageStatus (state (frameStep env e element)) extra) /\
      (active (state e) = true ->
       lastMetrics (state (frameStep env e element)) = metrics r) /\
      (active (state e) = false -> frameStep env e element = e)
  end.
Proof.
  pose proof (warmup_state env e) as Hw.
  unfold frameResult, frameStep, processFrame.
  destruct (active (state e)) eqn:Ha; cbn [negb].
  2:{ cbn. split; [eexists; reflexivity | split; [discriminate | reflexivity]]. }
  destruct (warmup env e) as [e1 [[]|err]] eqn:Ew; simpl in Hw;
    [|cbn; exact Hw].
  destruct (SCRFD.detectFromElement (detector e1) (kpsStage env) element
              (detectionThreshold e1)) as [[d' dets]|err] eqn:Ed;
    [|cbn; exact Hw].
  destruct dets as [|primary [|second more]].
  - cbn. split; [eexists; reflexivity | split; [reflexivity | discriminate]].
  - cbv zeta.
    destruct (estimate (landmarkEstimator (set_detector e1 d')) element
                (bbox primary)) as [[est|]|err] eqn:Ee.
    + set (d := {| det := primary; landmarks := est_landmarks est;
                   pose := est_pose est |}).
      pose proof (acceptFrame_metrics (jsMath env) (state (set_detector e1 d')) d) as Hm.
      pose proof (acceptFrame_stage (jsMath env) (state (set_detector e1 d')) d) as Hs.
      pose proof (acceptFrame_state (jsMath env) (state (set_detector e1 d')) d) as Hst.
      destruct (acceptFrame (jsMath env) (state (set_detector e1 d')) d) as [st r].
      cbn [fst snd state set_state] in *.
      split; [|split; [intros _; apply Hm | discriminate]].
      rewrite Hs, Hst. apply EngineFacts.status_of_evaluateStage.
    + cbn. split; [eexists; reflexivity | split; [reflexivity | discriminate]].
    + cbn. exact Hw.
  - cbn. split; [eexists; reflexivity | split; [reflexivity | discriminate]].
Qed.

End OutcomeFacts.

(** X13.  A frame on which [processFrame] throws leaves the session state as
    it was.  A frame on which it returns leaves, in an active session, the
    returned metrics as the session's last metrics, and changes nothing at
    all in an inactive one. *)
Theorem frame_outcome_is_recorded (env : Environment) (e : Engine)
    (element : InputElement) :
  match frameResult env e element with
  | Err _ => state (frameStep env e element) = state e
  | Ok r =>
      (active (state e) = true ->
       lastMetrics (state (frameStep env e element)) = metrics r) /\
      (active (state e) = false -> frameStep env e element = e)
  end.
Proof.
  pose proof (OutcomeFacts.frame_outcome env e element) as H.
  destruct (frameResult env e element); [|exact H].
  destruct H as (_ & H). exact H.
Qed.

(** X14.  The stage status that [processFrame] returns describes the state
    the call leaves behind: the total is 4, the reported index is the stage
    index capped at 3 and so always below the total, the current stage is
    the stage at the stage index, and it is missing exactly when the status
    says completed. *)
Theorem reported_stage_status_is_in_range (env : Environment)
    (threshold : option num) (calls : list ApiCall) (element : InputElement)
    (r : ProcessFrameResult) :
  let e := runCalls env (createEngine threshold) calls in
  frameResult env e element = Ok r ->
  let st' := state (frameStep env e element) in
  total (stage r) = 4%nat /\
  statusStageIndex (stage r) = Nat.min (stageIndex st') 3 /\
  (statusStageIndex (stage r) < total (stage r))%nat /\
  currentStage (stage r) = nth_error EngineDefs.stageKeys (stageIndex st') /\
  statusCompleted (stage r) = completed st' /\
  (currentStage (stage r) = None <-> statusCompleted (stage r) = true).
Proof.
  cbv zeta. intros Hr.
  set (e := runCalls env (createEngine threshold) calls) in *.
  pose proof (OutcomeFacts.frame_outcome env e element) as H.
  rewrite Hr in H. destruct H as ((extra & Hs) & _).
  assert (Hc : EngineDefs.consistent (state (frameStep env e element))).
  { apply EngineFacts.consistent_frameStep.
    apply (@EngineFacts.consistent_runCalls env calls (createEngine threshold)).
    apply EngineFacts.consistent_fresh. }
  destruct Hc as (Hi & _ & Hcomp & _). simpl List.length in *.
  rewrite Hs. unfold buildStageStatus, getCurrentStage.
  cbn [total statusStageIndex currentStage statusCompleted].
  simpl List.length.
  set (i := stageIndex (state (frameStep env e element))) in *.
  assert (Hk : option_map key (nth_error LIVENESS_STAGES i) =
               nth_error EngineDefs.stageKeys i).
  { unfold EngineDefs.stageKeys. symmetry. apply nth_error_map. }
  rewrite Hk.
  repeat split; try lia.
  - intros Hn. apply Hcomp.
    apply nth_error_None in Hn. unfold EngineDefs.stageKeys in Hn.
    rewrite length_map in Hn. simpl in Hn. lia.
  - intros Ht. apply nth_error_None. apply Hcomp in Ht. rewrite Ht.
    unfold EngineDefs.stageKeys. rewrite length_map. simpl. lia.
Qed.

Lemma reported_stage_status_witness :
  exists r,
    frameResult Scenario.env
      (runCalls Scenario.env (createEngine None) [CallStartSession])
      (Scenario.frame 1) = Ok r /\
    total (stage r) = 4%nat /\
    (statusStageIndex (stage r) < total (stage r))%nat.
Proof.
  destruct (frameResult Scenario.env
              (runCalls Scenario.env (createEngine None) [CallStartSession])
              (Scenario.frame 1)) as [r|err] eqn:E.
  - exists r. split; [reflexivity|].
    pose proof (@reported_stage_status_is_in_range Scenario.env None
                  [CallStartSession] (Scenario.frame 1) r E) as H.
    split; [apply H | apply H].
  - vm_compute in E. discriminate E.
Defined.

(** X15.  [warmup] does nothing once the models are loaded.  Otherwise it
    loads the detector model and then the landmark model: when both load the
    engine is ready and a second [warmup] changes nothing; when the landmark
    model fails, the detector keeps the model it has just loaded but the
    engine is not ready, and the next [warmup] starts over; when the
    detector model fails nothing changes.  The session state and the
    threshold are never touched. *)
Theorem warmup_loads_both_models_or_fails (env : Environment) (e : Engine) :
  (modelsLoaded e = true -> warmup env e = (e, Ok tt)) /\
  (modelsLoaded e = false ->
   match detectorModel env, landmarkModel env with
   | Resolved s, Resolved ls =>
       exists e',
         warmup env e = (e', Ok tt) /\
         detector e' = SCRFD.loadModel (detector e) s /\
         landmarkEstimator e' = lmLoadModel ls /\
         Liveness.isReady e' = true /\
         warmup env e' = (e', Ok tt)
   | Resolved s, Rejected msg =>
       exists e',
         warmup env e = (e', Err (External msg)) /\
         detector e' = SCRFD.loadModel (detector e) s /\
         landmarkEstimator e' = landmarkEstimator e /\
         modelsLoaded e' = false /\ Liveness.isReady e' = false
   | Rejected msg, _ => warmup env e = (e, Err (External msg))
   end) /\
  state (fst (warmup env e)) = state e /\
  detectionThreshold (fst (warmup env e)) = detectionThreshold e.
Proof.
  split; [|split; [|split]].
  - intros H. unfold warmup. now rewrite H.
  - intros H. unfold warmup. rewrite H.
    destruct (detectorModel env) as [s|msg]; [|reflexivity].
    destruct (landmarkModel env) as [ls|msg]; cbn [await].
    + eexists. split; [reflexivity|].
      cbn [detector landmarkEstimator set_detector modelsLoaded].
      repeat split.
      unfold Liveness.isReady, SCRFD.isReady, lmIsReady.
      cbn [modelsLoaded detector landmarkEstimator lmLoadModel lmSession].
      destruct (DetectorFacts.loadModel_session (detector e) s) as [-> _].
      reflexivity.
    + eexists. split; [reflexivity|].
      cbn [detector landmarkEstimator set_detector modelsLoaded].
      repeat split; [exact H | unfold Liveness.isReady; cbn [modelsLoaded set_detector]; now rewrite H].
  - apply warmup_state.
  - unfold warmup. destruct (modelsLoaded e); [reflexivity|].
    destruct (detectorModel env); [|reflexivity].
    destruct (landmarkModel env); reflexivity.
Qed.

Lemma warmup_witness :
  exists e',
    warmup Scenario.env (createEngine None) = (e', Ok tt) /\
    Liveness.isReady e' = true /\
    warmup Scenario.env e' = (e', Ok tt).
Proof.
  destruct (proj1 (proj2 (warmup_loads_both_models_or_fails
                            Scenario.env (createEngine None))) eq_refl)
    as (e' & H1 & _ & _ & H2 & H3).
  exists e'. repeat split; assumption.
Defined.

Module PrimaryFacts.
Import SCRFD DetectorDefs DetectorFacts DecodeFacts.

(** What [detectFromElement] returns: suppression applied to candidates
    that all reached the threshold *)
Lemma detector_output_of_candidates d kps element threshold d' dets :
  detectFromElement d kps element threshold = Ok (d', dets) ->
  exists cands,
    dets = nms (nmsThresh d) cands /\
    Forall (fun c => (score c >=? threshold) = true) cands.
Proof.
  intros H. unfold detectFromElement in H.
  destruct (session d) as [s|]; [|discriminate].
  destruct (truthy_name (inputName d)); [|discriminate].
  destruct (run s element) as [outputs|msg]; simpl in H; [|discriminate].
  destruct (postprocess d kps outputs threshold) as [[kpa decoded]|err] eqn:Ep;
    simpl in H; [|discriminate].
  inversion H; subst; clear H.
  destruct (@buildDetections_selected d kps outputs threshold kpa decoded
              (detScale d element) Ep) as (cands & Hb & Hm).
  exists cands. split; [exact Hb|].
  apply Forall_forall. intros c Hc.
  apply (in_map boxAndScore) in Hc. rewrite Hm in Hc.
  apply in_map_iff in Hc. destruct Hc as (p & Hp & Hin).
  apply (f_equal snd) in Hp. cbn [snd boxAndScore] in Hp.
  destruct (@selected_in_range d _ threshold _ _ Hin) as [_ Hge].
  now rewrite <- Hp.
Qed.

Lemma nms_head_is_best thresh l :
  Forall scored l ->
  forall x, In x (nms thresh l) ->
    exists best, hd_error (nms thresh l) = Some best /\
                 (score best <? score x) = false.
Proof.
  intros Hl x Hx.
  assert (Hs : StronglySorted notBefore (nms thresh l)).
  { destruct l; [constructor|]. unfold nms.
    apply nms_loop_strongly. now apply sort_strongly. }
  destruct (nms thresh l) as [|best rest]; [destruct Hx|].
  exists best. split; [reflexivity|].
  destruct Hx as [-> | Hx].
  - destruct (score x) as [q| | |]; try reflexivity. apply ltb_Fin_false. lra.
  - inversion Hs as [|? ? _ Hc]; subst. rewrite Forall_forall in Hc.
    apply NmsMore.notBefore_score. now apply Hc.
Qed.

End PrimaryFacts.

(** X16.  When [detectImage] returns, the session state is untouched, the
    primary face is the first detection and is null exactly when there is no
    detection, every detection scores at least the detection threshold, and
    none scores higher than the primary face. *)
Theorem detect_image_reports_the_best_face (env : Environment) (e e' : Engine)
    (element : InputElement) (dets : list Detection) (primary : option Detection) :
  EngineDefs.detectImage env e element = (e', Ok (dets, primary)) ->
  state e' = state e /\
  primary = hd_error dets /\
  (primary = None <-> dets = []) /\
  (forall x, In x dets ->
     (score x >=? detectionThreshold e) = true /\
     exists p, primary = Some p /\ (score p <? score x) = false).
Proof.
  unfold EngineDefs.detectImage. intros H.
  pose proof (warmup_state env e) as Hw.
  assert (Ht : detectionThreshold (fst (warmup env e)) = detectionThreshold e).
  { unfold warmup. destruct (modelsLoaded e); [reflexivity|].
    destruct (detectorModel env); [|reflexivity].
    destruct (landmarkModel env); reflexivity. }
  destruct (warmup env e) as [e1 [[]|err]]; [|discriminate].
  cbn [fst] in Hw, Ht.
  destruct (SCRFD.detectFromElement (detector e1) (kpsStage env) element
              (detectionThreshold e1)) as [[d' ds]|err] eqn:Ed; [|discriminate].
  inversion H; subst; clear H.
  split; [exact Hw | split; [reflexivity | split]].
  - destruct dets; cbn; split; intros H; (reflexivity || discriminate H).
  - intros x Hx.
    destruct (PrimaryFacts.detector_output_of_candidates _ _ _ _ Ed)
      as (cands & -> & Hc).
    rewrite Ht in Hc.
    assert (Hsc : Forall SCRFD.scored cands).
    { eapply Forall_impl; [|exact Hc]. intros c Hge. now apply geb_not_NaN in Hge. }
    split.
    + apply nms_incl in Hx. rewrite Forall_forall in Hc. now apply Hc.
    + destruct (PrimaryFacts.nms_head_is_best _ Hsc _ Hx) as (best & Hb & Hle).
      exists best. split; [exact Hb | exact Hle].
Qed.

Lemma detect_image_witness :
  exists e' dets primary,
    EngineDefs.detectImage Scenario.env (createEngine None) (Scenario.frame 6) =
      (e', Ok (dets, primary)) /\
    state e' = state (createEngine None) /\
    primary = hd_error dets.
Proof.
  destruct (EngineDefs.detectImage Scenario.env (createEngine None)
              (Scenario.frame 6)) as [e' [[dets primary]|err]] eqn:E.
  - exists e', dets, primary. split; [reflexivity|].
    pose proof (@detect_image_reports_the_best_face Scenario.env
                  (createEngine None) e' (Scenario.frame 6) dets primary E) as H.
    split; apply H.
  - vm_compute in E. discriminate E.
Defined.

(** ** Model sources *)

Module SourceFacts.
Import ModelSource.

Lemma stripSlashes_head path a rest :
  stripSlashes path = String a rest -> a <> "/"%char.
Proof.
  induction path as [|c path IH]; simpl; [discriminate|].
  destruct (Ascii.eqb c "/") eqn:E; [exact IH|].
  intros H. inversion H; subst. now apply Ascii.eqb_neq.
Qed.

Lemma stripSlashes_suffix path :
  exists prefix, path = String.append prefix (stripSlashes path).
Proof.
  induction path as [|c path [p IH]]; simpl.
  - now exists EmptyString.
  - destruct (Ascii.eqb c "/").
    + exists (String c p). simpl. now rewrite <- IH.
    + now exists EmptyString.
Qed.

Lemma stripDotSegments_suffix_len n : forall path,
  (String.length path <= n)%nat ->
  exists prefix, path = String.append prefix (stripDotSegments path).
Proof.
  induction n as [|n IH]; intros path Hn.
  - destruct path; [now exists EmptyString | simpl in Hn; lia].
  - destruct path as [|a [|b rest]]; try (now exists EmptyString).
    cbn [stripDotSegments].
    destruct (Ascii.eqb a "." && Ascii.eqb b "/").
    + destruct (IH rest) as [p Hp]; [simpl in Hn; lia|].
      exists (String a (String b p)). simpl. now rewrite <- Hp.
    + destruct rest as [|c rest']; [now exists EmptyString|].
      destruct (Ascii.eqb a "." && Ascii.eqb b "." && Ascii.eqb c "/");
        [|now exists EmptyString].
      destruct (IH rest') as [p Hp]; [simpl in Hn; lia|].
      exists (String a (String b (String c p))). simpl. now rewrite <- Hp.
Qed.

Lemma append_assoc a b c :
  String.append (String.append a b) c = String.append a (String.append b c).
Proof. induction a; simpl; congruence. Qed.

Lemma normalize_suffix path :
  exists prefix, path = String.append prefix (normalizeRelativePath path).
Proof.
  unfold normalizeRelativePath.
  destruct (@stripDotSegments_suffix_len (String.length path) path (le_n _)) as [p Hp].
  destruct (stripSlashes_suffix (stripDotSegments path)) as [q Hq].
  exists (String.append p q). rewrite append_assoc, <- Hq. exact Hp.
Qed.

Lemma existsb_eqb item seen :
  existsb (String.eqb item) seen = true <-> In item seen.
Proof.
  rewrite existsb_exists. split.
  - intros (x & Hx & E). apply String.eqb_eq in E. now subst.
  - intros H. exists item. split; [exact H | apply String.eqb_refl].
Qed.

Lemma setAdd_spec seen item :
  (forall x, In x (setAdd seen item) <-> In x seen \/ x = item) /\
  (NoDup seen -> NoDup (setAdd seen item)) /\
  exists tail, setAdd seen item = seen ++ tail.
Proof.
  unfold setAdd. destruct (existsb (String.eqb item) seen) eqn:E.
  - apply existsb_eqb in E. repeat split.
    + tauto.
    + intros [H | ->]; assumption.
    + tauto.
    + exists []. now rewrite app_nil_r.
  - assert (Hn : ~ In item seen).
    { intros H. apply existsb_eqb in H. congruence. }
    repeat split.
    + intros H. apply in_app_or in H. simpl in H. intuition.
    + intros [H | ->]; apply in_or_app; simpl; tauto.
    + intros Hd. apply NoDup_app; [exact Hd | repeat constructor; simpl; tauto |].
      intros x Hx [<- | []]. contradiction.
    + now exists [item].
Qed.

Lemma fold_setAdd items : forall seen,
  (forall x, In x (fold_left setAdd items seen) <-> In x seen \/ In x items) /\
  (NoDup seen -> NoDup (fold_left setAdd items seen)) /\
  exists tail, fold_left setAdd items seen = seen ++ tail.
Proof.
  induction items as [|item items IH]; intros seen; simpl.
  - repeat split; try tauto. exists []. now rewrite app_nil_r.
  - destruct (IH (setAdd seen item)) as (Hin & Hnd & (t & Ht)).
    destruct (setAdd_spec seen item) as (Hin' & Hnd' & (t' & Ht')).
    repeat split.
    + intros H. apply Hin in H. rewrite Hin' in H. intuition.
    + intros H. apply Hin. rewrite Hin'. intuition.
    + intros H. auto.
    + exists (t' ++ t). rewrite Ht, Ht'. now rewrite app_assoc.
Qed.

Lemma arrayFromSet_spec items :
  NoDup (arrayFromSet items) /\
  (forall x, In x (arrayFromSet items) <-> In x items) /\
  hd_error (arrayFromSet items) = hd_error items.
Proof.
  unfold arrayFromSet.
  destruct (fold_setAdd items []) as (Hin & Hnd & _).
  split; [apply Hnd; constructor | split].
  - intros x. rewrite Hin. simpl. tauto.
  - destruct items as [|item items]; [reflexivity|]. simpl.
    destruct (fold_setAdd items (setAdd [] item)) as (_ & _ & (t & ->)).
    reflexivity.
Qed.

Lemma nonempty_length (s : string) :
  negb (Nat.eqb (String.length s) 0) = true <-> s <> EmptyString.
Proof.
  destruct s; simpl; split; intros H; congruence.
Qed.

End SourceFacts.

(** X17.  [buildModelSourceCandidates] returns, without repetition, exactly
    the non-empty ones among the primary URL, the relative path and the
    normalized path prefixed by [./] and by [/]; a non-empty primary URL
    comes first, and there are between two and four candidates.  The
    normalized path is a suffix of the relative path and does not begin with
    a slash. *)
Theorem model_source_candidates_are_distinct_and_ordered
    (primary relativePath : string) :
  let normalized := ModelSource.normalizeRelativePath relativePath in
  let cs := ModelSource.buildModelSourceCandidates primary relativePath in
  NoDup cs /\
  (forall c, In c cs <->
     c <> EmptyString /\
     In c [primary; relativePath; String.append "./" normalized;
           String.append "/" normalized]) /\
  (primary <> EmptyString -> hd_error cs = Some primary) /\
  (2 <= List.length cs <= 4)%nat /\
  (exists prefix, relativePath = String.append prefix normalized) /\
  (forall a rest, normalized = String a rest -> a <> "/"%char).
Proof.
  cbv zeta. unfold ModelSource.buildModelSourceCandidates.
  set (n := ModelSource.normalizeRelativePath relativePath).
  set (items := filter _ _).
  destruct (SourceFacts.arrayFromSet_spec items) as (Hnd & Hin & Hhd).
  assert (Hitems : forall c, In c items <->
            c <> EmptyString /\
            In c [primary; relativePath; String.append "./" n; String.append "/" n]).
  { intros c. unfold items. rewrite filter_In, SourceFacts.nonempty_length. tauto. }
  split; [exact Hnd | split; [|split; [|split; [|split]]]].
  - intros c. rewrite Hin. apply Hitems.
  - intros Hp. rewrite Hhd. unfold items. simpl filter.
    destruct primary; [congruence | reflexivity].
  - split.
    + assert (H1 : In (String.append "./" n) (ModelSource.arrayFromSet items)).
      { apply Hin, Hitems. split; [discriminate | simpl; tauto]. }
      assert (H2 : In (String.append "/" n) (ModelSource.arrayFromSet items)).
      { apply Hin, Hitems. split; [discriminate | simpl; tauto]. }
      assert (Hne : String.append "./" n <> String.append "/" n) by discriminate.
      destruct (ModelSource.arrayFromSet items) as [|x [|y l]]; simpl in *.
      * tauto.
      * destruct H1 as [H1 | []], H2 as [H2 | []]. congruence.
      * lia.
    + assert (Hl : (List.length (ModelSource.arrayFromSet items) <= List.length items)%nat).
      { apply NoDup_incl_length; [exact Hnd|]. intros x Hx. now apply Hin. }
      assert (Hf : (List.length items <= 4)%nat).
      { unfold items. etransitivity; [apply filter_length_le | simpl; lia]. }
      lia.
  - apply SourceFacts.normalize_suffix.
  - intros a rest H. unfold n, ModelSource.normalizeRelativePath in H.
    now apply SourceFacts.stripSlashes_head in H.
Qed.

Lemma model_source_candidates_witness :
  hd_error (ModelSource.buildModelSourceCandidates
              "https://cdn.example/det.onnx" "../models/det.onnx") =
  Some "https://cdn.example/det.onnx"%string.
Proof.
  apply (proj1 (proj2 (proj2
           (model_source_candidates_are_distinct_and_ordered
              "https://cdn.example/det.onnx" "../models/det.onnx")))).
  discriminate.
Defined.

Module FetchFacts.
Import ModelSource.

Lemma loop_first_success fetch failed url rest buffer : forall errors,
  Forall (fun u => exists msg, fetch u = Rejected msg) failed ->
  fetch url = Resolved buffer ->
  asArrayBuffer_loop fetch (map EntryUrl (failed ++ url :: rest)) errors = Ok buffer.
Proof.
  induction failed as [|u failed IH]; intros errors Hf Hu; simpl.
  - now rewrite Hu.
  - inversion Hf as [|? ? (msg & Hm) Hf']; subst. rewrite Hm. now apply IH.
Qed.

Lemma loop_all_fail fetch msgOf urls : forall errors,
  (forall u, In u urls -> fetch u = Rejected (msgOf u)) ->
  asArrayBuffer_loop fetch (map EntryUrl urls) errors =
  Err (External match (errors ++ map msgOf urls)%list with
                | [] => "不支持的模型来源"%string
                | _ => String.concat "; "%string (errors ++ map msgOf urls)%list
                end).
Proof.
  induction urls as [|u urls IH]; intros errors H; simpl.
  - now rewrite app_nil_r.
  - rewrite (H u (or_introl eq_refl)).
    rewrite IH by (intros v Hv; apply H; now right).
    now rewrite <- app_assoc.
Qed.

End FetchFacts.

(** X18.  [asArrayBuffer] over a list of URLs returns the bytes of the first
    URL that can be fetched, whatever failed before it; when every URL fails
    it throws an error whose message joins the failures' messages with
    [; ], in order.  In particular a primary URL that can be fetched is the
    one whose bytes are used. *)
Theorem model_is_fetched_from_the_first_working_url
    (fetchModelFromUrl : string -> external ModelSource.Buffer) :
  (forall failed url rest buffer,
     Forall (fun u => exists msg, ModelSource.failsWith fetchModelFromUrl u msg) failed ->
     fetchModelFromUrl url = Resolved buffer ->
     ModelSource.asArrayBuffer fetchModelFromUrl
       (map ModelSource.EntryUrl (failed ++ url :: rest)) = Ok buffer) /\
  (forall (msgOf : string -> string) urls,
     urls <> [] ->
     (forall u, In u urls -> ModelSource.failsWith fetchModelFromUrl u (msgOf u)) ->
     ModelSource.asArrayBuffer fetchModelFromUrl (map ModelSource.EntryUrl urls) =
     Err (External (String.concat "; " (map msgOf urls)))) /\
  (forall primary relativePath buffer,
     primary <> EmptyString ->
     fetchModelFromUrl primary = Resolved buffer ->
     ModelSource.asArrayBuffer fetchModelFromUrl
       (map ModelSource.EntryUrl
          (ModelSource.buildModelSourceCandidates primary relativePath)) = Ok buffer).
Proof.
  split; [|split].
  - intros failed url rest buffer Hf Hu.
    now apply FetchFacts.loop_first_success.
  - intros msgOf urls Hne H. unfold ModelSource.asArrayBuffer.
    rewrite (@FetchFacts.loop_all_fail fetchModelFromUrl msgOf urls [] H).
    simpl. destruct urls; [congruence | reflexivity].
  - intros primary relativePath buffer Hp Hf.
    destruct (SourceFacts.arrayFromSet_spec
                (filter (fun item => negb (Nat.eqb (String.length item) 0))
                   [primary; relativePath;
                    String.append "./" (ModelSource.normalizeRelativePath relativePath);
                    String.append "/" (ModelSource.normalizeRelativePath relativePath)]))
      as (_ & _ & Hhd).
    unfold ModelSource.buildModelSourceCandidates.
    destruct (ModelSource.arrayFromSet _) as [|c cs].
    + simpl in Hhd. destruct primary; [congruence | discriminate].
    + simpl in Hhd. destruct primary as [|a p]; [congruence|].
      simpl in Hhd. inversion Hhd; subst.
      unfold ModelSource.asArrayBuffer. simpl. now rewrite Hf.
Qed.

Lemma model_is_fetched_witness :
  ModelSource.asArrayBuffer Samples.absoluteOnly
    (map ModelSource.EntryUrl
       (ModelSource.buildModelSourceCandidates
          "https://cdn.example/det.onnx" "../models/det.onnx")) = Ok [].
Proof.
  apply (proj1 (model_is_fetched_from_the_first_working_url Samples.absoluteOnly)
           ["https://cdn.example/det.onnx"; "../models/det.onnx";
            "./models/det.onnx"]%string
           "/models/det.onnx"%string [] []).
  - repeat constructor; eexists; reflexivity.
  - reflexivity.
Defined.

(** ** The landmark estimator *)

Module SelectFacts.
Import Landmark.

Lemma fold_select result names : forall acc,
  let out := fold_left (selectStep result) names acc in
  poseTensor out =
    orFind (poseTensor acc) (fun t : Tensor => Nat.leb (List.length t) 6)
           (presentTensors names result) /\
  landmarkTensor out =
    orFind (landmarkTensor acc) (fun t : Tensor => Nat.ltb 6 (List.length t))
           (presentTensors names result).
Proof.
  induction names as [|name names IH]; intros acc; cbv zeta.
  - simpl. unfold orFind. split; destruct acc as [[?|] [?|]]; reflexivity.
  - cbn [fold_left]. destruct (IH (selectStep result acc name)) as [Hp Hl].
    rewrite Hp, Hl. unfold presentTensors. cbn [flat_map].
    fold (presentTensors names result).
    unfold selectStep.
    destruct (result name) as [t|]; [|split; reflexivity].
    cbn [app find].
    destruct (Nat.leb (List.length t) 6) eqn:E6.
    + assert (E7 : Nat.ltb 6 (List.length t) = false).
      { apply Nat.ltb_ge. now apply Nat.leb_le. }
      rewrite E7. cbn [andb].
      destruct acc as [[lt|] [pt|]]; cbn -[Nat.leb Nat.ltb]; rewrite ?E6, ?E7;
        split; reflexivity.
    + assert (E7 : Nat.ltb 6 (List.length t) = true).
      { apply Nat.ltb_lt. apply Nat.leb_gt in E6. exact E6. }
      rewrite E7. cbn [andb].
      destruct acc as [[lt|] [pt|]]; cbn -[Nat.leb Nat.ltb]; rewrite ?E6, ?E7;
        split; reflexivity.
Qed.

End SelectFacts.

(** X19.  [selectOutputs] takes as pose tensor the first output with at
    most 6 values and as landmark tensor the first output with more than 6
    values, in the order of the output names and skipping names the result
    does not hold; when no output has more than 6 values the landmark tensor
    is the output of the first name. *)
Theorem landmark_outputs_are_told_apart_by_length
    (outputNames : list string) (result : OnnxValueMap) :
  let sel := Landmark.selectOutputs outputNames result in
  let present := Landmark.presentTensors outputNames result in
  Landmark.poseTensor sel =
    find (fun t : Tensor => Nat.leb (List.length t) 6) present /\
  Landmark.landmarkTensor sel =
    match find (fun t : Tensor => Nat.ltb 6 (List.length t)) present with
    | Some t => Some t
    | None => match outputNames with
              | name :: _ => result name
              | [] => None
              end
    end.
Proof.
  cbv zeta. unfold Landmark.selectOutputs.
  destruct (SelectFacts.fold_select result outputNames
              {| Landmark.landmarkTensor := None; Landmark.poseTensor := None |})
    as [Hp Hl].
  cbv zeta in Hp, Hl. cbn [Landmark.landmarkTensor Landmark.poseTensor
                           Landmark.orFind] in Hp, Hl.
  set (acc := fold_left _ _ _) in *.
  rewrite Hl.
  destruct (find (fun t : Tensor => Nat.ltb 6 (List.length t))
                 (Landmark.presentTensors outputNames result)) as [t|] eqn:Ef.
  - rewrite Hp. split; [reflexivity | exact Hl].
  - cbn [Landmark.landmarkTensor Landmark.poseTensor].
    rewrite Hp. split; reflexivity.
Qed.

Module ProjectFacts.
Import Landmark.

Lemma projectLandmarks_length values meta :
  List.length (projectLandmarks values meta) = ((List.length values + 1) / 2)%nat.
Proof. unfold projectLandmarks. now rewrite length_map, length_seq. Qed.

Lemma projectLandmarks_nth values meta k :
  (k < (List.length values + 1) / 2)%nat ->
  nth_error (projectLandmarks values meta) k =
  Some {| pt_x := originX meta + Num.get values (k * 2) * sizeW meta;
          pt_y := originY meta + Num.get values (k * 2 + 1) * sizeH meta |}.
Proof.
  intros Hk. unfold projectLandmarks.
  rewrite nth_error_map, nth_error_seq.
  apply Nat.ltb_lt in Hk. rewrite Hk. reflexivity.
Qed.

Lemma half_up n m : (m <= (n + 1) / 2 <-> 2 * m - 1 <= n)%nat.
Proof.
  pose proof (Nat.div_mod_eq (n + 1) 2) as H.
  pose proof (Nat.mod_upper_bound (n + 1) 2 ltac:(lia)) as H2.
  lia.
Qed.

End ProjectFacts.

(** X20.  [projectLandmarks] returns one point for every two values,
    rounding up, so at least 98 points exactly when there are at least 195
    values; point [k] is the origin of the crop plus values [2k] and
    [2k + 1] scaled by the crop size, and for finite values and a crop of
    positive size the values are recovered from the point. *)
Theorem landmarks_are_projected_pairwise (values : list num) (meta : Landmark.Crop) :
  List.length (Landmark.projectLandmarks values meta) =
    ((List.length values + 1) / 2)%nat /\
  ((98 <= List.length (Landmark.projectLandmarks values meta))%nat <->
   (195 <= List.length values)%nat) /\
  (forall k, (k * 2 < List.length values)%nat ->
     nth_error (Landmark.projectLandmarks values meta) k =
     Some {| pt_x := Landmark.originX meta +
                     Num.get values (k * 2) * Landmark.sizeW meta;
             pt_y := Landmark.originY meta +
                     Num.get values (k * 2 + 1) * Landmark.sizeH meta |}) /\
  (forall k (ox oy sw sh vx vy : Q) p,
     Landmark.originX meta = Fin ox -> Landmark.originY meta = Fin oy ->
     Landmark.sizeW meta = Fin sw -> Landmark.sizeH meta = Fin sh ->
     (0 < sw)%Q -> (0 < sh)%Q ->
     nth_error values (k * 2) = Some (Fin vx) ->
     nth_error values (k * 2 + 1) = Some (Fin vy) ->
     nth_error (Landmark.projectLandmarks values meta) k = Some p ->
     Num.eqv ((pt_x p - Landmark.originX meta) / Landmark.sizeW meta) (Fin vx) /\
     Num.eqv ((pt_y p - Landmark.originY meta) / Landmark.sizeH meta) (Fin vy)).
Proof.
  split; [apply ProjectFacts.projectLandmarks_length | split; [|split]].
  - rewrite ProjectFacts.projectLandmarks_length, ProjectFacts.half_up. lia.
  - intros k Hk. apply ProjectFacts.projectLandmarks_nth.
    pose proof (ProjectFacts.half_up (List.length values) (S k)) as H. lia.
  - intros k ox oy sw sh vx vy p Hox Hoy Hsw Hsh Psw Psh Hx Hy Hp.
    assert (Hk : (k * 2 < List.length values)%nat).
    { apply nth_error_Some. rewrite Hx. discriminate. }
    rewrite ProjectFacts.projectLandmarks_nth in Hp.
    2:{ pose proof (ProjectFacts.half_up (List.length values) (S k)) as H. lia. }
    inversion Hp; subst p; clear Hp. cbn [pt_x pt_y].
    unfold Num.get.
    rewrite (nth_error_nth _ _ NaN Hx), (nth_error_nth _ _ NaN Hy).
    rewrite Hox, Hoy, Hsw, Hsh.
    cbn [Num.mul Num.add Num.sub Num.neg].
    rewrite (IouFacts.div_Fin_pos _ Psw), (IouFacts.div_Fin_pos _ Psh).
    simpl. split; field; lra.
Qed.

Lemma landmarks_are_projected_witness :
  let meta := {| Landmark.drawX1 := Fin 0; Landmark.drawY1 := Fin 0;
                 Landmark.drawWidth := Fin 8; Landmark.drawHeight := Fin 8;
                 Landmark.originX := Fin 2; Landmark.originY := Fin 3;
                 Landmark.sizeW := Fin 8; Landmark.sizeH := Fin 8;
                 Landmark.padLeft := Fin 0; Landmark.padTop := Fin 0;
                 Landmark.padRight := Fin 0; Landmark.padBottom := Fin 0 |} in
  nth_error (Landmark.projectLandmarks [Fin 0.25; Fin 0.5; Fin 0.75] meta) 1 =
  Some {| pt_x := Fin 2 + Fin 0.75 * Fin 8; pt_y := Fin 3 + NaN * Fin 8 |}.
Proof.
  intros meta.
  apply (proj1 (proj2 (proj2
           (landmarks_are_projected_pairwise [Fin 0.25; Fin 0.5; Fin 0.75] meta))) 1%nat).
  simpl. lia.
Defined.

(** X21.  [parsePose] returns null exactly for a missing or empty tensor.
    Otherwise none of the three angles is NaN: a missing, NaN or zero value
    is read as 0, and any other finite value is kept as it is. *)
Theorem pose_angles_are_never_NaN (values : option (list num)) :
  (Landmark.parsePose values = None <-> values = None \/ values = Some []) /\
  (forall p, Landmark.parsePose values = Some p ->
     yaw p <> NaN /\ pitch p <> NaN /\ roll p <> NaN) /\
  (forall v p, values = Some v -> Landmark.parsePose values = Some p ->
     ((List.length v <= 1)%nat -> pitch p = Fin 0) /\
     ((List.length v <= 2)%nat -> roll p = Fin 0) /\
     (forall q : Q, nth_error v 0 = Some (Fin q) -> ~ (q == 0)%Q -> yaw p = Fin q) /\
     (forall q : Q, nth_error v 1 = Some (Fin q) -> ~ (q == 0)%Q -> pitch p = Fin q) /\
     (forall q : Q, nth_error v 2 = Some (Fin q) -> ~ (q == 0)%Q -> roll p = Fin q)).
Proof.
  assert (Hz : forall x, Landmark.orZero x <> NaN).
  { intros [q| | |]; unfold Landmark.orZero; try discriminate.
    destruct (Fin q === Fin 0); discriminate. }
  assert (Hq : forall q : Q, ~ (q == 0)%Q -> Landmark.orZero (Fin q) = Fin q).
  { intros q Hne. unfold Landmark.orZero.
    apply RatioFacts.eqb_Fin_false in Hne. now rewrite Hne. }
  split; [|split].
  - destruct values as [[|x v]|]; simpl; split; intros H;
      try tauto; try discriminate.
    + destruct H; discriminate.
  - intros p H. destruct values as [[|x v]|]; try discriminate.
    inversion H; subst p. cbn [yaw pitch roll]. repeat split; apply Hz.
  - intros v p -> H. destruct v as [|x v]; [discriminate|].
    inversion H; subst p. cbn [yaw pitch roll]. unfold Num.get.
    repeat split.
    + intros Hl. destruct v; [reflexivity | simpl in Hl; lia].
    + intros Hl. destruct v as [|y [|z v]]; try reflexivity. simpl in Hl; lia.
    + intros q Hn Hne. rewrite (nth_error_nth _ _ NaN Hn). now apply Hq.
    + intros q Hn Hne. rewrite (nth_error_nth _ _ NaN Hn). now apply Hq.
    + intros q Hn Hne. rewrite (nth_error_nth _ _ NaN Hn). now apply Hq.
Qed.

Lemma pose_angles_witness :
  exists p, Landmark.parsePose (Some [NaN; Fin 5]) = Some p /\
    yaw p <> NaN /\ pitch p <> NaN /\ roll p <> NaN.
Proof.
  eexists. split; [reflexivity|].
  apply (proj1 (proj2 (pose_angles_are_never_NaN (Some [NaN; Fin 5])))).
  reflexivity.
Defined.

Module CropFacts.
Import Landmark.

(** One axis of the crop: the clamped source interval and the paddings *)
Lemma clamp_axis (X1 S W : Q) :
  exists dx dw pl pr : Q,
    Num.max (Fin 0) (Fin X1) = Fin dx /\
    Num.max (Fin 0) (Num.min (Fin W) (Fin X1 + Fin S) - Num.max (Fin 0) (Fin X1))
      = Fin dw /\
    Num.max (Fin 0) (Num.neg (Fin X1)) = Fin pl /\
    Num.max (Fin 0) (Fin X1 + Fin S - Fin W) = Fin pr /\
    (dx - pl == X1)%Q /\ (0 <= pl)%Q /\ (0 <= pr)%Q /\ (0 <= dx)%Q /\ (0 <= dw)%Q /\
    ((0 < dw)%Q -> (dx + dw <= W)%Q /\ (pl + dw + pr == S)%Q).
Proof.
  cbn [Num.add Num.neg Num.sub].
  destruct (RangeFacts.max_Fin_cases 0 X1) as [[-> H1] | [-> H1]];
  destruct (RangeFacts.min_Fin_cases W (X1 + S)) as [[-> H2] | [-> H2]];
  cbn [Num.add Num.neg Num.sub];
  destruct (RangeFacts.max_Fin_cases 0 (- X1)) as [[-> H3] | [-> H3]];
  destruct (RangeFacts.max_Fin_cases 0 (X1 + S + - W)) as [[-> H4] | [-> H4]];
  match goal with
  | |- context [Num.max (Fin 0) (Fin ?a)] =>
      destruct (RangeFacts.max_Fin_cases 0 a) as [[-> H5] | [-> H5]]
  end;
  do 4 eexists; (repeat split; try reflexivity; try lra).
Qed.

Lemma size_at_least_one (m : Q) :
  exists size : Z,
    (1 <= size)%Z /\
    Num.max (Fin 1) (Num.round (Fin m * Fin 0.9)) = Fin (inject_Z size).
Proof.
  cbn [Num.mul Num.round].
  set (r := Qfloor (m * 0.9 + (1 # 2))).
  destruct (RangeFacts.max_Fin_cases 1 (inject_Z r)) as [[-> H] | [-> H]].
  - exists 1%Z. split; [lia | reflexivity].
  - exists r. split; [|reflexivity].
    change 1%Q with (inject_Z 1) in H. rewrite <- Zlt_Qlt in H. lia.
Qed.

End CropFacts.

(** X22.  The estimator's [prepareInput] throws on a frame without width
    or height.  For any box with finite corners it crops a square whose side
    is an integer of at least 1; the part drawn from the frame starts at
    non-negative coordinates and, when it is not empty, ends inside the
    frame, and together with the padding on both sides it makes up the side
    of the square.  The origin used to project the landmarks is the corner
    of the square, which may lie outside the frame. *)
Theorem landmark_crop_stays_inside_the_frame (element : InputElement) (b : BBox) :
  ((el_width element = 0 \/ el_height element = 0)%nat ->
   Landmark.prepareInput element b = Err InvalidInputSize) /\
  (Landmark.finiteBox b ->
   (0 < el_width element)%nat -> (0 < el_height element)%nat ->
   exists (c : Landmark.Crop) (size : Z) (dx dy dw dh pl pt pr pb : Q),
     Landmark.prepareInput element b = Ok c /\
     (1 <= size)%Z /\
     Landmark.sizeW c = Fin (inject_Z size) /\
     Landmark.sizeH c = Fin (inject_Z size) /\
     Num.eqv (Landmark.originX c)
       (Num.round (b_x1 b + (b_x2 b - b_x1 b) / Fin 2 - Landmark.sizeW c / Fin 2)) /\
     Num.eqv (Landmark.originY c)
       (Num.round (b_y1 b + (b_y2 b - b_y1 b) / Fin 2 - Landmark.sizeH c * Fin 0.4)) /\
     Landmark.drawX1 c = Fin dx /\ Landmark.drawY1 c = Fin dy /\
     Landmark.drawWidth c = Fin dw /\ Landmark.drawHeight c = Fin dh /\
     Landmark.padLeft c = Fin pl /\ Landmark.padTop c = Fin pt /\
     Landmark.padRight c = Fin pr /\ Landmark.padBottom c = Fin pb /\
     (0 <= pl /\ 0 <= pt /\ 0 <= pr /\ 0 <= pb /\ 0 <= dx /\ 0 <= dy)%Q /\
     ((0 < dw)%Q ->
        (dx + dw <= inject_Z (Z.of_nat (el_width element)))%Q /\
        (pl + dw + pr == inject_Z size)%Q) /\
     ((0 < dh)%Q ->
        (dy + dh <= inject_Z (Z.of_nat (el_height element)))%Q /\
        (pt + dh + pb == inject_Z size)%Q)).
Proof.
  split.
  - intros [H | H]; unfold Landmark.prepareInput; rewrite H; simpl.
    + reflexivity.
    + now rewrite orb_true_r.
  - intros (x1 & y1 & x2 & y2 & ->) Hw Hh.
    unfold Landmark.prepareInput.
    assert (Ew : Nat.eqb (el_width element) 0 = false) by (apply Nat.eqb_neq; lia).
    assert (Eh : Nat.eqb (el_height element) 0 = false) by (apply Nat.eqb_neq; lia).
    rewrite Ew, Eh. cbn [orb]. cbv zeta.
    cbn [b_x1 b_y1 b_x2 b_y2 Num.sub Num.neg Num.add].
    destruct (RangeFacts.max_Fin_cases (x2 + - x1) (y2 + - y1)) as [[-> _] | [-> _]].
    + destruct (CropFacts.size_at_least_one (x2 + - x1)) as (size & Hs & ->).
      assert (P2 : (0 < 2)%Q) by reflexivity.
      rewrite !(IouFacts.div_Fin_pos _ P2).
      cbn [Num.sub Num.neg Num.add Num.mul Num.round].
      set (X1 := inject_Z (Qfloor _)). set (Y1 := inject_Z (Qfloor _)).
      unfold Num.of_nat.
      destruct (CropFacts.clamp_axis X1 (inject_Z size)
                  (inject_Z (Z.of_nat (el_width element))))
        as (dx & dw & pl & pr & Edx & Edw & Epl & Epr & Ho & Hpl & Hpr & Hdx & Hdw & Hin).
      destruct (CropFacts.clamp_axis Y1 (inject_Z size)
                  (inject_Z (Z.of_nat (el_height element))))
        as (dy & dh & pt & pb & Edy & Edh & Ept & Epb & Ho' & Hpt & Hpb & Hdy & Hdh & Hin').
      cbn [Num.add Num.neg Num.sub] in Edx, Edw, Epl, Epr, Edy, Edh, Ept, Epb.
      eexists. exists size, dx, dy, dw, dh, pl, pt, pr, pb.
      split; [reflexivity|].
      cbn [Landmark.sizeW Landmark.sizeH Landmark.originX Landmark.originY
           Landmark.drawX1 Landmark.drawY1 Landmark.drawWidth Landmark.drawHeight
           Landmark.padLeft Landmark.padTop Landmark.padRight Landmark.padBottom].
      cbn [Num.neg]. cbn [Num.neg Num.add].
      rewrite Edw, Edh, Edx, Edy, Epl, Ept, Epr, Epb.
      cbn [Num.sub Num.neg Num.add Num.mul Num.round Num.eqv].
      fold X1. fold Y1.
      repeat split; try assumption; try reflexivity;
        try (apply Hin; assumption); try (apply Hin'; assumption).
    + destruct (CropFacts.size_at_least_one (y2 + - y1)) as (size & Hs & ->).
      assert (P2 : (0 < 2)%Q) by reflexivity.
      rewrite !(IouFacts.div_Fin_pos _ P2).
      cbn [Num.sub Num.neg Num.add Num.mul Num.round].
      set (X1 := inject_Z (Qfloor _)). set (Y1 := inject_Z (Qfloor _)).
      unfold Num.of_nat.
      destruct (CropFacts.clamp_axis X1 (inject_Z size)
                  (inject_Z (Z.of_nat (el_width element))))
        as (dx & dw & pl & pr & Edx & Edw & Epl & Epr & Ho & Hpl & Hpr & Hdx & Hdw & Hin).
      destruct (CropFacts.clamp_axis Y1 (inject_Z size)
                  (inject_Z (Z.of_nat (el_height element))))
        as (dy & dh & pt & pb & Edy & Edh & Ept & Epb & Ho' & Hpt & Hpb & Hdy & Hdh & Hin').
      cbn [Num.add Num.neg Num.sub] in Edx, Edw, Epl, Epr, Edy, Edh, Ept, Epb.
      eexists. exists size, dx, dy, dw, dh, pl, pt, pr, pb.
      split; [reflexivity|].
      cbn [Landmark.sizeW Landmark.sizeH Landmark.originX Landmark.originY
           Landmark.drawX1 Landmark.drawY1 Landmark.drawWidth Landmark.drawHeight
           Landmark.padLeft Landmark.padTop Landmark.padRight Landmark.padBottom].
      cbn [Num.neg]. cbn [Num.neg Num.add].
      rewrite Edw, Edh, Edx, Edy, Epl, Ept, Epr, Epb.
      cbn [Num.sub Num.neg Num.add Num.mul Num.round Num.eqv].
      fold X1. fold Y1.
      repeat split; try assumption; try reflexivity;
        try (apply Hin; assumption); try (apply Hin'; assumption).
Qed.

Lemma landmark_crop_witness :
  exists c, Landmark.prepareInput (Scenario.frame 1) (Samples.box (-4) (-4) 4 4) = Ok c.
Proof.
  destruct (proj2 (landmark_crop_stays_inside_the_frame (Scenario.frame 1)
                     (Samples.box (-4) (-4) 4 4)))
    as (c & size & dx & dy & dw & dh & pl & pt & pr & pb & H & _).
  - exists (-4)%Q, (-4)%Q, 4%Q, 4%Q. reflexivity.
  - simpl. lia.
  - simpl. lia.
  - exists c. exact H.
Defined.

(** ** Evidence frames and captured crops *)

Module BufferFacts.
Import Evidence.

Lemma append_last (l : list string) (f : string) :
  FaceLiveness.truthy (Some f) = true ->
  appendStageFrame (Some f)
    (skipn (List.length l - EVIDENCE_FRAME_COUNT) l) =
  skipn (List.length (l ++ [f]) - EVIDENCE_FRAME_COUNT) (l ++ [f]).
Proof.
  intros Ht. unfold appendStageFrame. rewrite Ht. cbv zeta.
  unfold EVIDENCE_FRAME_COUNT.
  rewrite !length_app, length_skipn. cbn [List.length].
  destruct (Nat.ltb 15 (List.length l - (List.length l - 15) + 1)) eqn:E.
  - apply Nat.ltb_lt in E.
    assert (Hx : skipn (List.length l - 15) (l ++ [f]) =
                 skipn (List.length l - 15) l ++ [f]).
    { rewrite skipn_app.
      replace (List.length l - 15 - List.length l)%nat with 0%nat by lia.
      reflexivity. }
    rewrite <- Hx, skipn_skipn. f_equal. lia.
  - apply Nat.ltb_ge in E.
    replace (List.length l - 15)%nat with 0%nat by lia.
    replace (List.length l + 1 - 15)%nat with 0%nat by lia.
    reflexivity.
Qed.

Lemma buffer_run frames : forall kept,
  fold_left (fun b f => appendStageFrame f b) frames
    (skipn (List.length kept - EVIDENCE_FRAME_COUNT) kept) =
  skipn (List.length (kept ++ captured frames) - EVIDENCE_FRAME_COUNT)
        (kept ++ captured frames).
Proof.
  induction frames as [|frame frames IH]; intros kept.
  - simpl. now rewrite app_nil_r.
  - cbn [fold_left]. unfold captured. cbn [flat_map]. fold (captured frames).
    destruct frame as [f|].
    + destruct (FaceLiveness.truthy (Some f)) eqn:Et.
      * rewrite (@append_last kept f Et), IH. now rewrite <- app_assoc.
      * unfold appendStageFrame at 2. rewrite Et. apply IH.
    + apply IH.
Qed.

End BufferFacts.

(** X23.  The frame buffer of a stage holds the last 15 frames that could be
    captured, in order.  When the stage completes, the GIF encoder is given
    between 2 and 15 images, each from the buffer or, if the buffer is
    empty, the frame captured at that moment; it is given nothing only when
    the buffer is empty and that capture fails. *)
Theorem stage_buffer_keeps_the_last_frames (frames : list (option string)) :
  let buffer := fold_left (fun b f => Evidence.appendStageFrame f b) frames [] in
  buffer = skipn (List.length (Evidence.captured frames) - 15)
                 (Evidence.captured frames) /\
  (List.length buffer <= 15)%nat /\
  forall captureFrame,
    match Evidence.gifFrames captureFrame buffer with
    | None => buffer = [] /\ FaceLiveness.truthy captureFrame = false
    | Some images =>
        (2 <= List.length images <= 15)%nat /\
        forall image, In image images ->
          In image buffer \/ (buffer = [] /\ captureFrame = Some image)
    end.
Proof.
  cbv zeta.
  pose proof (BufferFacts.buffer_run frames []) as H. cbn [List.length app skipn] in H.
  change (0 - Evidence.EVIDENCE_FRAME_COUNT)%nat with 0%nat in H.
  cbn [skipn] in H. unfold Evidence.EVIDENCE_FRAME_COUNT in H.
  rewrite H. set (kept := Evidence.captured frames).
  set (buffer := skipn (List.length kept - 15) kept).
  assert (Hlen : (List.length buffer <= 15)%nat).
  { unfold buffer. rewrite length_skipn. lia. }
  split; [reflexivity | split; [exact Hlen|]].
  intros captureFrame. unfold Evidence.gifFrames.
  destruct buffer as [|f0 [|f1 rest]] eqn:Eb.
  - destruct captureFrame as [f|]; [|split; reflexivity].
    destruct (FaceLiveness.truthy (Some f)) eqn:Et; [|split; reflexivity].
    cbn. split; [lia|].
    intros image [<- | [<- | [<- | []]]]; right; split; reflexivity.
  - cbn. split; [lia|]. intros image [<- | [<- | [<- | []]]]; left; now left.
  - cbn [Nat.leb List.length]. split; [simpl in *; lia|]. intros image Hi. now left.
Qed.

Module ResolutionFacts.
Import Capture.

Lemma resolution_value (q : Q) :
  exists t : Q,
    resolutionOfIod (Fin q) = Fin (inject_Z (Qfloor (t * 100 + (1 # 2))) / 100) /\
    ((q < 80 /\ t * 80 == q * 60) \/
     (300 <= q /\ t == 100) \/
     (80 <= q /\ q < 300 /\ (t - 60) * 220 == (q - 80) * 40))%Q.
Proof.
  unfold resolutionOfIod. cbv zeta.
  assert (P100 : (0 < 100)%Q) by reflexivity.
  assert (P80 : (0 < 80)%Q) by reflexivity.
  destruct (Fin q <? Fin 80) eqn:E1.
  - apply ltb_Fin in E1.
    rewrite (IouFacts.div_Fin_pos q P80).
    cbn [Num.mul Num.round]. rewrite (IouFacts.div_Fin_pos _ P100).
    eexists. split; [reflexivity|]. left. split; [exact E1 | field].
  - apply ltb_Fin_false in E1.
    destruct (Fin q >=? Fin 300) eqn:E2.
    + apply IouFacts.leb_Fin in E2.
      cbn [Num.mul Num.round]. rewrite (IouFacts.div_Fin_pos _ P100).
      eexists. split; [reflexivity|]. right. left. split; [exact E2 | reflexivity].
    + apply IouFacts.leb_Fin_false in E2.
      cbn [Num.sub Num.neg Num.add].
      assert (P220 : (0 < 300 + - 80)%Q) by reflexivity.
      rewrite (IouFacts.div_Fin_pos _ P220).
      cbn [Num.mul Num.add Num.round]. rewrite (IouFacts.div_Fin_pos _ P100).
      eexists. split; [reflexivity|]. right. right.
      split; [exact E1 | split; [exact E2|]]. field.
Qed.

Lemma round2_bounds (t : Q) (lo hi : Z) :
  (inject_Z lo <= t * 100)%Q -> (t * 100 <= inject_Z hi)%Q ->
  (inject_Z lo / 100 <= inject_Z (Qfloor (t * 100 + (1 # 2))) / 100 <=
   inject_Z hi / 100)%Q.
Proof.
  intros Hlo Hhi.
  pose proof (@RoundFacts.round_ge_int _ _ Hlo) as H1.
  pose proof (@RoundFacts.round_le_int _ _ Hhi) as H2.
  rewrite Zle_Qle in H1, H2.
  split; apply Qmult_le_compat_r; try assumption; apply Qinv_le_0_compat; lra.
Qed.

End ResolutionFacts.

(** X24.  [evaluatePixelResolution] returns null without two keypoints.  The
    score it gives to an inter-ocular distance that is not negative lies
    between 0 and 100, never decreases when the distance grows, is 60 at 80
    pixels and 100 from 300 pixels on. *)
Theorem pixel_resolution_score_is_monotone (hypot : num -> num -> num) :
  (forall kps,
     match kps with Some l => (List.length l < 2)%nat | None => True end ->
     Capture.evaluatePixelResolution hypot kps = None) /\
  (forall q : Q, (0 <= q)%Q ->
     exists s : Q, Capture.resolutionOfIod (Fin q) = Fin s /\ (0 <= s <= 100)%Q) /\
  (forall q q' s s' : Q, (q <= q')%Q ->
     Capture.resolutionOfIod (Fin q) = Fin s ->
     Capture.resolutionOfIod (Fin q') = Fin s' -> (s <= s')%Q) /\
  (forall q : Q, (300 <= q)%Q ->
     Num.eqv (Capture.resolutionOfIod (Fin q)) (Fin 100)) /\
  Num.eqv (Capture.resolutionOfIod (Fin 80)) (Fin 60).
Proof.
  split; [|split; [|split; [|split]]].
  - intros [[|a [|b l]]|] H; try reflexivity. simpl in H. lia.
  - intros q Hq. destruct (ResolutionFacts.resolution_value q) as (t & -> & Ht).
    eexists. split; [reflexivity|].
    assert (Hb : (inject_Z 0 <= t * 100 /\ t * 100 <= inject_Z 10000)%Q).
    { change (inject_Z 0) with 0%Q. change (inject_Z 10000) with 10000%Q.
      destruct Ht as [[H1 H2] | [[H1 H2] | (H1 & H2 & H3)]]; split; lra. }
    destruct Hb as [Hlo Hhi].
    pose proof (@ResolutionFacts.round2_bounds _ _ _ Hlo Hhi) as H.
    assert (E0 : (inject_Z 0 / 100 == 0)%Q) by reflexivity.
    assert (E : (inject_Z 10000 / 100 == 100)%Q) by reflexivity.
    rewrite E0, E in H. exact H.
  - intros q q' s s' Hqq Hs Hs'.
    destruct (ResolutionFacts.resolution_value q) as (t & Et & Ht).
    destruct (ResolutionFacts.resolution_value q') as (t' & Et' & Ht').
    rewrite Et in Hs. rewrite Et' in Hs'.
    injection Hs as Hs. injection Hs' as Hs'. subst s s'.
    assert (Htt : (t <= t')%Q).
    { destruct Ht as [[H1 H2] | [[H1 H2] | (H1 & H2 & H3)]],
               Ht' as [[H1' H2'] | [[H1' H2'] | (H1' & H2' & H3')]]; lra. }
    assert (Hf : (Qfloor (t * 100 + (1 # 2)) <= Qfloor (t' * 100 + (1 # 2)))%Z).
    { apply Qfloor_resp_le. lra. }
    rewrite Zle_Qle in Hf.
    apply (Qmult_le_compat_r _ _ (/ 100)); [exact Hf | apply Qinv_le_0_compat; lra].
  - intros q Hq. destruct (ResolutionFacts.resolution_value q) as (t & -> & Ht).
    destruct Ht as [[H1 H2] | [[H1 H2] | (H1 & H2 & H3)]]; try lra.
    cbn [Num.eqv].
    assert (E : Qfloor (t * 100 + (1 # 2)) = 10000%Z).
    { apply Z.le_antisymm.
      - apply RoundFacts.round_le_int. change (inject_Z 10000) with 10000%Q. lra.
      - apply RoundFacts.round_ge_int. change (inject_Z 10000) with 10000%Q. lra. }
    rewrite E. reflexivity.
  - vm_compute. reflexivity.
Qed.

Lemma pixel_resolution_witness :
  exists s : Q, Capture.resolutionOfIod (Fin 150) = Fin s /\ (0 <= s <= 100)%Q.
Proof.
  apply (proj1 (proj2 (pixel_resolution_score_is_monotone (fun x _ => x)))).
  lra.
Defined.

Module CaptureFacts.
Import Capture.

Lemma int_pos (q : Q) (k : Z) : (q == inject_Z k)%Q -> (0 < q)%Q -> (1 <= q)%Q.
Proof.
  intros E H. rewrite E in *. change 0%Q with (inject_Z 0) in H.
  change 1%Q with (inject_Z 1). rewrite <- Zlt_Qlt in H. rewrite <- Zle_Qle. lia.
Qed.

(** One axis: the clamped start and the extent that fits in the frame *)
Lemma crop_axis (a len : Q) (V : nat) :
  exists x w : Q,
    Num.max (Fin 0) (Num.floor (Fin a)) = Fin x /\
    Num.min (Num.of_nat V - Fin x) (ceil (Fin len)) = Fin w /\
    (0 <= x)%Q /\ (x + w <= inject_Z (Z.of_nat V))%Q /\
    ((0 < w)%Q -> (1 <= w)%Q).
Proof.
  cbn [Num.floor]. unfold ceil, Num.of_nat. cbn [Num.neg Num.floor].
  set (fa := Qfloor a). set (fl := Qfloor (- len)).
  destruct (RangeFacts.max_Fin_cases 0 (inject_Z fa)) as [[-> H1] | [-> H1]].
  - exists 0%Q. cbn [Num.sub Num.neg Num.add].
    destruct (RangeFacts.min_Fin_cases (inject_Z (Z.of_nat V) + - 0) (- inject_Z fl))
      as [[-> H2] | [-> H2]];
      eexists; (split; [reflexivity | split; [reflexivity|]]);
      (split; [lra | split; [lra|]]); intros Hw.
    + apply (@int_pos _ (Z.of_nat V)); [|exact Hw]. ring.
    + apply (@int_pos _ (- fl)%Z); [|exact Hw]. rewrite inject_Z_opp. reflexivity.
  - exists (inject_Z fa). cbn [Num.sub Num.neg Num.add].
    destruct (RangeFacts.min_Fin_cases (inject_Z (Z.of_nat V) + - inject_Z fa)
                                       (- inject_Z fl))
      as [[-> H2] | [-> H2]];
      eexists; (split; [reflexivity | split; [reflexivity|]]);
      (split; [lra | split; [lra|]]); intros Hw.
    + apply (@int_pos _ (Z.of_nat V - fa)%Z); [|exact Hw].
      unfold Z.sub. rewrite inject_Z_plus, inject_Z_opp. reflexivity.
    + apply (@int_pos _ (- fl)%Z); [|exact Hw]. rewrite inject_Z_opp. reflexivity.
Qed.

Lemma preview_side (w m : Q) :
  (1 <= w)%Q -> (w <= m)%Q ->
  exists t : Q,
    Num.max (Fin 1) (Num.round (Fin w * (Fin 64 / Fin m))) = Fin t /\
    (1 <= t <= 64)%Q /\ ((w == m)%Q -> (t == 64)%Q).
Proof.
  intros Hw Hm.
  assert (Pm : (0 < m)%Q) by lra.
  rewrite (IouFacts.div_Fin_pos _ Pm). cbn [Num.mul Num.round].
  set (r := Qfloor (w * (64 / m) + (1 # 2))).
  assert (Hx : (w * (64 / m) <= 64)%Q).
  { assert (E : (w * (64 / m) == 64 * (w / m))%Q) by (field; lra).
    rewrite E.
    assert (Hd : (w / m <= 1)%Q) by (apply Qle_shift_div_r; lra).
    lra. }
  assert (Hr : (r <= 64)%Z).
  { apply RoundFacts.round_le_int. change (inject_Z 64) with 64%Q. exact Hx. }
  rewrite Zle_Qle in Hr. change (inject_Z 64) with 64%Q in Hr.
  destruct (RangeFacts.max_Fin_cases 1 (inject_Z r)) as [[-> H] | [-> H]].
  - exists 1%Q. split; [reflexivity | split; [lra|]].
    intros E. exfalso.
    assert (Hge : (64 <= r)%Z).
    { apply RoundFacts.round_ge_int. change (inject_Z 64) with 64%Q.
      assert (E' : (w * (64 / m) == 64)%Q) by (rewrite E; field; lra).
      rewrite E'. lra. }
    rewrite Zle_Qle in Hge. change (inject_Z 64) with 64%Q in Hge. lra.
  - exists (inject_Z r). split; [reflexivity | split; [lra|]].
    intros E.
    assert (Hge : (64 <= r)%Z).
    { apply RoundFacts.round_ge_int. change (inject_Z 64) with 64%Q.
      assert (E' : (w * (64 / m) == 64)%Q) by (rewrite E; field; lra).
      rewrite E'. lra. }
    rewrite Zle_Qle in Hge. change (inject_Z 64) with 64%Q in Hge. lra.
Qed.

End CaptureFacts.

(** X25.  [captureKeyFrame] gives nothing for a video without width or
    height.  For a box with finite corners, the rectangle it cuts out starts
    at non-negative coordinates, is at least one pixel wide and high and
    ends inside the video; the preview is between 1 and 64 pixels in each
    direction and exactly 64 in one of them. *)
Theorem key_frame_crop_lies_inside_the_video (videoWidth videoHeight : nat)
    (b : BBox) :
  ((videoWidth = 0 \/ videoHeight = 0)%nat ->
   Capture.keyFrameCrop videoWidth videoHeight b = None) /\
  (Landmark.finiteBox b ->
   forall c, Capture.keyFrameCrop videoWidth videoHeight b = Some c ->
   exists x y w h tw th : Q,
     Capture.cropX c = Fin x /\ Capture.cropY c = Fin y /\
     Capture.cropW c = Fin w /\ Capture.cropH c = Fin h /\
     Capture.targetW c = Fin tw /\ Capture.targetH c = Fin th /\
     (0 <= x /\ 0 <= y /\ 1 <= w /\ 1 <= h)%Q /\
     (x + w <= inject_Z (Z.of_nat videoWidth))%Q /\
     (y + h <= inject_Z (Z.of_nat videoHeight))%Q /\
     (1 <= tw <= 64 /\ 1 <= th <= 64 /\ (tw == 64 \/ th == 64))%Q).
Proof.
  split.
  - intros [-> | ->]; unfold Capture.keyFrameCrop; simpl; [reflexivity|].
    now rewrite orb_true_r.
  - intros (x1 & y1 & x2 & y2 & ->) c. unfold Capture.keyFrameCrop.
    destruct (Nat.eqb videoWidth 0 || Nat.eqb videoHeight 0); [discriminate|].
    cbv zeta. cbn [b_x1 b_y1 b_x2 b_y2 Num.sub Num.neg Num.add Num.mul].
    destruct (CaptureFacts.crop_axis (x1 + - (20)) (x2 + - x1 + 20 * 2) videoWidth)
      as (x & w & -> & -> & Hx & Hxw & Hw).
    destruct (CaptureFacts.crop_axis (y1 + - (20)) (y2 + - y1 + 20 * 2) videoHeight)
      as (y & h & -> & -> & Hy & Hyh & Hh).
    destruct (Fin w <=? Fin 0) eqn:Ew; [discriminate|].
    destruct (Fin h <=? Fin 0) eqn:Eh; [discriminate|].
    apply IouFacts.leb_Fin_false in Ew, Eh.
    specialize (Hw Ew). specialize (Hh Eh).
    cbn [orb].
    destruct (RangeFacts.max_Fin_cases w h) as [[-> Hm] | [-> Hm]].
    + destruct (@CaptureFacts.preview_side w w Hw ltac:(lra)) as (tw & -> & Htw & Etw).
      destruct (@CaptureFacts.preview_side h w Hh Hm) as (th & -> & Hth & _).
      intros H. injection H as <-.
      assert (E64 : (tw == 64)%Q) by (apply Etw; reflexivity).
      exists x, y, w, h, tw, th. repeat split; try assumption; try lra.
    + destruct (@CaptureFacts.preview_side w h Hw ltac:(lra)) as (tw & -> & Htw & _).
      destruct (@CaptureFacts.preview_side h h Hh ltac:(lra)) as (th & -> & Hth & Eth).
      intros H. injection H as <-.
      assert (E64 : (th == 64)%Q) by (apply Eth; reflexivity).
      exists x, y, w, h, tw, th. repeat split; try assumption; try lra.
Qed.

Lemma key_frame_crop_witness :
  exists (c : Capture.KeyFrameCrop) (x y w h : Q),
    Capture.keyFrameCrop 640 480 (Samples.box 600 10 700 110) = Some c /\
    Capture.cropX c = Fin x /\ Capture.cropY c = Fin y /\
    Capture.cropW c = Fin w /\ Capture.cropH c = Fin h /\
    (x + w <= 640)%Q /\ (y + h <= 480)%Q.
Proof.
  destruct (Capture.keyFrameCrop 640 480 (Samples.box 600 10 700 110))
    as [c|] eqn:E.
  - destruct (proj2 (key_frame_crop_lies_inside_the_video 640 480
                       (Samples.box 600 10 700 110))
                (ex_intro _ 600%Q (ex_intro _ 10%Q (ex_intro _ 700%Q
                   (ex_intro _ 110%Q eq_refl)))) c E)
      as (x & y & w & h & tw & th & Hx & Hy & Hw & Hh & _ & _ & _ & Hxw & Hyh & _).
    exists c, x, y, w, h. repeat split; try assumption.
  - vm_compute in E. discriminate E.
Defined.

(** ** The best score over a session *)

Module BestFacts.
Import FaceLiveness QualityDefs BestDefs.

Lemma leb_refl x : x <> NaN -> (x <=? x) = true.
Proof.
  destruct x as [q| | |]; try reflexivity; [|congruence].
  intros _. apply IouFacts.leb_Fin. lra.
Qed.

Lemma leb_trans a b c : (a <=? b) = true -> (b <=? c) = true -> (a <=? c) = true.
Proof.
  destruct a as [x| | |], b as [y| | |], c as [z| | |];
    try reflexivity; try discriminate.
  rewrite !IouFacts.leb_Fin. intros; lra.
Qed.

Lemma gtb_leb p s : (p >? s) = true -> (s <=? p) = true /\ p <> NaN.
Proof.
  unfold Num.gtb. destruct p as [x| | |], s as [y| | |];
    try discriminate; try (split; [reflexivity | discriminate]).
  rewrite ltb_Fin, IouFacts.leb_Fin. intros H. split; [lra | discriminate].
Qed.

Lemma not_gtb_leb p s : p <> NaN -> s <> NaN -> (p >? s) = false -> (p <=? s) = true.
Proof.
  unfold Num.gtb. destruct p as [x| | |], s as [y| | |];
    try reflexivity; try discriminate; try congruence.
  rewrite ltb_Fin_false, IouFacts.leb_Fin. tauto.
Qed.

(** What one call does to the recorded best score *)
Lemma step_score cam mobile q r :
  let q' := handleLivenessResult cam mobile q r in
  keyFrameScoreRef q' = keyFrameScoreRef q \/
  (mobile = false /\ detection r <> None /\
   candidateScore r = Some (keyFrameScoreRef q') /\
   (keyFrameScoreRef q' >? keyFrameScoreRef q) = true).
Proof.
  cbv zeta. unfold handleLivenessResult, candidateScore.
  destruct mobile; [now left|].
  destruct (detection r) as [d|]; [|destruct (metrics r); now left].
  destruct (metrics r) as [m|]; [|now left].
  destruct (frontalScore m) as [p|]; [|now left].
  cbn [keyFrameScoreRef].
  destruct (p >? keyFrameScoreRef q) eqn:E; [|now left].
  cbn [keyFrameScoreRef].
  destruct (_ && _); [|now left].
  right. repeat split; try assumption. discriminate.
Qed.

Lemma step_reliable cam q r p :
  reliable cam -> detection r <> None -> candidateScore r = Some p ->
  (p >? keyFrameScoreRef q) = true ->
  keyFrameScoreRef (handleLivenessResult cam false q r) = p.
Proof.
  intros (Hk & Hu & Hf) Hd Hc Hgt.
  unfold handleLivenessResult, candidateScore in *.
  destruct (detection r) as [d|]; [|congruence].
  destruct (metrics r) as [m|]; [|discriminate].
  rewrite Hc. cbn [keyFrameScoreRef]. rewrite Hgt. cbn [keyFrameScoreRef].
  rewrite Hu, Hf.
  destruct (captureKeyFrame cam (bbox (det d))) eqn:Ek; [reflexivity|].
  now apply Hk in Ek.
Qed.

Lemma run_score cam mobile rs : forall q,
  keyFrameScoreRef q <> NaN ->
  let q' := handleResults cam mobile q rs in
  keyFrameScoreRef q' <> NaN /\
  (keyFrameScoreRef q <=? keyFrameScoreRef q') = true /\
  (keyFrameScoreRef q' = keyFrameScoreRef q \/
   exists r, In r rs /\ detection r <> None /\
             candidateScore r = Some (keyFrameScoreRef q')) /\
  (reliable cam -> mobile = false ->
   forall r p, In r rs -> detection r <> None -> candidateScore r = Some p ->
     p <> NaN -> (p <=? keyFrameScoreRef q') = true).
Proof.
  induction rs as [|r rs IH]; intros q Hq; cbv zeta.
  - cbn. split; [exact Hq | split; [now apply leb_refl | split; [now left|]]].
    intros _ _ r p [].
  - unfold handleResults. cbn [fold_left].
    fold (handleResults cam mobile (handleLivenessResult cam mobile q r) rs).
    pose proof (step_score cam mobile q r) as Hs. cbv zeta in Hs.
    set (q1 := handleLivenessResult cam mobile q r) in *.
    assert (H1 : keyFrameScoreRef q1 <> NaN /\
                 (keyFrameScoreRef q <=? keyFrameScoreRef q1) = true).
    { destruct Hs as [E | (_ & _ & _ & Hgt)].
      - rewrite E. split; [exact Hq | now apply leb_refl].
      - apply gtb_leb in Hgt. tauto. }
    destruct H1 as [Hn1 Hle1].
    destruct (IH q1 Hn1) as (Hn & Hle & Hfrom & Hbest). cbv zeta in *.
    split; [exact Hn | split; [eapply leb_trans; eauto | split]].
    + destruct Hfrom as [E | (r' & Hin & Hd & Hc)].
      * rewrite E.
        destruct Hs as [E' | (_ & Hd & Hc & _)].
        -- now left.
        -- right. exists r. split; [now left | split; assumption].
      * right. exists r'. split; [now right | split; assumption].
    + intros Hrel Hm r' p [<- | Hin] Hd Hc Hp.
      * subst mobile.
        destruct (p >? keyFrameScoreRef q) eqn:Egt.
        -- rewrite <- (@step_reliable cam q r p Hrel Hd Hc Egt). exact Hle.
        -- eapply leb_trans; [|exact Hle]. eapply leb_trans; [|exact Hle1].
           now apply not_gtb_leb.
      * now apply (Hbest Hrel Hm r' p).
Qed.

End BestFacts.

(** X26.  Over any run of results, the recorded best score is either still
    [-Infinity] or the frontal score of one of the results that carried a
    detection, and it is never NaN.  With a camera whose captures succeed and
    outside the mobile hand-off, no such result has a frontal score above the
    recorded best. *)
Theorem best_score_is_the_highest_seen (cam : FaceLiveness.Camera)
    (isMobileHandoff : bool) (rs : list ProcessFrameResult) :
  let q' := BestDefs.handleResults cam isMobileHandoff FaceLiveness.initialQuality rs in
  (FaceLiveness.keyFrameScoreRef q' = NInf \/
   exists r, In r rs /\ detection r <> None /\
     QualityDefs.candidateScore r = Some (FaceLiveness.keyFrameScoreRef q')) /\
  FaceLiveness.keyFrameScoreRef q' <> NaN /\
  (BestDefs.reliable cam -> isMobileHandoff = false ->
   forall r p, In r rs -> detection r <> None ->
     QualityDefs.candidateScore r = Some p -> p <> NaN ->
     (p <=? FaceLiveness.keyFrameScoreRef q') = true).
Proof.
  cbv zeta.
  destruct (@BestFacts.run_score cam isMobileHandoff rs FaceLiveness.initialQuality)
    as (Hn & _ & Hfrom & Hbest); [discriminate|].
  cbv zeta in *. split; [exact Hfrom | split; [exact Hn | exact Hbest]].
Qed.

Lemma best_score_witness :
  (Fin 40 <=?
   FaceLiveness.keyFrameScoreRef
     (BestDefs.handleResults QualityDefs.brightCamera false
        FaceLiveness.initialQuality
        [QualityDefs.frameWithScore (Fin 40); QualityDefs.frameWithScore (Fin 80);
         QualityDefs.frameWithScore (Fin 60)])) = true.
Proof.
  apply (proj2 (proj2
           (best_score_is_the_highest_seen QualityDefs.brightCamera false
              [QualityDefs.frameWithScore (Fin 40);
               QualityDefs.frameWithScore (Fin 80);
               QualityDefs.frameWithScore (Fin 60)]))
         ltac:(repeat split; intros; (discriminate || reflexivity))
         eq_refl (QualityDefs.frameWithScore (Fin 40))).
  - left. reflexivity.
  - discriminate.
  - reflexivity.
  - discriminate.
Defined.

(** X27.  When the six scores lie between 0 and 100, the quality score the
    component shows is a number between 0 and 100. *)
Theorem quality_score_stays_within_0_and_100 (q : FaceLiveness.QualityState) :
  BestDefs.scoresInRange q ->
  exists s : Q,
    FaceLiveness.qualityScore (FaceLiveness.qualityEffect q) = Some (Fin s) /\
    (0 <= s <= 100)%Q.
Proof.
  unfold BestDefs.scoresInRange, FaceLiveness.qualityEffect, FaceLiveness.qualityValues.
  intros H.
  repeat match goal with
  | H : Forall _ (_ :: _) |- _ =>
      let v := fresh "v" in let E := fresh "E" in let B := fresh "B" in
      let H' := fresh "H" in
      inversion H as [|? ? (v & E & B) H']; subst; clear H; rewrite E
  end.
  cbn [FaceLiveness.all_numbers fold_right FaceLiveness.qualityScore
       FaceLiveness.sum fold_left Num.add List.length].
  unfold Num.of_nat.
  assert (P6 : (0 < inject_Z (Z.of_nat 6))%Q) by reflexivity.
  rewrite (IouFacts.div_Fin_pos _ P6). cbn [Num.mul Num.round].
  assert (P100 : (0 < 100)%Q) by reflexivity.
  rewrite (IouFacts.div_Fin_pos _ P100).
  eexists. split; [reflexivity|].
  set (t := ((0 + v + v0 + v1 + v2 + v3 + v4) / inject_Z (Z.of_nat 6))%Q).
  assert (Ht : (0 <= t <= 100)%Q).
  { unfold t. split.
    - apply Qle_shift_div_l; [exact P6 | lra].
    - apply Qle_shift_div_r; [exact P6|].
      change (inject_Z (Z.of_nat 6)) with 6%Q. lra. }
  assert (Hlo : (inject_Z 0 <= t * 100)%Q) by (change (inject_Z 0) with 0%Q; lra).
  assert (Hhi : (t * 100 <= inject_Z 10000)%Q)
    by (change (inject_Z 10000) with 10000%Q; lra).
  pose proof (@ResolutionFacts.round2_bounds _ _ _ Hlo Hhi) as Hb.
  assert (Ez : (inject_Z 0 / 100 == 0)%Q) by reflexivity.
  assert (Eh : (inject_Z 10000 / 100 == 100)%Q) by reflexivity.
  rewrite Ez, Eh in Hb. exact Hb.
Qed.

Lemma quality_score_range_witness :
  exists s : Q,
    FaceLiveness.qualityScore (FaceLiveness.qualityEffect Samples.scoredQuality) =
      Some (Fin s) /\
    (0 <= s <= 100)%Q.
Proof.
  apply quality_score_stays_within_0_and_100.
  unfold BestDefs.scoresInRange.
  vm_compute FaceLiveness.qualityValues.
  repeat constructor; eexists; (split; [reflexivity | lra]).
Defined.

(** ** Image statistics and the clarity score *)

Module StatsFacts.
Import ImageStats.

Lemma total_app a b : (total (a ++ b) == total a + total b)%Q.
Proof.
  induction a as [|x a IH]; simpl; [ring|]. rewrite IH. ring.
Qed.

Lemma total_deviation (m : Q) (qs : list Q) :
  (total (map (fun v => (v - m) * (v - m)) qs) ==
   total (map (fun v => v * v) qs) - 2 * m * total qs +
   inject_Z (Z.of_nat (List.length qs)) * m * m)%Q.
Proof.
  induction qs as [|x qs IH].
  - simpl. ring.
  - unfold total in *. cbn [map fold_right List.length].
    rewrite IH. rewrite Nat2Z.inj_succ. unfold Z.succ.
    rewrite inject_Z_plus. change (inject_Z 1) with 1%Q. ring.
Qed.

Lemma total_nonneg (qs : list Q) :
  Forall (fun q => 0 <= q)%Q qs -> (0 <= total qs)%Q.
Proof.
  induction 1 as [|x qs Hx _ IH]; simpl; [lra|]. lra.
Qed.

(** The loop invariant: after the values [seen], the mean times their
    number is their sum, and [M2] is the sum of squares less the mean times
    the sum. *)
Lemma accumulate_invariant (seen : list Q) (m s v : Q) :
  (m * inject_Z (Z.of_nat (List.length seen)) == total seen)%Q ->
  (s == total (map (fun x => x * x) seen) - m * total seen)%Q ->
  exists m' s' : Q,
    accumulate {| mean := Fin m; M2 := Fin s; count := List.length seen |} (Fin v) =
    {| mean := Fin m'; M2 := Fin s'; count := List.length (seen ++ [v]) |} /\
    (m' * inject_Z (Z.of_nat (List.length (seen ++ [v]))) == total (seen ++ [v]))%Q /\
    (s' == total (map (fun x => x * x) (seen ++ [v])) - m' * total (seen ++ [v]))%Q.
Proof.
  intros Hm Hs. unfold accumulate. cbn [mean M2 count]. cbv zeta.
  unfold Num.of_nat.
  set (N := inject_Z (Z.of_nat (List.length seen))) in *.
  assert (EN : (inject_Z (Z.of_nat (S (List.length seen))) == N + 1)%Q).
  { rewrite Nat2Z.inj_succ. unfold Z.succ. rewrite inject_Z_plus. reflexivity. }
  assert (PN : (0 <= N)%Q).
  { unfold N. change 0%Q with (inject_Z 0). rewrite <- Zle_Qle. lia. }
  assert (P1 : (0 < inject_Z (Z.of_nat (S (List.length seen))))%Q)
    by (rewrite EN; lra).
  cbn [Num.sub Num.neg Num.add].
  rewrite (IouFacts.div_Fin_pos _ P1).
  cbn [Num.sub Num.neg Num.add Num.mul].
  eexists. eexists. split.
  - f_equal. rewrite length_app. simpl. lia.
  - rewrite length_app. cbn [List.length].
    replace (List.length seen + 1)%nat with (S (List.length seen)) by lia.
    rewrite map_app, !total_app. cbn [map total fold_right].
    rewrite EN.
    split.
    + setoid_replace (total seen) with (m * N)%Q by (symmetry; exact Hm).
      field. lra.
    + rewrite Hs.
      setoid_replace (total seen) with (m * N)%Q by (symmetry; exact Hm).
      field. lra.
Qed.

Lemma running_from (qs : list Q) : forall (seen : list Q) (m s : Q),
  (m * inject_Z (Z.of_nat (List.length seen)) == total seen)%Q ->
  (s == total (map (fun x => x * x) seen) - m * total seen)%Q ->
  exists m' s' : Q,
    fold_left accumulate (map Fin qs)
      {| mean := Fin m; M2 := Fin s; count := List.length seen |} =
    {| mean := Fin m'; M2 := Fin s'; count := List.length (seen ++ qs) |} /\
    (m' * inject_Z (Z.of_nat (List.length (seen ++ qs))) == total (seen ++ qs))%Q /\
    (s' == total (map (fun x => x * x) (seen ++ qs)) - m' * total (seen ++ qs))%Q.
Proof.
  induction qs as [|v qs IH]; intros seen m s Hm Hs.
  - exists m, s. rewrite app_nil_r. repeat split; assumption.
  - cbn [map fold_left].
    destruct (@accumulate_invariant seen m s v Hm Hs) as (m1 & s1 & -> & Hm1 & Hs1).
    destruct (IH (seen ++ [v]) m1 s1 Hm1 Hs1) as (m' & s' & E & Hm' & Hs').
    rewrite <- app_assoc in E, Hm', Hs'. cbn [app] in E, Hm', Hs'.
    exists m', s'. repeat split; assumption.
Qed.

Lemma running_spec (qs : list Q) :
  exists m s : Q,
    running (map Fin qs) =
      {| mean := Fin m; M2 := Fin s; count := List.length qs |} /\
    (m * inject_Z (Z.of_nat (List.length qs)) == total qs)%Q /\
    (s == total (map (fun v => (v - m) * (v - m)) qs))%Q /\
    (0 <= s)%Q.
Proof.
  destruct (@running_from qs [] 0 0) as (m & s & E & Hm & Hs).
  - simpl. ring.
  - simpl. ring.
  - cbn [app] in *. exists m, s.
    assert (Hdev : (s == total (map (fun v => (v - m) * (v - m)) qs))%Q).
    { rewrite total_deviation, Hs.
      setoid_replace (total qs) with (m * inject_Z (Z.of_nat (List.length qs)))%Q
        by (symmetry; exact Hm).
      ring. }
    split; [exact E | split; [exact Hm | split; [exact Hdev|]]].
    rewrite Hdev. apply total_nonneg.
    apply Forall_forall. intros q Hq. apply in_map_iff in Hq.
    destruct Hq as (v & <- & _).
    assert (H := Qmult_le_0_compat (v - m) (v - m)).
    destruct (Qlt_le_dec (v - m) 0) as [Hn | Hp].
    + setoid_replace ((v - m) * (v - m))%Q with ((m - v) * (m - v))%Q by ring.
      apply Qmult_le_0_compat; lra.
    + apply Qmult_le_0_compat; lra.
Qed.

End StatsFacts.

(** X28.  The loop that the quality scorers use to accumulate statistics
    computes, for any finite values, their number, their arithmetic mean and
    the sum of their squared deviations from that mean, which is never
    negative. *)
Theorem running_statistics_are_mean_and_squared_deviations (qs : list Q) :
  exists m s : Q,
    ImageStats.running (map Fin qs) =
      {| ImageStats.mean := Fin m; ImageStats.M2 := Fin s;
         ImageStats.count := List.length qs |} /\
    (m * inject_Z (Z.of_nat (List.length qs)) == ImageStats.total qs)%Q /\
    (s == ImageStats.total (map (fun v => (v - m) * (v - m)) qs))%Q /\
    (0 <= s)%Q.
Proof. apply StatsFacts.running_spec. Qed.

Module BlurFacts.
Import ImageStats.

Lemma get_map_Fin (gs : list Q) (i : nat) :
  (i < List.length gs)%nat -> Num.get (map Fin gs) i = Fin (nth i gs 0%Q).
Proof.
  intros Hi. unfold Num.get.
  rewrite (nth_indep _ NaN (Fin 0)) by (rewrite length_map; exact Hi).
  apply (map_nth Fin).
Qed.

Lemma clamp_range v hi : (0 <= hi)%Z -> (0 <= clamp v 0 hi <= hi)%Z.
Proof.
  intros H. unfold clamp.
  destruct (Z.ltb_spec v 0); [lia|].
  destruct (Z.gtb_spec v hi); lia.
Qed.

Lemma pixel_index y x size :
  (0 <= y <= Z.of_nat size - 1)%Z -> (0 <= x <= Z.of_nat size - 1)%Z ->
  (Z.to_nat (y * Z.of_nat size + x) < size * size)%nat.
Proof. intros Hy Hx. nia. Qed.

(** Every response is finite, and it is zero when the nine pixels read
    are equal *)
Lemma laplacianAt_finite (gs : list Q) (size y x : nat) :
  List.length gs = (size * size)%nat -> (0 < size)%nat ->
  exists q : Q,
    laplacianAt (map Fin gs) size y x = Fin q /\
    (forall c : Q, Forall (fun g => g == c)%Q gs -> q == 0)%Q.
Proof.
  intros Hlen Hsize. unfold laplacianAt.
  assert (Hhi : (0 <= Z.of_nat size - 1)%Z) by lia.
  assert (R : forall dy dx,
            exists g : Q,
              Num.get (map Fin gs)
                (Z.to_nat (clamp (Z.of_nat y + dy) 0 (Z.of_nat size - 1) * Z.of_nat size +
                           clamp (Z.of_nat x + dx) 0 (Z.of_nat size - 1))) = Fin g /\
              (forall c : Q, Forall (fun g => g == c)%Q gs -> g == c)%Q).
  { intros dy dx.
    pose proof (@clamp_range (Z.of_nat y + dy) _ Hhi) as Hy.
    pose proof (@clamp_range (Z.of_nat x + dx) _ Hhi) as Hx.
    pose proof (@pixel_index _ _ size Hy Hx) as Hi. rewrite <- Hlen in Hi.
    eexists. split; [apply get_map_Fin; exact Hi|].
    intros c Hc. rewrite Forall_forall in Hc. apply Hc. now apply nth_In. }
  cbn [seq fold_left Nat.div Nat.modulo Nat.divmod fst snd Num.get nth k4].
  cbn [Z.of_nat Pos.of_succ_nat Pos.succ Z.sub Z.add Z.opp Z.pos_sub Z.succ_double
       Z.pred_double Z.double Pos.pred_double].
  repeat match goal with
  | |- context [Num.get (map Fin gs)
                  (Z.to_nat (clamp (Z.of_nat y + ?dy) 0 _ * _ +
                             clamp (Z.of_nat x + ?dx) 0 _))] =>
      let g := fresh "g" in let E := fresh "E" in let H := fresh "Hg" in
      destruct (R dy dx) as (g & E & H); rewrite E; clear E
  end.
  cbn [Num.add Num.mul].
  eexists. split; [reflexivity|].
  intros c Hc.
  repeat match goal with
  | H : forall c : Q, Forall _ gs -> (_ == c)%Q |- _ =>
      rewrite (H c Hc); clear H
  end.
  ring.
Qed.

End BlurFacts.

Module ClarityFacts.
Import ImageStats.

Lemma as_rationals (P : Q -> Prop) (l : list num) :
  Forall (fun x => exists q : Q, x = Fin q /\ P q) l ->
  exists qs : list Q, l = map Fin qs /\ Forall P qs.
Proof.
  induction 1 as [|x l (q & -> & Hq) _ (qs & -> & Hqs)].
  - now exists [].
  - exists (q :: qs). split; [reflexivity | now constructor].
Qed.

Lemma total_zero (qs : list Q) :
  Forall (fun q => q == 0)%Q qs -> (total qs == 0)%Q.
Proof.
  induction 1 as [|x qs Hx _ IH]; simpl; [reflexivity|].
  unfold total in IH. rewrite Hx, IH. ring.
Qed.

Lemma score_of_variance (var : Q) :
  (0 <= var)%Q ->
  exists s : Q,
    Num.round (Num.min (Fin var / Fin 500 * Fin 100) (Fin 100) * Fin 100) / Fin 100
    = Fin s /\
    (0 <= s <= 100)%Q /\ ((var == 0)%Q -> (s == 0)%Q).
Proof.
  intros Hv.
  assert (P500 : (0 < 500)%Q) by reflexivity.
  assert (P100 : (0 < 100)%Q) by reflexivity.
  rewrite (IouFacts.div_Fin_pos _ P500). cbn [Num.mul].
  assert (H0 : (0 <= var / 500 * 100)%Q).
  { assert (E : (var / 500 * 100 == var * (1 # 5))%Q) by field. rewrite E. lra. }
  destruct (RangeFacts.min_Fin_cases (var / 500 * 100) 100) as [[-> Hm] | [-> Hm]];
    cbn [Num.mul Num.round]; rewrite (IouFacts.div_Fin_pos _ P100);
    eexists; (split; [reflexivity|]).
  - assert (Hlo : (inject_Z 0 <= var / 500 * 100 * 100)%Q)
      by (change (inject_Z 0) with 0%Q; lra).
    assert (Hhi : (var / 500 * 100 * 100 <= inject_Z 10000)%Q)
      by (change (inject_Z 10000) with 10000%Q; lra).
    pose proof (@ResolutionFacts.round2_bounds _ _ _ Hlo Hhi) as Hb.
    assert (Ez : (inject_Z 0 / 100 == 0)%Q) by reflexivity.
    assert (Eh : (inject_Z 10000 / 100 == 100)%Q) by reflexivity.
    rewrite Ez, Eh in Hb. split; [exact Hb|].
    intros E.
    assert (Ef : Qfloor (var / 500 * 100 * 100 + (1 # 2)) = 0%Z).
    { apply Z.le_antisymm.
      - apply RoundFacts.round_le_int. change (inject_Z 0) with 0%Q.
        rewrite E. vm_compute. discriminate.
      - apply RoundFacts.round_ge_int. change (inject_Z 0) with 0%Q. lra. }
    rewrite Ef. reflexivity.
  - split; [vm_compute; split; discriminate|].
    intros E. exfalso. rewrite E in Hm. vm_compute in Hm. discriminate.
Qed.

End ClarityFacts.

(** X29.  The clarity score that [estimateBlurScore] computes from a square
    grey image is a number between 0 and 100, and it is 0 when all pixels
    have the same value. *)
Theorem clarity_score_is_zero_for_a_flat_image (gs : list Q) (size : nat) :
  List.length gs = (size * size)%nat ->
  exists s : Q,
    ImageStats.blurScore (map Fin gs) size = Fin s /\
    (0 <= s <= 100)%Q /\
    (forall c : Q, Forall (fun g => g == c)%Q gs -> (s == 0)%Q).
Proof.
  intros Hlen. unfold ImageStats.blurScore. cbv zeta.
  assert (Hl : exists qs : list Q,
            ImageStats.laplacian (map Fin gs) size = map Fin qs /\
            List.length qs = (size * size)%nat /\
            (forall c : Q, Forall (fun g => g == c)%Q gs ->
               Forall (fun q => q == 0)%Q qs)).
  { destruct size as [|n].
    - exists []. repeat split. intros; constructor.
    - set (size := S n) in *.
      assert (Hs : (0 < size)%nat) by (unfold size; lia).
      destruct (@ClarityFacts.as_rationals
                  (fun q => forall c : Q, Forall (fun g => g == c)%Q gs -> q == 0)%Q
                  (ImageStats.laplacian (map Fin gs) size)) as (qs & E & Hq).
      { apply Forall_forall. intros v Hv. unfold ImageStats.laplacian in Hv.
        apply in_flat_map in Hv. destruct Hv as (y & _ & Hv).
        apply in_map_iff in Hv. destruct Hv as (x & <- & _).
        apply (@BlurFacts.laplacianAt_finite gs size y x Hlen Hs). }
      exists qs. split; [exact E | split].
      + apply (f_equal (@List.length num)) in E. rewrite length_map in E.
        rewrite <- E. unfold ImageStats.laplacian.
        rewrite (@DecodeFacts.length_flat_map_const _ _ _ size).
        * now rewrite length_seq.
        * intros y. now rewrite length_map, length_seq.
      + intros c Hc. eapply Forall_impl; [|exact Hq]. intros q H. now apply (H c). }
  destruct Hl as (qs & -> & Hn & Hflat).
  destruct (StatsFacts.running_spec qs) as (m & s & -> & Hm & Hs & Hs0).
  cbn [ImageStats.count ImageStats.M2].
  assert (Hvar : exists var : Q,
            (if Nat.ltb 0 (List.length qs)
             then Fin s / Num.of_nat (List.length qs) else Fin 0) = Fin var /\
            (0 <= var)%Q /\
            (forall c : Q, Forall (fun g => g == c)%Q gs -> var == 0)%Q).
  { destruct (Nat.ltb 0 (List.length qs)) eqn:E.
    - apply Nat.ltb_lt in E.
      assert (PN : (0 < inject_Z (Z.of_nat (List.length qs)))%Q)
        by now apply RoundFacts.of_nat_pos.
      unfold Num.of_nat. rewrite (IouFacts.div_Fin_pos _ PN).
      eexists. split; [reflexivity | split].
      + apply Qle_shift_div_l; [exact PN | lra].
      + intros c Hc. specialize (Hflat c Hc).
        assert (Hz : (ImageStats.total qs == 0)%Q) by now apply ClarityFacts.total_zero.
        rewrite Hz in Hm.
        assert (Em : (m == 0)%Q).
        { destruct (Qeq_dec m 0) as [Em | Em]; [exact Em|].
          exfalso. apply (Qmult_integral _ _) in Hm. destruct Hm; [contradiction | lra]. }
        assert (Es : (s == 0)%Q).
        { rewrite Hs. apply ClarityFacts.total_zero.
          apply Forall_forall. intros q Hq. apply in_map_iff in Hq.
          destruct Hq as (v & <- & Hv). rewrite Forall_forall in Hflat.
          rewrite (Hflat v Hv), Em. ring. }
        rewrite Es. field. lra.
    - exists 0%Q. split; [reflexivity | split; [lra | reflexivity]]. }
  destruct Hvar as (var & -> & Hv0 & Hvflat).
  destruct (ClarityFacts.score_of_variance Hv0) as (sc & -> & Hb & Hz).
  exists sc. split; [reflexivity | split; [exact Hb|]].
  intros c Hc. apply Hz. now apply (Hvflat c).
Qed.

Lemma clarity_score_witness :
  exists s : Q,
    ImageStats.blurScore (map Fin [5; 5; 5; 5]%Q) 2 = Fin s /\
    (0 <= s <= 100)%Q /\
    (forall c : Q, Forall (fun g => g == c)%Q [5; 5; 5; 5]%Q -> (s == 0)%Q).
Proof.
  apply clarity_score_is_zero_for_a_flat_image. reflexivity.
Defined.

(** ** The brightness score *)

Module BrightnessFacts.
Import Brightness.

Lemma toUint8_byte x : (toUint8 x <= 255)%nat.
Proof.
  destruct x as [q| | |]; simpl; try lia.
  set (t := if Qle_bool 0 q then Qfloor q else Qceiling q).
  pose proof (Z.mod_pos_bound t 256 ltac:(lia)). lia.
Qed.

Lemma grayOfPixels_bytes data n : Forall (fun v => v <= 255)%nat (grayOfPixels data n).
Proof.
  unfold grayOfPixels. apply Forall_forall. intros v Hv.
  apply in_map_iff in Hv. destruct Hv as (j & <- & _). apply toUint8_byte.
Qed.

Lemma insertAscending_perm x l : Permutation (insertAscending x l) (x :: l).
Proof.
  induction l as [|y l IH]; simpl; [reflexivity|].
  destruct (Nat.leb x y); [reflexivity|].
  rewrite IH. apply perm_swap.
Qed.

Lemma sortAscending_perm l : Permutation (sortAscending l) l.
Proof.
  induction l as [|x l IH]; simpl; [reflexivity|].
  rewrite insertAscending_perm. now constructor.
Qed.

Lemma insertAscending_sorted x l :
  StronglySorted le l -> StronglySorted le (insertAscending x l).
Proof.
  induction 1 as [|y l Hs IH Hy]; simpl.
  - repeat constructor.
  - destruct (Nat.leb x y) eqn:E.
    + apply Nat.leb_le in E. constructor; [constructor; assumption|].
      constructor; [exact E|]. eapply Forall_impl; [|exact Hy]. intros; lia.
    + apply Nat.leb_gt in E. constructor; [exact IH|].
      eapply Permutation_Forall; [symmetry; apply insertAscending_perm|].
      constructor; [lia | exact Hy].
Qed.

Lemma sortAscending_sorted l : StronglySorted le (sortAscending l).
Proof.
  induction l as [|x l IH]; simpl; [constructor | now apply insertAscending_sorted].
Qed.

Lemma sorted_nth l : StronglySorted le l ->
  forall i j, (i <= j)%nat -> (j < List.length l)%nat ->
    (nth i l 0 <= nth j l 0)%nat.
Proof.
  induction 1 as [|x l Hs IH Hx]; intros i j Hij Hj; simpl in Hj; [lia|].
  destruct i as [|i], j as [|j]; simpl; try lia.
  - rewrite Forall_forall in Hx. apply Hx. apply nth_In. lia.
  - apply IH; lia.
Qed.

Lemma list_sum_bounds (l : list nat) (lo hi : nat) :
  Forall (fun v => lo <= v <= hi)%nat l ->
  (lo * List.length l <= list_sum l <= hi * List.length l)%nat.
Proof.
  induction 1 as [|x l Hx _ IH]; simpl; lia.
Qed.

(** The pixels between the two percentiles: there is at least one, and
    their mean lies between 0 and 255 *)
Lemma kept_pixels (gray : list nat) :
  gray <> [] -> Forall (fun v => v <= 255)%nat gray ->
  let values := sortAscending gray in
  let total := List.length values in
  let pLow := nth (5 * (total - 1) / 100) values 0%nat in
  let pHigh := nth ((100 - 5) * (total - 1) / 100) values 0%nat in
  let kept := filter (fun v => Nat.leb pLow v && Nat.leb v pHigh) gray in
  (0 < List.length kept)%nat /\ (list_sum kept <= 255 * List.length kept)%nat.
Proof.
  intros Hne Hb. cbv zeta.
  set (values := sortAscending gray).
  set (total := List.length values).
  assert (Htotal : (0 < total)%nat).
  { unfold total, values. rewrite (Permutation_length (sortAscending_perm gray)).
    destruct gray; [congruence | simpl; lia]. }
  set (lowIndex := (5 * (total - 1) / 100)%nat).
  set (highIndex := ((100 - 5) * (total - 1) / 100)%nat).
  assert (Hhi : (highIndex < total)%nat).
  { unfold highIndex. apply Nat.Div0.div_lt_upper_bound. simpl. lia. }
  assert (Hlh : (lowIndex <= highIndex)%nat).
  { unfold lowIndex, highIndex. apply Nat.Div0.div_le_mono. simpl. lia. }
  pose proof (@sorted_nth values (sortAscending_sorted gray) lowIndex highIndex Hlh Hhi) as Hp.
  set (pLow := nth lowIndex values 0%nat) in *.
  set (pHigh := nth highIndex values 0%nat) in *.
  assert (Hin : In pLow gray).
  { eapply Permutation_in; [apply sortAscending_perm|]. apply nth_In. fold values total. lia. }
  split.
  - assert (Hk : In pLow (filter (fun v => Nat.leb pLow v && Nat.leb v pHigh) gray)).
    { apply filter_In. split; [exact Hin|].
      apply andb_true_intro. split; apply Nat.leb_le; lia. }
    destruct (filter _ gray); [destruct Hk | simpl; lia].
  - apply (@list_sum_bounds _ 0 255).
    apply Forall_forall. intros v Hv. apply filter_In in Hv. destruct Hv as [Hv _].
    rewrite Forall_forall in Hb. specialize (Hb v Hv). lia.
Qed.

End BrightnessFacts.

(** X30.  [computeBrightnessScore] gives nothing for a crop at most one
    pixel wide or high.  For any larger crop, whatever the canvas holds, it
    returns a value between 0 and 100 with one of the statuses normal,
    underexposed, overexposed and too bright: the status invalid is never
    returned. *)
Theorem brightness_score_is_never_invalid (data : list num) (cropW cropH : nat) :
  ((cropW <= 1 \/ cropH <= 1)%nat ->
   Brightness.computeBrightnessScore data cropW cropH = None) /\
  ((1 < cropW)%nat -> (1 < cropH)%nat ->
   exists (value : Q) (status : string),
     Brightness.computeBrightnessScore data cropW cropH = Some (Fin value, status) /\
     (0 <= value <= 100)%Q /\
     In status ["normal"; "underexposed"; "overexposed"; "too bright"]%string).
Proof.
  split.
  - intros H. unfold Brightness.computeBrightnessScore.
    destruct H as [H | H]; apply Nat.leb_le in H; rewrite H;
      [reflexivity | now rewrite orb_true_r].
  - intros Hw Hh. unfold Brightness.computeBrightnessScore.
    assert (Ew : Nat.leb cropW 1 = false) by (apply Nat.leb_gt; exact Hw).
    assert (Eh : Nat.leb cropH 1 = false) by (apply Nat.leb_gt; exact Hh).
    rewrite Ew, Eh. cbn [orb].
    set (gray := Brightness.grayOfPixels data (cropW * cropH)).
    assert (Hlen : List.length gray = (cropW * cropH)%nat).
    { unfold gray, Brightness.grayOfPixels. now rewrite length_map, length_seq. }
    assert (Hne : gray <> []).
    { intros E. rewrite E in Hlen. simpl in Hlen. nia. }
    pose proof (@BrightnessFacts.kept_pixels gray Hne
                  (BrightnessFacts.grayOfPixels_bytes data (cropW * cropH))) as Hk.
    cbv zeta in Hk. unfold Brightness.brightnessOfGray. cbv zeta.
    assert (Et : Nat.eqb (List.length (Brightness.sortAscending gray)) 0 = false).
    { apply Nat.eqb_neq.
      rewrite (Permutation_length (BrightnessFacts.sortAscending_perm gray)), Hlen. nia. }
    rewrite Et.
    set (kept := filter _ gray) in *.
    destruct Hk as [Hc Hs].
    assert (Ec : Nat.eqb (List.length kept) 0 = false) by (apply Nat.eqb_neq; lia).
    rewrite Ec.
    unfold Num.of_nat at 1 2.
    set (S_ := inject_Z (Z.of_nat (list_sum kept))).
    set (C_ := inject_Z (Z.of_nat (List.length kept))).
    assert (PC : (0 < C_)%Q) by now apply RoundFacts.of_nat_pos.
    assert (HS0 : (0 <= S_)%Q).
    { unfold S_. change 0%Q with (inject_Z 0). rewrite <- Zle_Qle. lia. }
    assert (HS1 : (S_ <= 255 * C_)%Q).
    { unfold S_, C_. change 255%Q with (inject_Z 255).
      rewrite <- inject_Z_mult, <- Zle_Qle. lia. }
    rewrite (IouFacts.div_Fin_pos _ PC).
    assert (P255 : (0 < 255)%Q) by reflexivity.
    rewrite (IouFacts.div_Fin_pos _ P255). cbn [Num.mul].
    set (b := (S_ / C_ / 255 * 100)%Q).
    assert (Hb : (0 <= b <= 100)%Q).
    { assert (Hm0 : (0 <= S_ / C_)%Q) by (apply Qle_shift_div_l; lra).
      assert (Hm1 : (S_ / C_ <= 255)%Q) by (apply Qle_shift_div_r; lra).
      assert (E : (b == S_ / C_ * (20 # 51))%Q) by (unfold b; field; lra).
      rewrite E. split; lra. }
    match goal with
    | |- context [Some (?v, ?st)] =>
        assert (Hst : In st ["normal"; "underexposed"; "overexposed"; "too bright"]%string)
    end.
    { repeat match goal with
             | |- context [if ?c then _ else _] => destruct c
             end; simpl; tauto. }
    cbn [Num.sub Num.neg Num.add Num.abs Num.mul].
    set (d := (100 + - (Qabs (b + - (50)) * 2))%Q).
    assert (Hd : (0 <= d <= 100)%Q).
    { unfold d. pose proof (Qabs_nonneg (b + - (50))) as Ha.
      assert (Hle : (Qabs (b + - (50)) <= 50)%Q).
      { apply Qabs_Qle_condition. split; lra. }
      split; lra. }
    destruct (RangeFacts.max_Fin_cases 0 d) as [[-> Hm] | [-> Hm]];
      cbn [Num.mul Num.round];
      assert (P100 : (0 < 100)%Q) by reflexivity;
      rewrite (IouFacts.div_Fin_pos _ P100);
      eexists; eexists; (split; [reflexivity | split; [|exact Hst]]).
    + vm_compute. split; discriminate.
    + assert (Hlo : (inject_Z 0 <= d * 100)%Q) by (change (inject_Z 0) with 0%Q; lra).
      assert (Hhi : (d * 100 <= inject_Z 10000)%Q)
        by (change (inject_Z 10000) with 10000%Q; lra).
      pose proof (@ResolutionFacts.round2_bounds _ _ _ Hlo Hhi) as Hr.
      assert (Ez : (inject_Z 0 / 100 == 0)%Q) by reflexivity.
      assert (E1 : (inject_Z 10000 / 100 == 100)%Q) by reflexivity.
      rewrite Ez, E1 in Hr. exact Hr.
Qed.

Lemma brightness_score_witness :
  exists (value : Q) (status : string),
    Brightness.computeBrightnessScore Samples.fourPixels 2 2 =
      Some (Fin value, status) /\
    (0 <= value <= 100)%Q /\
    In status ["normal"; "underexposed"; "overexposed"; "too bright"]%string.
Proof.
  apply (proj2 (brightness_score_is_never_invalid Samples.fourPixels 2 2)); lia.
Defined.
